(** * Psycheverse admin backend (backend/server.js)

    A shallow embedding of the Express handlers of [server.js] together with
    the parts of the JavaScript runtime (values, truthiness, property reads,
    [JSON.parse], [JSON.stringify], [parseInt]) and of the SQLite engine
    (storage classes, column affinity, NOT NULL, comparisons, aggregates,
    LIKE) that the handlers rely on.

    Idealisations, stated once:
    - JavaScript numbers and SQLite's numbers are exact rationals ([Q]);
      IEEE-754 rounding is not modelled. The class of a number follows from
      its value and from where it comes: the driver binds a number that is
      a 32-bit integer as an INTEGER and any other number as a REAL; a
      numeric column holds an integer of the 64-bit range as an INTEGER and
      any other number as a REAL. A REAL turned into text takes SQLite's
      fifteen significant digits; SUM over INTEGERs, LIMIT and OFFSET fail
      outside the 64-bit range.
    - Strings are byte strings (UTF-8); LIKE's [_] matches one byte.
    - The clock and the I/O status of the database file are inputs ([env]). *)

From Stdlib Require Import ZArith QArith List String Ascii Bool Lia.
From Stdlib Require Import DecimalString.
From Stdlib Require Import Sorting.Sorted Sorting.Permutation.
From Stdlib Require Qcanon.
Import ListNotations.

Set Warnings "-register-all".

Local Open Scope string_scope.
Local Open Scope list_scope.
Local Open Scope Z_scope.

(* ================================================================== *)
(** ** JavaScript values *)
(* ================================================================== *)

Module JS.

Inductive jsval : Type :=
| JUndefined
| JNull
| JBool (b : bool)
| JNum (n : Q)
| JNaN
| JStr (s : string)
| JArr (items : list jsval)
| JObj (fields : list (string * jsval)).

(** ToBoolean: what [if (x)], [!x], [x && y] and [x || y] test. *)
Definition truthy (v : jsval) : bool :=
  match v with
  | JUndefined | JNull | JNaN => false
  | JBool b => b
  | JNum n => negb (Qnum n =? 0)
  | JStr s => negb (String.eqb s "")
  | JArr _ | JObj _ => true
  end.

(** [a || b] *)
Definition js_or (a b : jsval) : jsval := if truthy a then a else b.

(** [a && b] *)
Definition js_and (a b : jsval) : jsval := if truthy a then b else a.

Definition is_undefined (v : jsval) : bool :=
  match v with JUndefined => true | _ => false end.

(** [typeof v === 'string'] *)
Definition is_string (v : jsval) : bool :=
  match v with JStr _ => true | _ => false end.

(** [Array.isArray(v)] *)
Definition isArray (v : jsval) : bool :=
  match v with JArr _ => true | _ => false end.

(** [v === 'lit'] for a string literal. *)
Definition str_is (v : jsval) (lit : string) : bool :=
  match v with JStr s => String.eqb s lit | _ => false end.

Fixpoint assoc {A : Type} (k : string) (l : list (string * A)) : option A :=
  match l with
  | [] => None
  | (k', v) :: l' => if String.eqb k' k then Some v else assoc k l'
  end.

(** Property assignment [o[k] = v] on an object's field list: an existing
    key keeps its position, a new key goes last. *)
Fixpoint set_field (k : string) (v : jsval) (fs : list (string * jsval))
  : list (string * jsval) :=
  match fs with
  | [] => [(k, v)]
  | (k', v') :: fs' =>
      if String.eqb k' k then (k, v) :: fs' else (k', v') :: set_field k v fs'
  end.

(** Property read [v.k] for the plain data keys the handlers use
    (status, viewers, id, role, ...). Reading a property of [null] or
    [undefined] throws a TypeError ([None]); primitives and arrays have no
    such property. *)
Definition get_prop (k : string) (v : jsval) : option jsval :=
  match v with
  | JUndefined | JNull => None
  | JObj fs => Some (match assoc k fs with Some x => x | None => JUndefined end)
  | _ => Some JUndefined
  end.

(** Destructuring [const { k } = body] of a request body, which
    body-parser always leaves an object or array. *)
Definition field (k : string) (body : jsval) : jsval :=
  match get_prop k body with Some x => x | None => JUndefined end.

(* ------------------------------------------------------------------ *)
(** *** Characters and decimal numerals *)

Definition code (c : ascii) : Z := Z.of_nat (nat_of_ascii c).
Definition chr (z : Z) : ascii := ascii_of_nat (Z.to_nat z).

Definition is_ws (c : ascii) : bool :=
  let n := code c in (n =? 32) || (n =? 9) || (n =? 10) || (n =? 13).

Definition digit (c : ascii) : option Z :=
  let n := code c in
  if (48 <=? n) && (n <=? 57) then Some (n - 48) else None.

Definition hexdigit (c : ascii) : option Z :=
  let n := code c in
  if (48 <=? n) && (n <=? 57) then Some (n - 48)
  else if (97 <=? n) && (n <=? 102) then Some (n - 87)
  else if (65 <=? n) && (n <=? 70) then Some (n - 55)
  else None.

Fixpoint skip_ws (l : list ascii) : list ascii :=
  match l with
  | c :: l' => if is_ws c then skip_ws l' else l
  | [] => []
  end.

(** Reads a maximal run of decimal digits: accumulated value, number of
    digits read, rest of the input. *)
Fixpoint digits (l : list ascii) (acc : Z) (n : Z) : Z * Z * list ascii :=
  match l with
  | c :: l' =>
      match digit c with
      | Some d => digits l' (10 * acc + d) (n + 1)
      | None => (acc, n, l)
      end
  | [] => (acc, n, [])
  end.

Definition pow10 (e : Z) : Q :=
  if 0 <=? e then inject_Z (10 ^ e) else 1 / inject_Z (10 ^ (- e)).

(** Decimal text of an integer. *)
Definition Z_to_string (z : Z) : string := NilZero.string_of_int (Z.to_int z).

(** Fraction digits of [r / d] (with [0 <= r < d]), at most [fuel] of them. *)
Fixpoint frac_digits (fuel : nat) (r d : Z) : string :=
  match fuel with
  | O => ""
  | S f =>
      if r =? 0 then ""
      else String (chr (48 + (10 * r) / d)) (frac_digits f ((10 * r) mod d) d)
  end.

(** Number::toString for the numbers of the model: integers in decimal,
    other numbers as digits after a point. A JSON literal has a denominator
    [2^a * 5^b] and needs [max a b] digits, fewer than the fuel given; any
    other fraction is cut off there. *)
Definition number_to_string (q : Q) : string :=
  let q := Qred q in
  let n := Qnum q in
  let d := Zpos (Qden q) in
  let sign := if n <? 0 then "-" else "" in
  if d =? 1 then Z_to_string n
  else
    (sign ++ Z_to_string (Z.abs n / d) ++ "." ++
     frac_digits (4 * Pos.size_nat (Qden q)) (Z.abs n mod d) d)%string.

(** ToString, as used by template literals and by the database driver for
    object parameters. *)
Fixpoint to_string (v : jsval) : string :=
  match v with
  | JUndefined => "undefined"
  | JNull => "null"
  | JBool true => "true"
  | JBool false => "false"
  | JNum n => number_to_string n
  | JNaN => "NaN"
  | JStr s => s
  | JArr items =>
      String.concat ","
        (map (fun x => match x with
                       | JUndefined | JNull => ""
                       | _ => to_string x
                       end) items)
  | JObj _ => "[object Object]"
  end.

(* ------------------------------------------------------------------ *)
(** *** JSON.parse *)

Inductive parsed (A : Type) : Type :=
| Ok (v : A) (rest : list ascii)
| SyntaxError
| OutOfFuel.
Arguments Ok {A} v rest.
Arguments SyntaxError {A}.
Arguments OutOfFuel {A}.

(** UTF-8 bytes of a code point (a lone surrogate gets the three-byte form). *)
Definition utf8 (cp : Z) : list ascii :=
  if cp <? 128 then [chr cp]
  else if cp <? 2048 then [chr (192 + cp / 64); chr (128 + cp mod 64)]
  else if cp <? 65536 then
    [chr (224 + cp / 4096); chr (128 + (cp / 64) mod 64); chr (128 + cp mod 64)]
  else
    [chr (240 + cp / 262144); chr (128 + (cp / 4096) mod 64);
     chr (128 + (cp / 64) mod 64); chr (128 + cp mod 64)].

Definition hex4 (a b c d : ascii) : option Z :=
  match hexdigit a, hexdigit b, hexdigit c, hexdigit d with
  | Some x, Some y, Some z, Some w => Some (((x * 16 + y) * 16 + z) * 16 + w)
  | _, _, _, _ => None
  end.

Definition flush (hi : option Z) (acc : list ascii) : list ascii :=
  match hi with Some h => acc ++ utf8 h | None => acc end.

(** The byte a one-letter escape stands for. *)
Definition simple_escape (e : ascii) : option Z :=
  let n := code e in
  if n =? 34 then Some 34        (* quote *)
  else if n =? 92 then Some 92   (* backslash *)
  else if n =? 47 then Some 47   (* slash *)
  else if n =? 98 then Some 8    (* b: backspace *)
  else if n =? 102 then Some 12  (* f: form feed *)
  else if n =? 110 then Some 10  (* n: line feed *)
  else if n =? 114 then Some 13  (* r: carriage return *)
  else if n =? 116 then Some 9   (* t: tab *)
  else None.

(** Characters of a string literal after its opening quote. [hi] is a
    pending high surrogate from a unicode escape, [acc] the bytes so far. *)
Fixpoint parse_chars (l : list ascii) (hi : option Z) (acc : list ascii)
  : parsed string :=
  match l with
  | [] => SyntaxError
  | c :: l' =>
      if code c =? 34 then Ok (string_of_list_ascii (flush hi acc)) l'
      else if code c <? 32 then SyntaxError
      else if code c =? 92 then
        match l' with
        | e :: l'' =>
            if code e =? 117 then
              match l'' with
              | h1 :: h2 :: h3 :: h4 :: l3 =>
                  match hex4 h1 h2 h3 h4 with
                  | None => SyntaxError
                  | Some u =>
                      if (55296 <=? u) && (u <=? 56319) then
                        parse_chars l3 (Some u) (flush hi acc)
                      else if (56320 <=? u) && (u <=? 57343) then
                        match hi with
                        | Some h =>
                            parse_chars l3 None
                              (acc ++ utf8 (65536 + (h - 55296) * 1024 + (u - 56320)))
                        | None => parse_chars l3 None (acc ++ utf8 u)
                        end
                      else parse_chars l3 None (flush hi acc ++ utf8 u)
                  end
              | _ => SyntaxError
              end
            else
              match simple_escape e with
              | Some b => parse_chars l'' None (flush hi acc ++ [chr b])
              | None => SyntaxError
              end
        | [] => SyntaxError
        end
      else parse_chars l' None (flush hi acc ++ [c])
  end.

(** An optional minus sign. *)
Definition sign_part (l : list ascii) : bool * list ascii :=
  match l with
  | c :: r => if code c =? 45 then (true, r) else (false, l)
  | [] => (false, l)
  end.

(** [0], or a run of digits that does not start with [0]. *)
Definition int_part (l : list ascii) : option (Z * list ascii) :=
  match l with
  | [] => None
  | c :: r =>
      match digit c with
      | None => None
      | Some d0 =>
          if d0 =? 0 then Some (0, r)
          else Some (fst (fst (digits l 0 0)), snd (digits l 0 0))
      end
  end.

(** An optional fraction: a point and at least one digit. Returns the
    digits as an integer and their number. *)
Definition frac_part (l : list ascii) : option (Z * Z * list ascii) :=
  match l with
  | p :: r =>
      if code p =? 46 then
        let d := digits r 0 0 in
        if snd (fst d) =? 0 then None else Some d
      else Some (0, 0, l)
  | [] => Some (0, 0, l)
  end.

(** An optional exponent: [e] or [E], an optional sign, at least one
    digit. *)
Definition exp_part (l : list ascii) : option (Z * list ascii) :=
  match l with
  | e :: r =>
      if (code e =? 101) || (code e =? 69) then
        let '(eneg, r') :=
          match r with
          | s :: r' =>
              if code s =? 45 then (true, r')
              else if code s =? 43 then (false, r')
              else (false, r)
          | [] => (false, r)
          end in
        let d := digits r' 0 0 in
        if snd (fst d) =? 0 then None
        else Some ((if eneg then - fst (fst d) else fst (fst d)), snd d)
      else Some (0, l)
  | [] => Some (0, l)
  end.

(** A JSON number: sign, integer part, fraction, exponent. *)
Definition parse_number (l : list ascii) : parsed Q :=
  let '(neg, l1) := sign_part l in
  match int_part l1 with
  | None => SyntaxError
  | Some (ip, l2) =>
      match frac_part l2 with
      | None => SyntaxError
      | Some (fp, nf, l3) =>
          match exp_part l3 with
          | None => SyntaxError
          | Some (ev, l4) =>
              let m := (inject_Z ip + inject_Z fp * pow10 (- nf))%Q in
              let v := (m * pow10 ev)%Q in
              Ok (Qred (if neg then Qopp v else v)) l4
          end
      end
  end.

Definition lit (w : string) (l : list ascii) : option (list ascii) :=
  let w := list_ascii_of_string w in
  if String.eqb (string_of_list_ascii (firstn (List.length w) l))
                (string_of_list_ascii w)
  then Some (skipn (List.length w) l) else None.

(** Lifts the result of a sub-parser. *)
Definition lift {A B : Type} (f : A -> B) (p : parsed A) : parsed B :=
  match p with
  | Ok a r => Ok (f a) r
  | SyntaxError => SyntaxError
  | OutOfFuel => OutOfFuel
  end.

Definition keyword (w : string) (v : jsval) (l : list ascii) : parsed jsval :=
  match lit w l with Some r => Ok v r | None => SyntaxError end.

(** Recursive descent over the JSON grammar. Every recursive call is on a
    strictly shorter input or, for the first element of an array or
    object, after one character; [parse_fuel] below shows that fuel beyond
    twice the input length is never exhausted. *)
Fixpoint parse_value (fuel : nat) (l : list ascii) : parsed jsval :=
  match fuel with
  | O => OutOfFuel
  | S f =>
      match skip_ws l with
      | [] => SyntaxError
      | c :: r =>
          if code c =? 110 then keyword "ull" JNull r
          else if code c =? 116 then keyword "rue" (JBool true) r
          else if code c =? 102 then keyword "alse" (JBool false) r
          else if code c =? 34 then lift JStr (parse_chars r None [])
          else if code c =? 91 then
            match skip_ws r with
            | c' :: r' =>
                if code c' =? 93 then Ok (JArr []) r'
                else lift JArr (parse_elems f r)
            | [] => SyntaxError
            end
          else if code c =? 123 then
            match skip_ws r with
            | c' :: r' =>
                if code c' =? 125 then Ok (JObj []) r'
                else lift JObj (parse_members f r [])
            | [] => SyntaxError
            end
          else lift JNum (parse_number (c :: r))
      end
  end

with parse_elems (fuel : nat) (l : list ascii) : parsed (list jsval) :=
  match fuel with
  | O => OutOfFuel
  | S f =>
      match parse_value f l with
      | Ok v r =>
          match skip_ws r with
          | c :: r' =>
              if code c =? 93 then Ok [v] r'
              else if code c =? 44 then
                match parse_elems f r' with
                | Ok vs r'' => Ok (v :: vs) r''
                | SyntaxError => SyntaxError
                | OutOfFuel => OutOfFuel
                end
              else SyntaxError
          | [] => SyntaxError
          end
      | SyntaxError => SyntaxError
      | OutOfFuel => OutOfFuel
      end
  end

with parse_members (fuel : nat) (l : list ascii) (acc : list (string * jsval))
  : parsed (list (string * jsval)) :=
  match fuel with
  | O => OutOfFuel
  | S f =>
      match skip_ws l with
      | q :: r0 =>
          if code q =? 34 then
            match parse_chars r0 None [] with
            | Ok k r1 =>
                match skip_ws r1 with
                | c :: r2 =>
                    if code c =? 58 then
                      match parse_value f r2 with
                      | Ok v r3 =>
                          let acc' := set_field k v acc in
                          match skip_ws r3 with
                          | d :: r4 =>
                              if code d =? 125 then Ok acc' r4
                              else if code d =? 44 then parse_members f r4 acc'
                              else SyntaxError
                          | [] => SyntaxError
                          end
                      | SyntaxError => SyntaxError
                      | OutOfFuel => OutOfFuel
                      end
                    else SyntaxError
                | [] => SyntaxError
                end
            | SyntaxError => SyntaxError
            | OutOfFuel => OutOfFuel
            end
          else SyntaxError
      | [] => SyntaxError
      end
  end.

(** [JSON.parse(text)]: [None] stands for the SyntaxError it throws. *)
Definition JSON_parse (text : string) : option jsval :=
  let l := list_ascii_of_string text in
  match parse_value (2 * List.length l + 2) l with
  | Ok v rest => match skip_ws rest with [] => Some v | _ => None end
  | _ => None
  end.

(* ------------------------------------------------------------------ *)
(** *** JSON.stringify *)

Definition hexchar (n : Z) : ascii :=
  if n <? 10 then chr (48 + n) else chr (87 + n).

Fixpoint escape (l : list ascii) : list ascii :=
  match l with
  | [] => []
  | c :: l' =>
      let n := code c in
      (if n =? 34 then [chr 92; chr 34]
       else if n =? 92 then [chr 92; chr 92]
       else if n =? 8 then [chr 92; chr 98]
       else if n =? 12 then [chr 92; chr 102]
       else if n =? 10 then [chr 92; chr 110]
       else if n =? 13 then [chr 92; chr 114]
       else if n =? 9 then [chr 92; chr 116]
       else if n <? 32 then
         [chr 92; chr 117; chr 48; chr 48; hexchar (n / 16); hexchar (n mod 16)]
       else [c]) ++ escape l'
  end.

Definition quote (s : string) : string :=
  string_of_list_ascii ([chr 34] ++ escape (list_ascii_of_string s) ++ [chr 34]).

(** Serialisation of a value; [None] is the [undefined] that
    [JSON.stringify(undefined)] returns. Inside an array [undefined] prints
    as [null]; inside an object the property is left out. *)
Fixpoint stringify (v : jsval) : option string :=
  match v with
  | JUndefined => None
  | JNull | JNaN => Some "null"
  | JBool true => Some "true"
  | JBool false => Some "false"
  | JNum n => Some (number_to_string n)
  | JStr s => Some (quote s)
  | JArr items =>
      Some ("[" ++ String.concat ","
              (map (fun x => match stringify x with Some s => s | None => "null" end)
                   items) ++ "]")%string
  | JObj fs =>
      Some ("{" ++ String.concat ","
              (flat_map (fun kv => match stringify (snd kv) with
                                   | Some s => [(quote (fst kv) ++ ":" ++ s)%string]
                                   | None => []
                                   end) fs) ++ "}")%string
  end.

Definition JSON_stringify (v : jsval) : jsval :=
  match stringify v with Some s => JStr s | None => JUndefined end.

(* ------------------------------------------------------------------ *)
(** *** parseInt and String.prototype.split *)

Fixpoint hexdigits (l : list ascii) (acc : Z) (n : Z) : Z * Z :=
  match l with
  | c :: l' =>
      match hexdigit c with
      | Some d => hexdigits l' (16 * acc + d) (n + 1)
      | None => (acc, n)
      end
  | [] => (acc, n)
  end.

Definition is_js_ws (c : ascii) : bool :=
  is_ws c || (code c =? 11) || (code c =? 12).

Fixpoint skip_js_ws (l : list ascii) : list ascii :=
  match l with
  | c :: l' => if is_js_ws c then skip_js_ws l' else l
  | [] => []
  end.

(** [parseInt(s)] with no radix argument; [None] is NaN. *)
Definition parseInt (s : string) : option Z :=
  let l := skip_js_ws (list_ascii_of_string s) in
  let '(neg, l1) :=
    match l with
    | c :: r => if code c =? 45 then (true, r)
                else if code c =? 43 then (false, r) else (false, l)
    | [] => (false, l)
    end in
  let '(v, n) :=
    match l1 with
    | z :: x :: r =>
        if (code z =? 48) && ((code x =? 120) || (code x =? 88))
        then hexdigits r 0 0
        else let '(v, n, _) := digits l1 0 0 in (v, n)
    | _ => let '(v, n, _) := digits l1 0 0 in (v, n)
    end in
  if n =? 0 then None else Some (if neg then - v else v).

(** [parseInt(v)] on a value: its string form is parsed. *)
Definition js_parseInt (v : jsval) : jsval :=
  match parseInt (to_string v) with
  | Some z => JNum (inject_Z z)
  | None => JNaN
  end.

(** [s.split(sep)] for a one-character separator. *)
Fixpoint split_on (sep : ascii) (l : list ascii) (cur : list ascii) : list string :=
  match l with
  | [] => [string_of_list_ascii cur]
  | c :: l' =>
      if Ascii.eqb c sep then string_of_list_ascii cur :: split_on sep l' []
      else split_on sep l' (cur ++ [c])
  end.

Definition split (s : string) (sep : ascii) : list string :=
  split_on sep (list_ascii_of_string s) [].

(** [arr[i]] on an array of strings. *)
Definition index (l : list string) (i : nat) : jsval :=
  match nth_error l i with Some s => JStr s | None => JUndefined end.

End JS.

(* ================================================================== *)
(** ** The SQLite engine, as far as the statements of server.js use it *)
(* ================================================================== *)

Module SQLite.
Import JS.

(** Storage classes. INTEGER and REAL share the constructor [SNum]: which
    of the two a number is follows from its value and from where it comes
    (see [bound_number_text] and [as_integer]). *)
Inductive sqlval : Type :=
| SNull
| SNum (q : Q)
| SText (s : string).

(** Column affinity, from the declared type: TEXT for TEXT columns,
    INTEGER for INTEGER, NUMERIC for BOOLEAN and DATETIME. *)
Inductive affinity : Type := TEXT | INTEGER | NUMERIC.

(** Result of running a statement: what the driver hands to the callback as
    [err], or the statement's result. *)
Inductive outcome (A : Type) : Type :=
| Done (a : A)
| Err (msg : string).
Arguments Done {A} a.
Arguments Err {A} msg.

(** How the node-sqlite3 driver binds a JavaScript value to a [?]:
    strings as TEXT, numbers as numbers (INTEGER when the number is a
    32-bit integer, REAL otherwise), booleans as 1/0, [null] as NULL, and
    every other object, arrays included, as the fixed text
    [[object Object]]; [undefined] leaves the parameter unbound, which
    SQLite reads as NULL, and so it reads NaN. *)
Definition bind (v : jsval) : sqlval :=
  match v with
  | JUndefined | JNull | JNaN => SNull
  | JBool b => SNum (if b then 1 else 0)%Q
  | JNum n => SNum n
  | JStr s => SText s
  | JArr _ | JObj _ => SText "[object Object]"
  end.

(** A column value as the driver returns it in a row object. *)
Definition to_js (v : sqlval) : jsval :=
  match v with
  | SNull => JNull
  | SNum q => JNum q
  | SText s => JStr s
  end.

(** Longest numeric prefix of a text: sign, digits with an optional point,
    optional exponent. [None] when there is no digit. *)
Definition scan_number (l : list ascii) : option (Q * list ascii) :=
  let '(neg, l1) :=
    match l with
    | c :: r => if code c =? 45 then (true, r)
                else if code c =? 43 then (false, r) else (false, l)
    | [] => (false, l)
    end in
  let '(ip, n1, l2) := digits l1 0 0 in
  let '(fp, n2, l3) :=
    match l2 with
    | p :: r2 => if code p =? 46 then digits r2 0 0 else (0, 0, l2)
    | [] => (0, 0, l2)
    end in
  if n1 + n2 =? 0 then None
  else
    let '(ev, l4) :=
      match l3 with
      | e :: r3 =>
          if (code e =? 101) || (code e =? 69) then
            let '(eneg, r4) :=
              match r3 with
              | s :: r4 => if code s =? 45 then (true, r4)
                           else if code s =? 43 then (false, r4) else (false, r3)
              | [] => (false, r3)
              end in
            let '(ev, ne, l4) := digits r4 0 0 in
            if ne =? 0 then (0, l3) else ((if eneg then - ev else ev), l4)
          else (0, l3)
      | [] => (0, l3)
      end in
    let v := ((inject_Z ip + inject_Z fp * pow10 (- n2)) * pow10 ev)%Q in
    Some (Qred (if neg then Qopp v else v), l4).

(** A text that is, apart from surrounding white space, a well-formed
    numeric literal. *)
Definition numeric_literal (s : string) : option Q :=
  match scan_number (skip_js_ws (list_ascii_of_string s)) with
  | Some (q, rest) => match skip_js_ws rest with [] => Some q | _ => None end
  | None => None
  end.

(** The number a text counts as in arithmetic (its numeric prefix, or 0). *)
Definition numeric_prefix (s : string) : Q :=
  match scan_number (skip_js_ws (list_ascii_of_string s)) with
  | Some (q, _) => q
  | None => 0%Q
  end.

(* ------------------------------------------------------------------ *)
(** *** Integers, reals and their text *)

Definition int64_min : Z := - 2 ^ 63.
Definition int64_max : Z := 2 ^ 63 - 1.

(** The integer a number is, when it is one within the bounds. *)
Definition integer_within (lo hi : Z) (q : Q) : option Z :=
  let q := Qred q in
  if (Zpos (Qden q) =? 1) && (lo <=? Qnum q) && (Qnum q <=? hi)
  then Some (Qnum q) else None.

(** [10^e <= n / d], for positive [n] and [d]. *)
Definition reaches (n d e : Z) : bool :=
  if 0 <=? e then d * 10 ^ e <=? n else d <=? n * 10 ^ (- e).

(** The decimal exponent [e] of [n / d]: [10^e <= n / d < 10^(e+1)]. *)
Definition decimal_exponent (n d : Z) : Z :=
  let e0 := Z.of_nat (String.length (Z_to_string n))
            - Z.of_nat (String.length (Z_to_string d)) in
  if reaches n d e0 then e0 else e0 - 1.

(** [n / d * 10^s] rounded to an integer, halves upwards. *)
Definition scaled (n d s : Z) : Z :=
  let num := if 0 <=? s then n * 10 ^ s else n in
  let den := if 0 <=? s then d else d * 10 ^ (- s) in
  (2 * num + den) / (2 * den).

Fixpoint drop_zeros (l : list ascii) : list ascii :=
  match l with
  | c :: l' => if code c =? 48 then drop_zeros l' else l
  | [] => []
  end.

(** The digits after the point: trailing zeros go, one digit stays. *)
Definition fraction (l : list ascii) : string :=
  match rev (drop_zeros (rev l)) with
  | [] => "0"
  | l' => string_of_list_ascii l'
  end.

(** The text of a REAL, as SQLite's [printf("%!.15g")] writes it: fifteen
    significant digits, trailing zeros removed but one digit kept after
    the point, and the exponent form below [1e-4] and from [1e15] on. *)
Definition real_text (q : Q) : string :=
  let q := Qred q in
  let n := Z.abs (Qnum q) in
  let d := Zpos (Qden q) in
  if n =? 0 then "0.0"
  else
    let e0 := decimal_exponent n d in
    let m0 := scaled n d (14 - e0) in
    let m := if m0 =? 10 ^ 15 then 10 ^ 14 else m0 in
    let e := if m0 =? 10 ^ 15 then e0 + 1 else e0 in
    let ds := list_ascii_of_string (Z_to_string m) in
    let sign := if Qnum q <? 0 then "-" else "" in
    if (e <? -4) || (14 <? e) then
      (sign ++ string_of_list_ascii (firstn 1 ds) ++ "." ++ fraction (skipn 1 ds)
       ++ "e" ++ (if (e <? 0)%Z then "-" else "+")
       ++ (if (Z.abs e <? 10)%Z then "0" else "") ++ Z_to_string (Z.abs e))%string
    else if 0 <=? e then
      (sign ++ string_of_list_ascii (firstn (Z.to_nat (e + 1)) ds) ++ "."
       ++ fraction (skipn (Z.to_nat (e + 1)) ds))%string
    else
      (sign ++ "0." ++ string_of_list_ascii (repeat (chr 48) (Z.to_nat (- e - 1)))
       ++ fraction ds)%string.

(** The text of a bound number: the driver binds a 32-bit integer as
    INTEGER, written in decimal, and any other number as REAL. *)
Definition bound_number_text (q : Q) : string :=
  match integer_within (- 2 ^ 31) (2 ^ 31 - 1) q with
  | Some z => Z_to_string z
  | None => real_text q
  end.

(** What a column of the given affinity stores for a value. The numbers
    that reach a TEXT column are bound parameters. *)
Definition apply_affinity (a : affinity) (v : sqlval) : sqlval :=
  match a, v with
  | TEXT, SNum q => SText (bound_number_text q)
  | INTEGER, SText s | NUMERIC, SText s =>
      match numeric_literal s with Some q => SNum q | None => SText s end
  | _, _ => v
  end.

(** Sort order of values: NULL first, then numbers, then text by bytes. *)
Definition order (a b : sqlval) : comparison :=
  match a, b with
  | SNull, SNull => Eq
  | SNull, _ => Lt
  | _, SNull => Gt
  | SNum x, SNum y => Qcompare x y
  | SNum _, SText _ => Lt
  | SText _, SNum _ => Gt
  | SText x, SText y => String.compare x y
  end.

(** Three-valued comparison operators: [None] is SQL's NULL. *)
Definition eq (a b : sqlval) : option bool :=
  match a, b with
  | SNull, _ | _, SNull => None
  | _, _ => Some (match order a b with Eq => true | _ => false end)
  end.

Definition gt (a b : sqlval) : option bool :=
  match a, b with
  | SNull, _ | _, SNull => None
  | _, _ => Some (match order a b with Gt => true | _ => false end)
  end.

Definition or3 (a b : option bool) : option bool :=
  match a, b with
  | Some true, _ | _, Some true => Some true
  | Some false, Some false => Some false
  | _, _ => None
  end.

(** A WHERE clause keeps the rows on which it is true. *)
Definition holds (c : option bool) : bool :=
  match c with Some true => true | _ => false end.

(** [column = ?]: the column's affinity is applied to the bound value. *)
Definition column_eq (a : affinity) (col param : sqlval) : option bool :=
  eq col (apply_affinity a param).

(** [CASE WHEN c THEN x ELSE y END] *)
Definition case_when (c : option bool) (x y : sqlval) : sqlval :=
  if holds c then x else y.

Definition of_Z (z : Z) : sqlval := SNum (inject_Z z).

(** [COUNT( * )] *)
Definition count_star {A : Type} (rows : list A) : sqlval :=
  of_Z (Z.of_nat (List.length rows)).

Definition as_number (v : sqlval) : option Q :=
  match v with
  | SNull => None
  | SNum q => Some q
  | SText s => Some (numeric_prefix s)
  end.

Fixpoint numbers (vs : list sqlval) : list Q :=
  match vs with
  | [] => []
  | v :: vs' =>
      match as_number v with
      | Some q => q :: numbers vs'
      | None => numbers vs'
      end
  end.

(** The INTEGER a value is, if it is of that class. In the columns of
    numeric affinity that the sums read, a number is an INTEGER when it is
    an integer of the 64-bit range, and a text is not a numeric literal (it
    would have been converted when stored). *)
Definition as_integer (v : sqlval) : option Z :=
  match v with
  | SNum q => integer_within int64_min int64_max q
  | _ => None
  end.

(** NULL or an INTEGER. *)
Definition whole (v : sqlval) : bool :=
  match v with
  | SNull => true
  | _ => match as_integer v with Some _ => true | None => false end
  end.

(** Whether SUM ends in an integer overflow: the running total of the
    INTEGER inputs leaves the 64-bit range before any REAL or TEXT input is
    met, and none is met afterwards (such an input makes the sum a REAL
    one; SQLite 3.43 and later). *)
Fixpoint sum_overflows (vs : list sqlval) (acc : Z) : bool :=
  match vs with
  | [] => false
  | SNull :: vs' => sum_overflows vs' acc
  | v :: vs' =>
      match as_integer v with
      | Some z =>
          if (int64_min <=? acc + z) && (acc + z <=? int64_max)
          then sum_overflows vs' (acc + z)
          else forallb whole vs'
      | None => false
      end
  end.

(** [SUM(x)]: the sum of the non-NULL inputs, NULL when there is none, and
    an error when the integer total overflows. *)
Definition sum (vs : list sqlval) : outcome sqlval :=
  if sum_overflows vs 0 then Err "integer overflow"
  else
    match numbers vs with
    | [] => Done SNull
    | q :: qs => Done (SNum (Qred (fold_left Qplus qs q)))
    end.

(* ------------------------------------------------------------------ *)
(** *** LIKE *)

Definition lower (c : ascii) : ascii :=
  let n := code c in
  if (65 <=? n) && (n <=? 90) then chr (n + 32) else c.

(** [%] matches any run of bytes, [_] one byte, letters regardless of
    ASCII case. *)
Fixpoint like_match (p t : list ascii) : bool :=
  match p with
  | [] => match t with [] => true | _ => false end
  | c :: p' =>
      if code c =? 37 then
        (fix star (t : list ascii) : bool :=
           like_match p' t ||
           match t with [] => false | _ :: t' => star t' end) t
      else
        match t with
        | [] => false
        | d :: t' =>
            ((code c =? 95) || Ascii.eqb (lower c) (lower d)) && like_match p' t'
        end
  end.

Definition as_text (v : sqlval) : option string :=
  match v with
  | SNull => None
  | SNum q => Some (number_to_string q)
  | SText s => Some s
  end.

(** [x LIKE pattern] *)
Definition like (x pattern : sqlval) : option bool :=
  match as_text x, as_text pattern with
  | Some t, Some p =>
      Some (like_match (list_ascii_of_string p) (list_ascii_of_string t))
  | _, _ => None
  end.

(* ------------------------------------------------------------------ *)
(** *** ORDER BY, LIMIT and OFFSET, GROUP BY *)

(** Insertion sort by a comparison on rows; rows that compare equal keep
    their table order. *)
Fixpoint insert_by {A : Type} (cmp : A -> A -> comparison) (x : A) (l : list A)
  : list A :=
  match l with
  | [] => [x]
  | y :: l' =>
      match cmp x y with
      | Gt => y :: insert_by cmp x l'
      | _ => x :: l
      end
  end.

Definition sort_by {A : Type} (cmp : A -> A -> comparison) (l : list A) : list A :=
  fold_right (insert_by cmp) [] l.

(** Lexicographic combination of sort keys. *)
Definition then_by (c1 c2 : comparison) : comparison :=
  match c1 with Eq => c2 | _ => c1 end.

(** [expr DESC] *)
Definition desc (a b : sqlval) : comparison := order b a.

(** [LIMIT ? OFFSET ?] with bound values: both must be integers, and a
    number bound as REAL counts as one only strictly inside the 64-bit
    range (anything else is a datatype mismatch); a negative limit means
    no limit, a negative offset counts as 0. *)
Definition limit_offset {A : Type} (lim off : sqlval) (rows : list A)
  : outcome (list A) :=
  match apply_affinity NUMERIC lim, apply_affinity NUMERIC off with
  | SNum l, SNum o =>
      match integer_within (int64_min + 1) (int64_max - 1) l,
            integer_within (int64_min + 1) (int64_max - 1) o with
      | Some l, Some o =>
          let rest := skipn (Z.to_nat o) rows in
          Done (if l <? 0 then rest else firstn (Z.to_nat l) rest)
      | _, _ => Err "SQLITE_MISMATCH: datatype mismatch"
      end
  | _, _ => Err "SQLITE_MISMATCH: datatype mismatch"
  end.

(** [SELECT key, COUNT( * ) ... GROUP BY key]: one pair per distinct key, in
    key order. *)
Fixpoint tally (k : sqlval) (groups : list (sqlval * Z)) : list (sqlval * Z) :=
  match groups with
  | [] => [(k, 1)]
  | (k', n) :: g' =>
      match order k k' with
      | Eq => (k', n + 1) :: g'
      | Lt => (k, 1) :: groups
      | Gt => (k', n) :: tally k g'
      end
  end.

Definition group_count (keys : list sqlval) : list (sqlval * Z) :=
  fold_left (fun g k => tally k g) keys [].

End SQLite.

(* ================================================================== *)
(** ** Tables (the CREATE TABLE statements of server.js) *)
(* ================================================================== *)

Import JS SQLite.

(** A column declaration: name, affinity of the declared type, NOT NULL. *)
Record column : Type := Column {
  col_name : string;
  col_affinity : affinity;
  col_not_null : bool
}.

Definition find_column (cols : list column) (name : string) : option column :=
  find (fun c => String.eqb (col_name c) name) cols.

Definition has_column (cols : list column) (name : string) : bool :=
  match find_column cols name with Some _ => true | None => false end.

Module Creator.

Record t : Type := mk {
  id : Z;
  display_name : sqlval;
  description : sqlval;
  avatar_url : sqlval;
  status : sqlval;
  is_featured : sqlval;
  is_paid_member : sqlval;
  featured_priority : sqlval;
  platforms : sqlval;
  viewers : sqlval;
  last_live_start : sqlval;
  last_seen : sqlval;
  created_at : sqlval;
  updated_at : sqlval
}.

Definition columns : list column :=
  [ Column "id" INTEGER false;
    Column "display_name" TEXT true;
    Column "description" TEXT false;
    Column "avatar_url" TEXT false;
    Column "status" TEXT false;
    Column "is_featured" NUMERIC false;
    Column "is_paid_member" NUMERIC false;
    Column "featured_priority" INTEGER false;
    Column "platforms" TEXT false;
    Column "viewers" INTEGER false;
    Column "last_live_start" NUMERIC false;
    Column "last_seen" NUMERIC false;
    Column "created_at" NUMERIC false;
    Column "updated_at" NUMERIC false ].

(** The row object the driver builds for [SELECT *]. *)
Definition to_js (r : t) : jsval :=
  JObj [ ("id", JNum (inject_Z (id r)));
         ("display_name", SQLite.to_js (display_name r));
         ("description", SQLite.to_js (description r));
         ("avatar_url", SQLite.to_js (avatar_url r));
         ("status", SQLite.to_js (status r));
         ("is_featured", SQLite.to_js (is_featured r));
         ("is_paid_member", SQLite.to_js (is_paid_member r));
         ("featured_priority", SQLite.to_js (featured_priority r));
         ("platforms", SQLite.to_js (platforms r));
         ("viewers", SQLite.to_js (viewers r));
         ("last_live_start", SQLite.to_js (last_live_start r));
         ("last_seen", SQLite.to_js (last_seen r));
         ("created_at", SQLite.to_js (created_at r));
         ("updated_at", SQLite.to_js (updated_at r)) ].

(** Writing one column of a row. The rowid column only takes integers. *)
Definition set (name : string) (v : sqlval) (r : t) : outcome t :=
  let '(mk i dn de av st fe pm fp pl vi ll ls ca ua) := r in
  if String.eqb name "id" then
    match v with
    | SNum q =>
        if Zpos (Qden (Qred q)) =? 1
        then Done (mk (Qnum (Qred q)) dn de av st fe pm fp pl vi ll ls ca ua)
        else Err "SQLITE_MISMATCH: datatype mismatch"
    | _ => Err "SQLITE_MISMATCH: datatype mismatch"
    end
  else if String.eqb name "display_name" then Done (mk i v de av st fe pm fp pl vi ll ls ca ua)
  else if String.eqb name "description" then Done (mk i dn v av st fe pm fp pl vi ll ls ca ua)
  else if String.eqb name "avatar_url" then Done (mk i dn de v st fe pm fp pl vi ll ls ca ua)
  else if String.eqb name "status" then Done (mk i dn de av v fe pm fp pl vi ll ls ca ua)
  else if String.eqb name "is_featured" then Done (mk i dn de av st v pm fp pl vi ll ls ca ua)
  else if String.eqb name "is_paid_member" then Done (mk i dn de av st fe v fp pl vi ll ls ca ua)
  else if String.eqb name "featured_priority" then Done (mk i dn de av st fe pm v pl vi ll ls ca ua)
  else if String.eqb name "platforms" then Done (mk i dn de av st fe pm fp v vi ll ls ca ua)
  else if String.eqb name "viewers" then Done (mk i dn de av st fe pm fp pl v ll ls ca ua)
  else if String.eqb name "last_live_start" then Done (mk i dn de av st fe pm fp pl vi v ls ca ua)
  else if String.eqb name "last_seen" then Done (mk i dn de av st fe pm fp pl vi ll v ca ua)
  else if String.eqb name "created_at" then Done (mk i dn de av st fe pm fp pl vi ll ls v ua)
  else if String.eqb name "updated_at" then Done (mk i dn de av st fe pm fp pl vi ll ls ca v)
  else Err ("SQLITE_ERROR: no such column: " ++ name)%string.

(** Reading one column of a row by name. *)
Definition get (name : string) (r : t) : option sqlval :=
  if String.eqb name "id" then Some (of_Z (id r))
  else if String.eqb name "display_name" then Some (display_name r)
  else if String.eqb name "description" then Some (description r)
  else if String.eqb name "avatar_url" then Some (avatar_url r)
  else if String.eqb name "status" then Some (status r)
  else if String.eqb name "is_featured" then Some (is_featured r)
  else if String.eqb name "is_paid_member" then Some (is_paid_member r)
  else if String.eqb name "featured_priority" then Some (featured_priority r)
  else if String.eqb name "platforms" then Some (platforms r)
  else if String.eqb name "viewers" then Some (viewers r)
  else if String.eqb name "last_live_start" then Some (last_live_start r)
  else if String.eqb name "last_seen" then Some (last_seen r)
  else if String.eqb name "created_at" then Some (created_at r)
  else if String.eqb name "updated_at" then Some (updated_at r)
  else None.

End Creator.

Module Subscription.

Record t : Type := mk {
  id : Z;
  creator_id : sqlval;
  stripe_subscription_id : sqlval;
  stripe_customer_id : sqlval;
  status : sqlval;
  plan_type : sqlval;
  amount : sqlval;
  currency : sqlval;
  current_period_start : sqlval;
  current_period_end : sqlval;
  created_at : sqlval
}.

Definition columns : list column :=
  [ Column "id" INTEGER false;
    Column "creator_id" INTEGER false;
    Column "stripe_subscription_id" TEXT false;
    Column "stripe_customer_id" TEXT false;
    Column "status" TEXT false;
    Column "plan_type" TEXT false;
    Column "amount" INTEGER false;
    Column "currency" TEXT false;
    Column "current_period_start" NUMERIC false;
    Column "current_period_end" NUMERIC false;
    Column "created_at" NUMERIC false ].

Definition to_fields (r : t) : list (string * jsval) :=
  [ ("id", JNum (inject_Z (id r)));
    ("creator_id", SQLite.to_js (creator_id r));
    ("stripe_subscription_id", SQLite.to_js (stripe_subscription_id r));
    ("stripe_customer_id", SQLite.to_js (stripe_customer_id r));
    ("status", SQLite.to_js (status r));
    ("plan_type", SQLite.to_js (plan_type r));
    ("amount", SQLite.to_js (amount r));
    ("currency", SQLite.to_js (currency r));
    ("current_period_start", SQLite.to_js (current_period_start r));
    ("current_period_end", SQLite.to_js (current_period_end r));
    ("created_at", SQLite.to_js (created_at r)) ].

End Subscription.

Module Analytics.

Record t : Type := mk {
  id : Z;
  event_type : sqlval;
  event_data : sqlval;
  creator_id : sqlval;
  timestamp : sqlval
}.

Definition columns : list column :=
  [ Column "id" INTEGER false;
    Column "event_type" TEXT true;
    Column "event_data" TEXT false;
    Column "creator_id" INTEGER false;
    Column "timestamp" NUMERIC false ].

End Analytics.

(** The database file: the three tables the modelled routes touch, and the
    AUTOINCREMENT counter of [analytics] (its row in sqlite_sequence). *)
Record database : Type := Database {
  creators : list Creator.t;
  subscriptions : list Subscription.t;
  analytics : list Analytics.t;
  analytics_seq : Z
}.

Definition empty_db : database := Database [] [] [] 0.

(** What a request cannot control: the clock, as SQLite's
    [CURRENT_TIMESTAMP] and [datetime('now', '-7 days')] print it, and
    whether the n-th statement the handler issues runs without an I/O
    failure. *)
Record env : Type := Env {
  now : string;
  week_ago : string;
  io_ok : nat -> bool
}.

Definition io_error {A : Type} : outcome A := Err "SQLITE_IOERR: disk I/O error".

(* ================================================================== *)
(** ** Statements *)
(* ================================================================== *)

(** Right-hand side of an assignment in a SET list: a [?] or the keyword
    [CURRENT_TIMESTAMP]. *)
Inductive rhs : Type := Param | CURRENT_TIMESTAMP.

(** An entry ['column = ?'] or ['column = CURRENT_TIMESTAMP'] of
    [updateFields]. *)
Definition assignment : Type := (string * rhs)%type.

(** Positional binding: each [?] takes the next parameter; a [?] with no
    parameter left stays NULL. Returns the bound assignments and the
    parameters not yet used. *)
Fixpoint bind_assignments (e : env) (sets : list assignment) (params : list sqlval)
  : list (string * sqlval) * list sqlval :=
  match sets with
  | [] => ([], params)
  | (c, CURRENT_TIMESTAMP) :: sets' =>
      let '(bound, rest) := bind_assignments e sets' params in
      ((c, SText (now e)) :: bound, rest)
  | (c, Param) :: sets' =>
      match params with
      | p :: params' =>
          let '(bound, rest) := bind_assignments e sets' params' in
          ((c, p) :: bound, rest)
      | [] =>
          let '(bound, rest) := bind_assignments e sets' [] in
          ((c, SNull) :: bound, rest)
      end
  end.

(** Applies bound assignments to one row of [creators]: the column's
    affinity converts the value, and a NOT NULL column refuses NULL. *)
Fixpoint apply_sets (sets : list (string * sqlval)) (r : Creator.t)
  : outcome Creator.t :=
  match sets with
  | [] => Done r
  | (c, v) :: sets' =>
      match find_column Creator.columns c with
      | None => Err ("SQLITE_ERROR: no such column: " ++ c)%string
      | Some col =>
          let v' := apply_affinity (col_affinity col) v in
          match col_not_null col, v' with
          | true, SNull =>
              Err ("SQLITE_CONSTRAINT: NOT NULL constraint failed: creators." ++ c)%string
          | _, _ =>
              match Creator.set c v' r with
              | Done r' => apply_sets sets' r'
              | Err m => Err m
              end
          end
      end
  end.

(** [WHERE id = ?] on a row of [creators]. *)
Definition id_matches (idp : sqlval) (r : Creator.t) : bool :=
  holds (column_eq INTEGER (of_Z (Creator.id r)) idp).

(** The rows after the update and the number of rows changed; the first
    failing row aborts the statement. *)
Fixpoint update_rows (sets : list (string * sqlval)) (idp : sqlval)
  (rows : list Creator.t) : outcome (list Creator.t * Z) :=
  match rows with
  | [] => Done ([], 0)
  | r :: rows' =>
      if id_matches idp r then
        match apply_sets sets r with
        | Err m => Err m
        | Done r' =>
            match update_rows sets idp rows' with
            | Err m => Err m
            | Done (rs, n) => Done (r' :: rs, n + 1)
            end
        end
      else
        match update_rows sets idp rows' with
        | Err m => Err m
        | Done (rs, n) => Done (r :: rs, n)
        end
  end.

(** [db.run('UPDATE creators SET <sets> WHERE id = ?', params, cb)] as the
    [k]-th statement of a request. The callback sees [Err] as [err], and
    [this.changes] otherwise. *)
Definition run_update (e : env) (k : nat) (sets : list assignment)
  (params : list jsval) (rows : list Creator.t) : outcome (list Creator.t * Z) :=
  if negb (forallb (fun a => has_column Creator.columns (fst a)) sets) then
    Err "SQLITE_ERROR: no such column"
  else
    match bind_assignments e sets (map bind params) with
    | (bound, []) => if io_ok e k then update_rows bound SNull rows else io_error
    | (bound, [idp]) => if io_ok e k then update_rows bound idp rows else io_error
    | (_, _ :: _ :: _) => Err "SQLITE_RANGE: column index out of range"
    end.

(** [INSERT INTO analytics (event_type, event_data, creator_id)
     VALUES ('status_change', ?, ?)]. The id is the next AUTOINCREMENT
    value and [timestamp] takes its default, CURRENT_TIMESTAMP. *)
Definition insert_status_change (e : env) (k : nat) (params : list jsval)
  (db : database) : outcome database :=
  if negb (io_ok e k) then io_error
  else
    let p i := bind (nth i params JUndefined) in
    let top := fold_left Z.max (map Analytics.id (analytics db)) (analytics_seq db) in
    let row := Analytics.mk (top + 1)
                 (apply_affinity TEXT (SText "status_change"))
                 (apply_affinity TEXT (p 0%nat))
                 (apply_affinity INTEGER (p 1%nat))
                 (apply_affinity NUMERIC (SText (now e))) in
    Done (Database (creators db) (subscriptions db)
                   (analytics db ++ [row]) (top + 1)).

(* ================================================================== *)
(** ** Requests and replies *)
(* ================================================================== *)

Record request : Type := Request {
  authorization : option string;      (* req.headers['authorization'] *)
  params_id : string;                 (* req.params.id *)
  query : list (string * string);     (* req.query *)
  body : jsval;                       (* req.body *)
  file : option string                (* req.file.filename *)
}.

(** What the client gets: [res.status(s).json(body)] with the headers set
    before it, or an exception that left the handler. *)
Inductive reply : Type :=
| Json (status : Z) (headers : list (string * string)) (body : jsval)
| Throws (error : string).

(** [{ error: msg }] *)
Definition error_body (msg : string) : jsval := JObj [("error", JStr msg)].

(** [{ message: msg }] *)
Definition message_body (msg : string) : jsval := JObj [("message", JStr msg)].

Definition database_error : reply := Json 500 [] (error_body "Database error").

(** A query-string parameter: a string, or [undefined]. *)
Definition query_param (k : string) (req : request) : jsval :=
  match assoc k (query req) with Some s => JStr s | None => JUndefined end.

Definition with_creators (db : database) (rows : list Creator.t) : database :=
  Database rows (subscriptions db) (analytics db) (analytics_seq db).

(* ================================================================== *)
(** ** Creator routes *)
(* ================================================================== *)

(** Conditional [updateFields.push(a); params.push(p)]. *)
Definition push_if (c : bool) (a : assignment) (p : jsval)
  (acc : list assignment * list jsval) : list assignment * list jsval :=
  if c then (fst acc ++ [a], snd acc ++ [p]) else acc.

(** [obj.platforms = v] on a row object. *)
Definition set_platforms (creator v : jsval) : jsval :=
  match creator with
  | JObj fs => JObj (set_field "platforms" v fs)
  | _ => creator
  end.

(** [creator.platforms = JSON.parse(creator.platforms)] inside
    [try { } catch (e) { creator.platforms = [] }]. *)
Definition try_parse_platforms (creator : jsval) : jsval :=
  match JSON_parse (to_string (field "platforms" creator)) with
  | Some v => set_platforms creator v
  | None => set_platforms creator (JArr [])
  end.

(** The forEach body of GET /api/creators: parse, and [[]] for a falsy
    column as well. *)
Definition parse_platforms_or_empty (creator : jsval) : jsval :=
  if truthy (field "platforms" creator) then try_parse_platforms creator
  else set_platforms creator (JArr []).

(** The body used by GET /api/creators/:id and by the export: parse only
    when the column is truthy. *)
Definition parse_platforms_if_present (creator : jsval) : jsval :=
  if truthy (field "platforms" creator) then try_parse_platforms creator
  else creator.

(** The optional pieces appended to [SELECT * FROM creators WHERE 1=1]. *)
Inductive clause : Type :=
| StatusEq        (* ' AND status = ?' *)
| FeaturedEq      (* ' AND is_featured = ?' *)
| SearchLike.     (* ' AND (display_name LIKE ? OR description LIKE ?)' *)

Definition placeholders (c : clause) : nat :=
  match c with StatusEq | FeaturedEq => 1%nat | SearchLike => 2%nat end.

Fixpoint where_holds (cs : list clause) (ps : list sqlval) (r : Creator.t) : bool :=
  match cs with
  | [] => true
  | c :: cs' =>
      let p i := nth i ps SNull in
      (match c with
       | StatusEq => holds (column_eq TEXT (Creator.status r) (p 0%nat))
       | FeaturedEq => holds (column_eq NUMERIC (Creator.is_featured r) (p 0%nat))
       | SearchLike =>
           holds (or3 (like (Creator.display_name r) (p 0%nat))
                      (like (Creator.description r) (p 1%nat)))
       end) && where_holds cs' (skipn (placeholders c) ps) r
  end.

(** [ORDER BY is_featured DESC, featured_priority DESC, last_seen DESC] *)
Definition list_order (a b : Creator.t) : comparison :=
  then_by (desc (Creator.is_featured a) (Creator.is_featured b))
    (then_by (desc (Creator.featured_priority a) (Creator.featured_priority b))
       (desc (Creator.last_seen a) (Creator.last_seen b))).

(** [ORDER BY is_featured DESC, display_name ASC] *)
Definition export_order (a b : Creator.t) : comparison :=
  then_by (desc (Creator.is_featured a) (Creator.is_featured b))
    (order (Creator.display_name a) (Creator.display_name b)).

(** [db.all(query, params, cb)] for the query GET /api/creators builds:
    the WHERE pieces take their parameters in order, the last two
    parameters are LIMIT and OFFSET. *)
Definition select_creators (e : env) (k : nat) (cs : list clause)
  (params : list jsval) (rows : list Creator.t) : outcome (list Creator.t) :=
  if negb (io_ok e k) then io_error
  else
    let ps := map bind params in
    let tail := skipn (fold_right (fun c n => (placeholders c + n)%nat) 0%nat cs) ps in
    limit_offset (nth 0 tail SNull) (nth 1 tail SNull)
      (sort_by list_order (filter (where_holds cs ps) rows)).

(** GET /api/creators (lines 193-237). *)
Definition list_creators (e : env) (req : request) (db : database) : reply :=
  let status := query_param "status" req in
  let featured := query_param "featured" req in
  let search := query_param "search" req in
  let limit := match query_param "limit" req with JUndefined => JNum 50 | v => v end in
  let offset := match query_param "offset" req with JUndefined => JNum 0 | v => v end in
  let query : list clause := [] in
  let params : list jsval := [] in
  let '(query, params) :=
    if truthy status then (query ++ [StatusEq], params ++ [status])
    else (query, params) in
  let '(query, params) :=
    if negb (is_undefined featured)
    then (query ++ [FeaturedEq],
          params ++ [JNum (if str_is featured "true" then 1 else 0)%Q])
    else (query, params) in
  let '(query, params) :=
    if truthy search
    then (query ++ [SearchLike],
          params ++ [JStr ("%" ++ to_string search ++ "%")%string;
                     JStr ("%" ++ to_string search ++ "%")%string])
    else (query, params) in
  let params := params ++ [js_parseInt limit; js_parseInt offset] in
  match select_creators e 0 query params (creators db) with
  | Err _ => database_error
  | Done rows =>
      Json 200 [] (JArr (map (fun r => parse_platforms_or_empty (Creator.to_js r)) rows))
  end.

(** [db.get('SELECT * FROM creators WHERE id = ?', [id], cb)]: the first
    matching row, or [undefined]. *)
Definition select_creator_by_id (e : env) (k : nat) (idp : jsval)
  (rows : list Creator.t) : outcome (option Creator.t) :=
  if negb (io_ok e k) then io_error
  else Done (find (id_matches (bind idp)) rows).

(** GET /api/creators/:id (lines 240-260). *)
Definition get_creator (e : env) (req : request) (db : database) : reply :=
  match select_creator_by_id e 0 (JStr (params_id req)) (creators db) with
  | Err _ => database_error
  | Done None => Json 404 [] (error_body "Creator not found")
  | Done (Some row) => Json 200 [] (parse_platforms_if_present (Creator.to_js row))
  end.

(** GET /api/export/creators (lines 553-574). *)
Definition export_creators (e : env) (req : request) (db : database) : reply :=
  if negb (io_ok e 0) then database_error
  else
    let rows := sort_by export_order (creators db) in
    Json 200
      [("Content-Type", "application/json");
       ("Content-Disposition", "attachment; filename=psycheverse-creators.json")]
      (JArr (map (fun r => parse_platforms_if_present (Creator.to_js r)) rows)).

(** PUT /api/creators/:id, lines 292-354: the SET list and the parameters
    accumulated from the fields present in the request. *)
Definition update_statement (req : request) : list assignment * list jsval :=
  let display_name := field "display_name" (body req) in
  let description := field "description" (body req) in
  let platforms := field "platforms" (body req) in
  let status := field "status" (body req) in
  let is_featured := field "is_featured" (body req) in
  let is_paid_member := field "is_paid_member" (body req) in
  let featured_priority := field "featured_priority" (body req) in
  let viewers := field "viewers" (body req) in
  let acc : list assignment * list jsval := ([], []) in
  let acc := push_if (negb (is_undefined display_name))
               ("display_name", Param) display_name acc in
  let acc := push_if (negb (is_undefined description))
               ("description", Param) description acc in
  let acc := push_if (match file req with Some _ => true | None => false end)
               ("avatar_url", Param)
               (JStr ("/uploads/" ++ match file req with Some f => f | None => "" end)%string)
               acc in
  let acc := push_if (negb (is_undefined platforms)) ("platforms", Param)
               (if is_string platforms then platforms else JSON_stringify platforms)
               acc in
  let acc := push_if (negb (is_undefined status)) ("status", Param) status acc in
  let acc := push_if (negb (is_undefined is_featured))
               ("is_featured", Param) is_featured acc in
  let acc := push_if (negb (is_undefined is_paid_member))
               ("is_paid_member", Param) is_paid_member acc in
  let acc := push_if (negb (is_undefined featured_priority))
               ("featured_priority", Param) featured_priority acc in
  let acc := push_if (negb (is_undefined viewers)) ("viewers", Param) viewers acc in
  (fst acc ++ [("updated_at", CURRENT_TIMESTAMP)], snd acc ++ [JStr (params_id req)]).

(** PUT /api/creators/:id (lines 291-367). *)
Definition update_creator (e : env) (req : request) (db : database)
  : reply * database :=
  let '(updateFields, params) := update_statement req in
  match run_update e 0 updateFields params (creators db) with
  | Err _ => (database_error, db)
  | Done (rows, changes) =>
      if changes =? 0
      then (Json 404 [] (error_body "Creator not found"), with_creators db rows)
      else (Json 200 [] (message_body "Creator updated successfully"),
            with_creators db rows)
  end.

(** POST /api/creators/:id/status, lines 388-409: the SET list and the
    parameters. *)
Definition status_statement (req : request) : list assignment * list jsval :=
  let status := field "status" (body req) in
  let viewers := field "viewers" (body req) in
  let live_start := field "live_start" (body req) in
  let acc : list assignment * list jsval :=
    ([("status", Param); ("updated_at", CURRENT_TIMESTAMP)], [status]) in
  let acc := push_if (negb (is_undefined viewers)) ("viewers", Param) viewers acc in
  let acc := push_if (truthy (js_and (JBool (str_is status "live")) live_start))
               ("last_live_start", Param) live_start acc in
  let updateFields :=
    if negb (str_is status "offline")
    then fst acc ++ [("last_seen", CURRENT_TIMESTAMP)] else fst acc in
  (updateFields, snd acc ++ [JStr (params_id req)]).

(** POST /api/creators/:id/status (lines 387-423). The INSERT is issued
    without a callback: whatever it does, the reply is the same. *)
Definition creator_status (e : env) (req : request) (db : database)
  : reply * database :=
  let status := field "status" (body req) in
  let viewers := field "viewers" (body req) in
  let '(updateFields, params) := status_statement req in
  match run_update e 0 updateFields params (creators db) with
  | Err _ => (database_error, db)
  | Done (rows, _) =>
      let db1 := with_creators db rows in
      let event_data := JSON_stringify (JObj [("status", status); ("viewers", viewers)]) in
      let db2 := match insert_status_change e 1
                         [event_data; JStr (params_id req)] db1 with
                 | Done db' => db'
                 | Err _ => db1
                 end in
      (Json 200 [] (message_body "Status updated successfully"), db2)
  end.

(** The prepared statement of the bulk route. *)
Definition bulk_statement : list assignment :=
  [("status", Param); ("viewers", Param);
   ("last_seen", CURRENT_TIMESTAMP); ("updated_at", CURRENT_TIMESTAMP)].

(** One [stmt.run([update.status, update.viewers || 0, update.id])], the
    [k]-th of the batch. A run that fails has no callback to report to and
    changes nothing. [None]: reading a property of the item threw. *)
Definition bulk_item (e : env) (k : nat) (update : jsval) (rows : list Creator.t)
  : option (list Creator.t) :=
  match get_prop "status" update, get_prop "viewers" update, get_prop "id" update with
  | Some status, Some viewers, Some id =>
      match run_update e k bulk_statement
              [status; js_or viewers (JNum 0); id] rows with
      | Done (rows', _) => Some rows'
      | Err _ => Some rows
      end
  | _, _, _ => None
  end.

(** [updates.forEach(...)]: the rows once every queued run has executed,
    and whether the loop threw (the runs queued before it still execute). *)
Fixpoint bulk_each (e : env) (k : nat) (updates : list jsval) (rows : list Creator.t)
  : bool * list Creator.t :=
  match updates with
  | [] => (false, rows)
  | u :: updates' =>
      match bulk_item e k u rows with
      | Some rows' => bulk_each e (S k) updates' rows'
      | None => (true, rows)
      end
  end.

(** POST /api/creators/bulk-status (lines 426-444). *)
Definition bulk_status (e : env) (req : request) (db : database)
  : reply * database :=
  let updates := field "updates" (body req) in
  match updates with
  | JArr items =>
      match bulk_each e 0 items (creators db) with
      | (true, rows) =>
          (Throws "TypeError: Cannot read properties of null", with_creators db rows)
      | (false, rows) =>
          (Json 200 []
             (message_body ("Updated " ++ Z_to_string (Z.of_nat (List.length items))
                            ++ " creators")%string),
           with_creators db rows)
      end
  | _ => (Json 400 [] (error_body "Updates must be an array"), db)
  end.

(* ================================================================== *)
(** ** Subscriptions *)
(* ================================================================== *)

(** An entry of a SELECT list: [alias.*] or [alias.column]. *)
Inductive select_item : Type :=
| Star (alias : string)
| Col (alias : string) (name : string).

(** [SELECT s.*, c.display_name, c.email] *)
Definition subscriptions_select : list select_item :=
  [Star "s"; Col "c" "display_name"; Col "c" "email"].

(** [FROM subscriptions s LEFT JOIN creators c] *)
Definition subscriptions_from : list (string * list column) :=
  [("s", Subscription.columns); ("c", Creator.columns)].

(** Name resolution, done when the statement is prepared. *)
Definition resolve (from : list (string * list column)) (item : select_item)
  : outcome unit :=
  match item with
  | Star a =>
      match assoc a from with
      | Some _ => Done tt
      | None => Err ("SQLITE_ERROR: no such table: " ++ a)%string
      end
  | Col a n =>
      match assoc a from with
      | Some cols =>
          if has_column cols n then Done tt
          else Err ("SQLITE_ERROR: no such column: " ++ a ++ "." ++ n)%string
      | None => Err ("SQLITE_ERROR: no such column: " ++ a ++ "." ++ n)%string
      end
  end.

Fixpoint prepare (from : list (string * list column)) (items : list select_item)
  : outcome unit :=
  match items with
  | [] => Done tt
  | i :: items' =>
      match resolve from i with
      | Done _ => prepare from items'
      | Err m => Err m
      end
  end.

(** [ORDER BY s.created_at DESC] *)
Definition subscriptions_order (a b : Subscription.t) : comparison :=
  desc (Subscription.created_at a) (Subscription.created_at b).

(** [ON s.creator_id = c.id] *)
Definition joins (s : Subscription.t) (c : Creator.t) : bool :=
  holds (SQLite.eq (Subscription.creator_id s) (of_Z (Creator.id c))).

(** The [c.] columns of a joined row; NULL when no creator matched. *)
Definition joined_column (c : option Creator.t) (name : string) : outcome jsval :=
  match c with
  | None => Done JNull
  | Some r =>
      match Creator.get name r with
      | Some v => Done (SQLite.to_js v)
      | None => Err ("SQLITE_ERROR: no such column: c." ++ name)%string
      end
  end.

Definition joined_row (s : Subscription.t) (c : option Creator.t) : outcome jsval :=
  match joined_column c "display_name", joined_column c "email" with
  | Done dn, Done em =>
      Done (JObj (set_field "email" em
                    (set_field "display_name" dn (Subscription.to_fields s))))
  | Err m, _ | _, Err m => Err m
  end.

Fixpoint all_done {A : Type} (l : list (outcome A)) : outcome (list A) :=
  match l with
  | [] => Done []
  | Done a :: l' =>
      match all_done l' with Done r => Done (a :: r) | Err m => Err m end
  | Err m :: _ => Err m
  end.

(** [db.all(query, [], cb)] for the subscriptions query (lines 450-457). *)
Definition select_subscriptions (e : env) (k : nat) (db : database)
  : outcome (list jsval) :=
  match prepare subscriptions_from subscriptions_select with
  | Err m => Err m
  | Done _ =>
      if negb (io_ok e k) then io_error
      else
        all_done
          (flat_map
             (fun s =>
                match filter (joins s) (creators db) with
                | [] => [joined_row s None]
                | cs => map (fun c => joined_row s (Some c)) cs
                end)
             (sort_by subscriptions_order (subscriptions db)))
  end.

(** GET /api/subscriptions (lines 449-463). *)
Definition list_subscriptions (e : env) (req : request) (db : database) : reply :=
  match select_subscriptions e 0 db with
  | Err _ => database_error
  | Done rows => Json 200 [] (JArr rows)
  end.

(* ================================================================== *)
(** ** Analytics dashboard *)
(* ================================================================== *)

Definition one_if (c : option bool) : sqlval := case_when c (of_Z 1) (of_Z 0).

(** The creator counts query (lines 472-478). A sum that overflows fails
    the query. *)
Definition creator_stats (rows : list Creator.t) : outcome jsval :=
  match sum (map (fun r => one_if (SQLite.eq (Creator.status r) (SText "live"))) rows),
        sum (map (fun r => one_if (SQLite.eq (Creator.is_featured r) (of_Z 1))) rows),
        sum (map (fun r => one_if (SQLite.eq (Creator.is_paid_member r) (of_Z 1))) rows),
        sum (map Creator.viewers rows) with
  | Done live_creators, Done featured_creators, Done paid_members, Done total_viewers =>
      Done (JObj
              [ ("total_creators", SQLite.to_js (count_star rows));
                ("live_creators", SQLite.to_js live_creators);
                ("featured_creators", SQLite.to_js featured_creators);
                ("paid_members", SQLite.to_js paid_members);
                ("total_viewers", SQLite.to_js total_viewers) ])
  | _, _, _, _ => Err "integer overflow"
  end.

(** The subscription counts query (lines 487-491). *)
Definition subscription_stats (rows : list Subscription.t) : outcome jsval :=
  let active r := SQLite.eq (Subscription.status r) (SText "active") in
  match sum (map (fun r => one_if (active r)) rows),
        sum (map (fun r => case_when (active r) (Subscription.amount r) (of_Z 0)) rows) with
  | Done active_subscriptions, Done monthly_revenue =>
      Done (JObj
              [ ("total_subscriptions", SQLite.to_js (count_star rows));
                ("active_subscriptions", SQLite.to_js active_subscriptions);
                ("monthly_revenue", SQLite.to_js monthly_revenue) ])
  | _, _ => Err "integer overflow"
  end.

(** The recent activity query (lines 500-503): events of the last seven
    days, counted per event type. *)
Definition recent_activity (e : env) (rows : list Analytics.t) : jsval :=
  let recent r :=
    holds (gt (Analytics.timestamp r) (apply_affinity NUMERIC (SText (week_ago e)))) in
  JArr (map (fun g => JObj [("event_type", SQLite.to_js (fst g));
                            ("count", JNum (inject_Z (snd g)))])
            (group_count (map Analytics.event_type (filter recent rows)))).

(** GET /api/analytics/dashboard (lines 468-514): three queries, each
    issued from the callback of the one before. *)
Definition dashboard (e : env) (req : request) (db : database) : reply :=
  if negb (io_ok e 0) then database_error
  else
    match creator_stats (creators db) with
    | Err _ => database_error
    | Done creatorStats =>
        if negb (io_ok e 1) then database_error
        else
          match subscription_stats (subscriptions db) with
          | Err _ => database_error
          | Done subStats =>
              if negb (io_ok e 2) then database_error
              else
                let activity := recent_activity e (analytics db) in
                Json 200 []
                  (JObj [("creators", creatorStats);
                         ("subscriptions", subStats);
                         ("recent_activity", activity)])
          end
    end.

(* ================================================================== *)
(** ** Middleware and routing *)
(* ================================================================== *)

Inductive route : Type :=
| AuthVerify             (* GET /api/auth/verify *)
| CreatorsList           (* GET /api/creators *)
| CreatorsGet            (* GET /api/creators/:id *)
| CreatorsCreate         (* POST /api/creators *)
| CreatorsUpdate         (* PUT /api/creators/:id *)
| CreatorsDelete         (* DELETE /api/creators/:id *)
| CreatorsStatus         (* POST /api/creators/:id/status *)
| CreatorsBulkStatus     (* POST /api/creators/bulk-status *)
| SubscriptionsList      (* GET /api/subscriptions *)
| AnalyticsDashboard     (* GET /api/analytics/dashboard *)
| SettingsGet            (* GET /api/settings *)
| SettingsPut            (* PUT /api/settings *)
| ExportCreators.        (* GET /api/export/creators *)

(** Whether [requireAdmin] follows [authenticateToken] on the route. *)
Definition admin_gated (r : route) : bool :=
  match r with
  | CreatorsCreate | CreatorsUpdate | CreatorsDelete | CreatorsStatus
  | SubscriptionsList | SettingsGet | SettingsPut | ExportCreators => true
  | AuthVerify | CreatorsList | CreatorsGet | CreatorsBulkStatus
  | AnalyticsDashboard => false
  end.

(** [authHeader && authHeader.split(' ')[1]] (lines 125-126). *)
Definition request_token (req : request) : jsval :=
  let authHeader :=
    match authorization req with Some h => JStr h | None => JUndefined end in
  js_and authHeader
    (match authorization req with
     | Some h => index (split h " "%char) 1
     | None => JUndefined
     end).

Section Middleware.

(** [jwt.verify(token, JWT_SECRET, cb)] of the jsonwebtoken package: the
    decoded payload, or [None] when it calls back with an error (bad
    signature, malformed or expired token). *)
Variable jwt_verify : string -> option jsval.

(** [authenticateToken] (lines 124-139): a reply, or [req.user]. *)
Definition authenticateToken (req : request) : reply + jsval :=
  let token := request_token req in
  if negb (truthy token) then inl (Json 401 [] (error_body "Access token required"))
  else
    match jwt_verify (to_string token) with
    | None => inl (Json 403 [] (error_body "Invalid or expired token"))
    | Some user => inr user
    end.

(** [requireAdmin] (lines 142-147). *)
Definition requireAdmin (user : jsval) : reply + jsval :=
  match get_prop "role" user with
  | None => inl (Throws "TypeError: Cannot read properties of undefined")
  | Some role =>
      if negb (str_is role "admin") && negb (str_is role "super_admin")
      then inl (Json 403 [] (error_body "Admin access required"))
      else inr user
  end.

(** The middleware chain in front of a route's handler. *)
Definition gates (r : route) (req : request) : reply + jsval :=
  match authenticateToken req with
  | inl rep => inl rep
  | inr user => if admin_gated r then requireAdmin user else inr user
  end.

(** A route: its gates, then its handler. *)
Definition serve (r : route)
  (handler : env -> request -> database -> reply * database)
  (e : env) (req : request) (db : database) : reply * database :=
  match gates r req with
  | inl rep => (rep, db)
  | inr _ => handler e req db
  end.

End Middleware.

(* ================================================================== *)
(** ** Creating and deleting creators *)
(* ================================================================== *)

(** What the routes below see beside the three tables: the AUTOINCREMENT
    counter of [creators] (its row in sqlite_sequence). *)
Record catalog : Type := Catalog {
  tables : database;
  creators_seq : Z
}.

(** A destructuring default [{ k = d } = body]: the default applies when
    the property is [undefined]. *)
Definition field_or (k : string) (d : jsval) (b : jsval) : jsval :=
  match field k b with JUndefined => d | v => v end.

(** [INSERT INTO creators (display_name, description, avatar_url,
    platforms, is_featured, is_paid_member, featured_priority)
    VALUES (?, ?, ?, ?, ?, ?, ?)] (lines 276-280). The other columns take
    their defaults; the id is the next AUTOINCREMENT value, returned as
    [this.lastID]. *)
Definition insert_creator (e : env) (k : nat) (params : list jsval) (seq : Z)
  (rows : list Creator.t) : outcome (Z * list Creator.t) :=
  if negb (io_ok e k) then io_error
  else
    let p i := bind (nth i params JUndefined) in
    match apply_affinity TEXT (p 0%nat) with
    | SNull =>
        Err "SQLITE_CONSTRAINT: NOT NULL constraint failed: creators.display_name"
    | display_name =>
        let id := fold_left Z.max (map Creator.id rows) seq + 1 in
        Done (id,
              rows ++
              [Creator.mk id display_name
                 (apply_affinity TEXT (p 1%nat))
                 (apply_affinity TEXT (p 2%nat))
                 (SText "offline")
                 (apply_affinity NUMERIC (p 4%nat))
                 (apply_affinity NUMERIC (p 5%nat))
                 (apply_affinity INTEGER (p 6%nat))
                 (apply_affinity TEXT (p 3%nat))
                 (SNum 0)
                 SNull SNull
                 (apply_affinity NUMERIC (SText (now e)))
                 (apply_affinity NUMERIC (SText (now e)))])
    end.

(** POST /api/creators (lines 263-288). *)
Definition create_creator (e : env) (req : request) (c : catalog) : reply * catalog :=
  let display_name := field "display_name" (body req) in
  let description := field "description" (body req) in
  let platforms := field "platforms" (body req) in
  let is_featured := field_or "is_featured" (JBool false) (body req) in
  let is_paid_member := field_or "is_paid_member" (JBool false) (body req) in
  let featured_priority := field_or "featured_priority" (JNum 0) (body req) in
  let avatar_url :=
    match file req with
    | Some filename => JStr ("/uploads/" ++ filename)%string
    | None => JNull
    end in
  let platformsJson :=
    if is_string platforms then platforms
    else JSON_stringify (js_or platforms (JArr [])) in
  match insert_creator e 0
          [display_name; description; avatar_url; platformsJson;
           is_featured; is_paid_member; featured_priority]
          (creators_seq c) (creators (tables c)) with
  | Err _ => (database_error, c)
  | Done (lastID, rows) =>
      (Json 200 []
         (JObj [("id", JNum (inject_Z lastID));
                ("message", JStr "Creator created successfully")]),
       Catalog (with_creators (tables c) rows) lastID)
  end.

(** [db.run('DELETE FROM creators WHERE id = ?', [id], cb)]: the rows left
    and [this.changes]. Foreign keys are not enforced (the connection never
    turns them on), so no other table is looked at. *)
Definition run_delete (e : env) (k : nat) (idp : jsval) (rows : list Creator.t)
  : outcome (list Creator.t * Z) :=
  if negb (io_ok e k) then io_error
  else
    Done (filter (fun r => negb (id_matches (bind idp) r)) rows,
          Z.of_nat (List.length (filter (id_matches (bind idp)) rows))).

(** DELETE /api/creators/:id (lines 370-382). *)
Definition delete_creator (e : env) (req : request) (db : database)
  : reply * database :=
  match run_delete e 0 (JStr (params_id req)) (creators db) with
  | Err _ => (database_error, db)
  | Done (rows, changes) =>
      if changes =? 0
      then (Json 404 [] (error_body "Creator not found"), with_creators db rows)
      else (Json 200 [] (message_body "Creator deleted successfully"),
            with_creators db rows)
  end.

(* ================================================================== *)
(** ** Site settings *)
(* ================================================================== *)

Module Setting.

Record t : Type := mk {
  key : sqlval;
  value : sqlval;
  updated_at : sqlval
}.

Definition columns : list column :=
  [ Column "key" TEXT false;
    Column "value" TEXT false;
    Column "updated_at" NUMERIC false ].

End Setting.

(** Conflict on the primary key: an existing row with an equal key (a NULL
    key conflicts with nothing). *)
Definition same_key (k : sqlval) (r : Setting.t) : bool :=
  holds (SQLite.eq (Setting.key r) k).

(** [INSERT OR IGNORE INTO site_settings (key, value) VALUES (?, ?)]
    (line 119), as the [k]-th statement; issued without a callback. *)
Definition insert_setting_or_ignore (e : env) (k : nat) (params : list jsval)
  (rows : list Setting.t) : list Setting.t :=
  if negb (io_ok e k) then rows
  else
    let key := apply_affinity TEXT (bind (nth 0 params JUndefined)) in
    let value := apply_affinity TEXT (bind (nth 1 params JUndefined)) in
    if existsb (same_key key) rows then rows
    else rows ++ [Setting.mk key value (apply_affinity NUMERIC (SText (now e)))].

(** The default settings (lines 110-116). *)
Definition defaultSettings : list (string * string) :=
  [ ("site_title", "Psycheverse Admin");
    ("featured_slots", "4");
    ("subscription_price", "1999");
    ("auto_approve_free", "false");
    ("max_free_listings", "50") ].

(** [defaultSettings.forEach(([key, value]) => db.run(...))] (lines
    118-120), the statements numbered from [k]. *)
Fixpoint seed_settings (e : env) (k : nat) (defaults : list (string * string))
  (rows : list Setting.t) : list Setting.t :=
  match defaults with
  | [] => rows
  | (key, value) :: defaults' =>
      seed_settings e (S k) defaults'
        (insert_setting_or_ignore e k [JStr key; JStr value] rows)
  end.

(** [INSERT OR REPLACE INTO site_settings (key, value, updated_at)
    VALUES (?, ?, CURRENT_TIMESTAMP)] (lines 538-539): the row with the same
    key, if any, is deleted and the new row is added. Run without a
    callback: a failing run changes nothing and is not reported. *)
Definition replace_setting (e : env) (k : nat) (params : list jsval)
  (rows : list Setting.t) : list Setting.t :=
  if negb (io_ok e k) then rows
  else
    let key := apply_affinity TEXT (bind (nth 0 params JUndefined)) in
    let value := apply_affinity TEXT (bind (nth 1 params JUndefined)) in
    filter (fun r => negb (same_key key r)) rows
      ++ [Setting.mk key value (apply_affinity NUMERIC (SText (now e)))].

(** The index keys ["0"], ["1"], ... of an array's elements, from [i]. *)
Fixpoint indexed (i : Z) (items : list jsval) : list (string * jsval) :=
  match items with
  | [] => []
  | x :: items' => (Z_to_string i, x) :: indexed (i + 1) items'
  end.

(** [Object.entries(v)] for a request body: the fields of an object, the
    indexed elements of an array; [None] is the TypeError for [null] and
    [undefined]. Numbers and booleans have no entries, and a string body
    never reaches a handler. The fields come in the order of the field
    list (JavaScript moves integer-like keys to the front). *)
Definition entries (v : jsval) : option (list (string * jsval)) :=
  match v with
  | JUndefined | JNull => None
  | JObj fs => Some fs
  | JArr items => Some (indexed 0 items)
  | _ => Some []
  end.

(** [Object.entries(settings).forEach(([key, value]) => stmt.run([key,
    value]))], the runs numbered from [k]. *)
Fixpoint replace_each (e : env) (k : nat) (es : list (string * jsval))
  (rows : list Setting.t) : list Setting.t :=
  match es with
  | [] => rows
  | (key, value) :: es' =>
      replace_each e (S k) es' (replace_setting e k [JStr key; value] rows)
  end.

(** PUT /api/settings (lines 535-548). *)
Definition put_settings (e : env) (req : request) (rows : list Setting.t)
  : reply * list Setting.t :=
  match entries (body req) with
  | None => (Throws "TypeError: Cannot convert undefined or null to object", rows)
  | Some es =>
      (Json 200 [] (message_body "Settings updated successfully"),
       replace_each e 0 es rows)
  end.

(** [settingsObj[key] = value] on a plain object: the name [__proto__]
    reaches the prototype setter, and the value of a TEXT column (a string,
    or null, which at most clears the prototype) never becomes a property
    of the object. *)
Definition assign_property (k : string) (v : jsval) (fs : list (string * jsval))
  : list (string * jsval) :=
  if String.eqb k "__proto__" then fs else set_field k v fs.

(** GET /api/settings (lines 519-532). The order of the keys of the
    answer is not part of the model. *)
Definition get_settings (e : env) (req : request) (rows : list Setting.t) : reply :=
  if negb (io_ok e 0) then database_error
  else
    Json 200 []
      (JObj (fold_left
               (fun settingsObj setting =>
                  assign_property (to_string (SQLite.to_js (Setting.key setting)))
                    (SQLite.to_js (Setting.value setting)) settingsObj)
               rows [])).

(* ================================================================== *)
(** ** Login *)
(* ================================================================== *)

Module Admin.

Record t : Type := mk {
  id : Z;
  username : sqlval;
  email : sqlval;
  password_hash : sqlval;
  role : sqlval;
  created_at : sqlval;
  last_login : sqlval
}.

End Admin.

Definition stamp_login (e : env) (id : Z) (u : Admin.t) : Admin.t :=
  if Admin.id u =? id
  then Admin.mk (Admin.id u) (Admin.username u) (Admin.email u)
         (Admin.password_hash u) (Admin.role u) (Admin.created_at u)
         (apply_affinity NUMERIC (SText (now e)))
  else u.

(** [db.get('SELECT * FROM admin_users WHERE username = ? OR email = ?',
    [name, name], cb)]: the first row of the result. SQLite answers the OR
    through the indexes of the two UNIQUE columns, that of username first,
    so the row whose username is the name comes before a row whose email
    is. *)
Definition select_admin (name : sqlval) (admins : list Admin.t) : option Admin.t :=
  match find (fun u => holds (column_eq TEXT (Admin.username u) name)) admins with
  | Some user => Some user
  | None => find (fun u => holds (column_eq TEXT (Admin.email u) name)) admins
  end.

Section Login.

(** [bcrypt.compareSync(password, hash)] of bcryptjs on two strings. *)
Variable bcrypt_compareSync : string -> string -> bool.

(** [jwt.sign(payload, JWT_SECRET, { expiresIn: '24h' })]. *)
Variable jwt_sign : jsval -> string.

(** POST /api/auth/login (lines 152-183). [compareSync] throws unless both
    its arguments are strings. The UPDATE of last_login is issued without a
    callback. *)
Definition login (e : env) (req : request) (admins : list Admin.t)
  : reply * list Admin.t :=
  let username := field "username" (body req) in
  let password := field "password" (body req) in
  if negb (io_ok e 0) then (database_error, admins)
  else
    match select_admin (bind username) admins with
    | None => (Json 401 [] (error_body "Invalid credentials"), admins)
    | Some user =>
        match password, SQLite.to_js (Admin.password_hash user) with
        | JStr p, JStr h =>
            if negb (bcrypt_compareSync p h)
            then (Json 401 [] (error_body "Invalid credentials"), admins)
            else
              let admins' :=
                if io_ok e 1 then map (stamp_login e (Admin.id user)) admins
                else admins in
              let token :=
                jwt_sign (JObj [("id", JNum (inject_Z (Admin.id user)));
                                ("username", SQLite.to_js (Admin.username user));
                                ("role", SQLite.to_js (Admin.role user))]) in
              (Json 200 []
                 (JObj [("token", JStr token);
                        ("user",
                          JObj [("id", JNum (inject_Z (Admin.id user)));
                                ("username", SQLite.to_js (Admin.username user));
                                ("email", SQLite.to_js (Admin.email user));
                                ("role", SQLite.to_js (Admin.role user))])]),
               admins')
        | _, _ => (Throws "Error: Illegal arguments", admins)
        end
    end.

End Login.

(* ================================================================== *)
(** ** Vocabulary of the statements proved below *)
(* ================================================================== *)

(** A successful sub-parser leaves strictly less input. *)
Definition shorter {A : Type} (l : list ascii) (p : parsed A) : Prop :=
  match p with
  | Ok _ r => (List.length r < List.length l)%nat
  | _ => True
  end.

Definition fuelled {A : Type} (p : parsed A) : Prop :=
  match p with OutOfFuel => False | _ => True end.

(** The value a DATETIME column holds after [= CURRENT_TIMESTAMP]. *)
Definition timestamp (e : env) : sqlval := apply_affinity NUMERIC (SText (now e)).

(** The value a column of [creators] holds after [column = ?] bound to [v]. *)
Definition stored (c : string) (v : jsval) : sqlval :=
  match find_column Creator.columns c with
  | Some col => apply_affinity (col_affinity col) (bind v)
  | None => bind v
  end.

(** A field the request supplies contributes one (column, value) pair. *)
Definition given (present : bool) (c : string) (v : jsval) : list (string * jsval) :=
  if present then [(c, v)] else [].

(** The fields a PUT request supplies, as (column, value to bind) pairs:
    a body field counts as supplied when it is not [undefined], the avatar
    when a file was uploaded. *)
Definition supplied (req : request) : list (string * jsval) :=
  let b := body req in
  let has c := negb (is_undefined (field c b)) in
  given (has "display_name") "display_name" (field "display_name" b) ++
  given (has "description") "description" (field "description" b) ++
  given (match file req with Some _ => true | None => false end) "avatar_url"
    (JStr ("/uploads/" ++ match file req with Some f => f | None => "" end)%string) ++
  given (has "platforms") "platforms"
    (if is_string (field "platforms" b) then field "platforms" b
     else JSON_stringify (field "platforms" b)) ++
  given (has "status") "status" (field "status" b) ++
  given (has "is_featured") "is_featured" (field "is_featured" b) ++
  given (has "is_paid_member") "is_paid_member" (field "is_paid_member" b) ++
  given (has "featured_priority") "featured_priority" (field "featured_priority" b) ++
  given (has "viewers") "viewers" (field "viewers" b).

Definition status_row (e : env) (req : request) (r : Creator.t) : Creator.t :=
  let status := field "status" (body req) in
  let viewers := field "viewers" (body req) in
  let live_start := field "live_start" (body req) in
  Creator.mk (Creator.id r) (Creator.display_name r) (Creator.description r)
    (Creator.avatar_url r)
    (stored "status" status)
    (Creator.is_featured r) (Creator.is_paid_member r)
    (Creator.featured_priority r) (Creator.platforms r)
    (if is_undefined viewers then Creator.viewers r else stored "viewers" viewers)
    (if str_is status "live" && truthy live_start
     then stored "last_live_start" live_start else Creator.last_live_start r)
    (if str_is status "offline" then Creator.last_seen r else timestamp e)
    (Creator.created_at r) (timestamp e).

Definition bulk_row (e : env) (status viewers : jsval) (r : Creator.t) : Creator.t :=
  Creator.mk (Creator.id r) (Creator.display_name r) (Creator.description r)
    (Creator.avatar_url r)
    (stored "status" status)
    (Creator.is_featured r) (Creator.is_paid_member r)
    (Creator.featured_priority r) (Creator.platforms r)
    (stored "viewers" (js_or viewers (JNum 0)))
    (Creator.last_live_start r)
    (timestamp e)
    (Creator.created_at r) (timestamp e).




(** The creator records a reply carries: the elements of a 200 array body,
    or the single object of a 200 body. *)
Definition returned (rep : reply) : list jsval :=
  match rep with
  | Json s _ b =>
      if s =? 200 then match b with JArr objs => objs | _ => [b] end else []
  | Throws _ => []
  end.

(** The record GET /api/creators returns for a row. *)
Definition list_view (r : Creator.t) : jsval :=
  parse_platforms_or_empty (Creator.to_js r).

(** The record GET /api/creators/:id and the export return for a row. *)
Definition single_view (r : Creator.t) : jsval :=
  parse_platforms_if_present (Creator.to_js r).


(** [null] or [undefined]: the values a property read throws on. *)
Definition nullish (v : jsval) : bool :=
  match v with JNull | JUndefined => true | _ => false end.

(** The items of a batch that get run: those before the first nullish
    one, on which the loop throws. *)
Fixpoint runnable (items : list jsval) : list jsval :=
  match items with
  | [] => []
  | u :: items' => if nullish u then [] else u :: runnable items'
  end.



(** [x] does not come after [y]. *)
Definition not_after {A : Type} (cmp : A -> A -> comparison) (x y : A) : Prop :=
  cmp x y <> Gt.

(** A comparison that orders: swapping the arguments reverses the answer,
    and [not_after] is transitive, ties included. *)
Definition orders {A : Type} (cmp : A -> A -> comparison) : Prop :=
  (forall x y, cmp y x = CompOpp (cmp x y)) /\
  (forall x y z, cmp x y <> Gt -> cmp y z <> Gt ->
                 cmp x z <> Gt /\ (cmp x z = Eq -> cmp x y = Eq /\ cmp y z = Eq)).

(** The LIMIT value of GET /api/creators: the query parameter, or 50. *)
Definition requested_limit (req : request) : jsval :=
  match query_param "limit" req with JUndefined => JNum 50 | v => v end.

(** The OFFSET value of GET /api/creators: the query parameter, or 0. *)
Definition requested_offset (req : request) : jsval :=
  match query_param "offset" req with JUndefined => JNum 0 | v => v end.

(** The WHERE pieces and the parameters GET /api/creators builds (lines
    196-215), in the order the handler pushes them. *)
Definition list_query (req : request) : list clause * list jsval :=
  let status := query_param "status" req in
  let featured := query_param "featured" req in
  let search := query_param "search" req in
  ((if truthy status then [StatusEq] else []) ++
   (if negb (is_undefined featured) then [FeaturedEq] else []) ++
   (if truthy search then [SearchLike] else []),
   (if truthy status then [status] else []) ++
   (if negb (is_undefined featured)
    then [JNum (if str_is featured "true" then 1 else 0)%Q] else []) ++
   (if truthy search
    then [JStr ("%" ++ to_string search ++ "%")%string;
          JStr ("%" ++ to_string search ++ "%")%string] else []) ++
   [js_parseInt (requested_limit req); js_parseInt (requested_offset req)]).




(** The conditions the dashboard counts rows by. *)
Definition is_live (r : Creator.t) : bool :=
  holds (SQLite.eq (Creator.status r) (SText "live")).

Definition is_featured_row (r : Creator.t) : bool :=
  holds (SQLite.eq (Creator.is_featured r) (of_Z 1)).

Definition is_paid_row (r : Creator.t) : bool :=
  holds (SQLite.eq (Creator.is_paid_member r) (of_Z 1)).

Definition is_active (r : Subscription.t) : bool :=
  holds (SQLite.eq (Subscription.status r) (SText "active")).

(** The number of rows that satisfy [p], as the reply carries it. *)
Definition count {A : Type} (p : A -> bool) (rows : list A) : jsval :=
  JNum (inject_Z (Z.of_nat (List.length (filter p rows)))).

(** The term the revenue sum takes from a subscription. *)
Definition revenue (r : Subscription.t) : sqlval :=
  case_when (SQLite.eq (Subscription.status r) (SText "active"))
    (Subscription.amount r) (of_Z 0).

(** Whether the running total of the INTEGER inputs of a SUM leaves the
    64-bit range before a REAL or TEXT input is met. Every version of
    SQLite notes the overflow then; the versions differ on whether a REAL
    or TEXT input met later clears it. *)
Fixpoint total_overflows (vs : list sqlval) (acc : Z) : bool :=
  match vs with
  | [] => false
  | SNull :: vs' => total_overflows vs' acc
  | v :: vs' =>
      match as_integer v with
      | Some z =>
          if (int64_min <=? acc + z) && (acc + z <=? int64_max)
          then total_overflows vs' (acc + z)
          else true
      | None => false
      end
  end.

(** The one number whose class its value does not tell is the least 64-bit
    integer: a numeric column holds it as an INTEGER when it was written as
    an integer, and as a REAL when it was bound as a double. *)
Definition class_known (v : sqlval) : Prop := as_integer v <> Some int64_min.

(** The roles [requireAdmin] lets through. *)
Definition admin_role (user : jsval) : Prop :=
  get_prop "role" user = Some (JStr "admin") \/
  get_prop "role" user = Some (JStr "super_admin").

(** The row POST /api/creators stores. *)
Definition created_row (e : env) (req : request) (id : Z) : Creator.t :=
  let b := body req in
  let platforms := field "platforms" b in
  Creator.mk id
    (apply_affinity TEXT (bind (field "display_name" b)))
    (apply_affinity TEXT (bind (field "description" b)))
    (match file req with
     | Some filename => SText ("/uploads/" ++ filename)
     | None => SNull
     end)
    (SText "offline")
    (stored "is_featured" (field_or "is_featured" (JBool false) b))
    (stored "is_paid_member" (field_or "is_paid_member" (JBool false) b))
    (stored "featured_priority" (field_or "featured_priority" (JNum 0) b))
    (apply_affinity TEXT
       (bind (if is_string platforms then platforms
              else JSON_stringify (js_or platforms (JArr [])))))
    (SNum 0) SNull SNull (timestamp e) (timestamp e).

(** Whether the key of a row of site_settings, as a property name, is [k]. *)
Definition named (k : string) (r : Setting.t) : bool :=
  String.eqb (to_string (SQLite.to_js (Setting.key r))) k.

(** The last row of the table that [k] names, if any. *)
Fixpoint last_named (k : string) (rows : list Setting.t) : option Setting.t :=
  match rows with
  | [] => None
  | r :: rows' =>
      match last_named k rows' with
      | Some x => Some x
      | None => if named k r then Some r else None
      end
  end.

(** A number of at most fifteen significant digits, well inside the range
    of a double: JavaScript holds it closely enough for SQLite to write its
    digits back. *)
Definition short_decimal (q : Q) : Prop :=
  exists m e, Z.abs m < 10 ^ 15 /\ -300 <= e <= 290 /\ (q == inject_Z m * pow10 e)%Q.

(** What a TEXT column holds for a bound JavaScript value, read back. *)
Definition as_text_value (v : jsval) : jsval :=
  SQLite.to_js (apply_affinity TEXT (bind v)).

(** A word: a string without a space. *)
Definition word (s : string) : Prop :=
  Forall (fun c => c <> " "%char) (list_ascii_of_string s).

(** The account a login request names: the one whose username equals the
    submitted name or else the one whose email does. *)
Definition account (req : request) (admins : list Admin.t) : option Admin.t :=
  select_admin (bind (field "username" (body req))) admins.

(** The claims a token is signed over. *)
Definition token_payload (u : Admin.t) : jsval :=
  JObj [("id", JNum (inject_Z (Admin.id u)));
        ("username", SQLite.to_js (Admin.username u));
        ("role", SQLite.to_js (Admin.role u))].

(** Everything of an account but its last_login. *)
Definition same_account (u u' : Admin.t) : Prop :=
  Admin.id u' = Admin.id u /\
  Admin.username u' = Admin.username u /\
  Admin.email u' = Admin.email u /\
  Admin.password_hash u' = Admin.password_hash u /\
  Admin.role u' = Admin.role u /\
  Admin.created_at u' = Admin.created_at u.

(** Two values GROUP BY puts in one group. *)
Definition same_group (a b : sqlval) : bool :=
  match order a b with Eq => true | _ => false end.

(** The events of the last seven days. *)
Definition recent (e : env) (r : Analytics.t) : bool :=
  holds (gt (Analytics.timestamp r) (apply_affinity NUMERIC (SText (week_ago e)))).

(** The count a GROUP BY result gives for the group of [k]. *)
Definition weight (k : sqlval) (g : list (sqlval * Z)) : Z :=
  fold_right (fun p acc => (if same_group (fst p) k then snd p else 0) + acc) 0 g.

(** How many of the keys fall in the group of [k]. *)
Definition occurrences (k : sqlval) (keys : list sqlval) : Z :=
  Z.of_nat (List.length (filter (fun k' => same_group k' k) keys)).

(** Groups in strictly ascending order of their keys. *)
Definition key_lt (a b : sqlval * Z) : Prop := order (fst a) (fst b) = Lt.

(* ================================================================== *)
(** ** Sample data for the worked instances *)
(* ================================================================== *)

(** An environment in which no statement hits an I/O failure. *)
Definition calm (now week_ago : string) : env := Env now week_ago (fun _ => true).

Definition sample_env : env := calm "2026-01-02 03:04:05" "2025-12-26 03:04:05".

Definition ann : Creator.t :=
  Creator.mk 1 (SText "Ann") SNull SNull (SText "offline") (SNum 0) (SNum 0) (SNum 0)
    (SText "") (SNum 7) SNull SNull
    (SText "2025-01-01 00:00:00") (SText "2025-01-01 00:00:00").

Definition bob : Creator.t :=
  Creator.mk 2 (SText "Bob") SNull SNull (SText "live") (SNum 1) (SNum 0) (SNum 3)
    (SText "youtube,twitch") (SNum 9) SNull (SText "2025-06-01 00:00:00")
    (SText "2025-01-01 00:00:00") (SText "2025-01-01 00:00:00").

Definition cy : Creator.t :=
  Creator.mk 3 (SText "Cy") SNull SNull (SText "offline") (SNum 0) (SNum 1) (SNum 0)
    SNull (SNum 0) SNull SNull
    (SText "2025-02-01 00:00:00") (SText "2025-02-01 00:00:00").

Definition sample_db : database := Database [ann; bob; cy] [] [] 0.

(** A request on [/api/creators/<id>...] with a JSON body. *)
Definition on_creator (id : string) (b : jsval) : request := Request None id [] b None.




(** A verifier for the worked instance: it accepts two fixed tokens. *)
Definition sample_verify (token : string) : option jsval :=
  if String.eqb token "viewer-token"
  then Some (JObj [("id", JNum 7); ("username", JStr "eve"); ("role", JStr "viewer")])
  else if String.eqb token "admin-token"
  then Some (JObj [("id", JNum 1); ("username", JStr "admin"); ("role", JStr "super_admin")])
  else None.

Definition with_header (h : option string) : request := Request h "1" [] (JObj []) None.

(** The export route as [serve] runs it. *)
Definition export_handler (e : env) (req : request) (db : database)
  : reply * database := (export_creators e req db, db).





(** GET /api/creators?status=live&limit=1 *)
Definition live_page : request :=
  Request None "" [("status", "live"); ("limit", "1")] (JObj []) None.





(** Three events, two of them of the last seven days. *)
Definition sample_events : list Analytics.t :=
  [ Analytics.mk 1 (SText "status_change") (SText "{}") (SNum 1)
      (SText "2026-01-01 00:00:00");
    Analytics.mk 2 (SText "login") SNull SNull (SText "2025-12-01 00:00:00");
    Analytics.mk 3 (SText "status_change") (SText "{}") (SNum 2)
      (SText "2026-01-02 00:00:00") ].

(** Two creators whose viewers add up beyond the 64-bit range. *)
Definition crowded_db : database :=
  Database
    [ Creator.mk 1 (SText "Ann") SNull SNull (SText "live") (SNum 0) (SNum 0) (SNum 0)
        SNull (SNum 9223372036854774784) SNull SNull SNull SNull;
      Creator.mk 2 (SText "Bob") SNull SNull (SText "live") (SNum 0) (SNum 0) (SNum 0)
        SNull (SNum 9223372036854774784) SNull SNull SNull SNull ]
    [] [] 0.

(** POST /api/creators with only a display name. *)
Definition dee : request := on_creator "" (JObj [("display_name", JStr "Dee")]).

(** The sample store with an AUTOINCREMENT counter ahead of its ids. *)
Definition sample_catalog : catalog := Catalog sample_db 7.

(** The catalog after creating Dee, after deleting her again, and after
    creating her a second time. *)
Definition dee_created : catalog := snd (create_creator sample_env dee sample_catalog).

Definition dee_deleted : catalog :=
  Catalog (snd (delete_creator sample_env (on_creator "8" (JObj [])) (tables dee_created)))
    (creators_seq dee_created).

Definition dee_again : catalog := snd (create_creator sample_env dee dee_deleted).

Definition sample_settings : list Setting.t :=
  [ Setting.mk (SText "site_title") (SText "Psycheverse Admin")
      (SText "2025-01-01 00:00:00");
    Setting.mk (SText "featured_slots") (SText "4") (SText "2025-01-01 00:00:00") ].

(** PUT /api/settings with a number for an existing key and a new key. *)
Definition sample_put : request :=
  on_creator "" (JObj [("featured_slots", JNum 6); ("theme", JStr "dark")]).

Definition sample_admins : list Admin.t :=
  [ Admin.mk 1 (SText "admin") (SText "admin@psycheverse.org") (SText "hash:admin123")
      (SText "super_admin") (SText "2025-01-01 00:00:00") SNull ].

(** Stand-ins for bcryptjs and jsonwebtoken in the worked instances. *)
Definition sample_compare (password hash : string) : bool :=
  String.eqb hash ("hash:" ++ password)%string.

Definition sample_sign (payload : jsval) : string := "admin-token".

Definition sample_login : request :=
  on_creator "" (JObj [("username", JStr "admin"); ("password", JStr "admin123")]).

Definition login_without_a_password : request :=
  on_creator "" (JObj [("username", JStr "admin")]).

(* ================================================================== *)
(** ** JSON.parse never runs out of fuel *)
(* ================================================================== *)

Lemma skip_ws_length l : (List.length (skip_ws l) <= List.length l)%nat.
Proof.
  induction l as [|c l IH]; cbn [skip_ws List.length]; [lia|].
  destruct (is_ws c); cbn [List.length]; lia.
Qed.

Lemma digits_length l : forall acc n,
  (List.length (snd (digits l acc n)) <= List.length l)%nat.
Proof.
  induction l as [|c l IH]; intros acc n; cbn [digits]; [cbn; lia|].
  destruct (digit c); cbn [snd List.length]; [|lia].
  specialize (IH (10 * acc + z) (n + 1)). lia.
Qed.

Lemma lit_length w l r : lit w l = Some r -> (List.length r <= List.length l)%nat.
Proof.
  unfold lit. destruct (String.eqb _ _); [|discriminate].
  intros H. inversion H. rewrite length_skipn. lia.
Qed.

Lemma parse_chars_progress : forall n l hi acc,
  (List.length l <= n)%nat ->
  shorter l (parse_chars l hi acc) /\ fuelled (parse_chars l hi acc).
Proof.
  induction n as [|n IH]; intros l hi acc Hn.
  - destruct l; [cbn; tauto | cbn in Hn; lia].
  - destruct l as [|c l']; [cbn; tauto|]. cbn [parse_chars].
    cbn [List.length] in Hn.
    destruct (code c =? 34); [cbn; split; [lia|tauto]|].
    destruct (code c <? 32); [cbn; tauto|].
    destruct (code c =? 92).
    + destruct l' as [|e l'']; [cbn; tauto|].
      cbn [List.length] in Hn.
      destruct (code e =? 117).
      * destruct l'' as [|h1 [|h2 [|h3 [|h4 l3]]]]; try (cbn; tauto).
        cbn [List.length] in Hn.
        destruct (hex4 h1 h2 h3 h4); [|cbn; tauto].
        assert (Hl : (List.length l3 <= n)%nat) by lia.
        assert (Hstep : forall hi' acc',
                   shorter (c :: e :: h1 :: h2 :: h3 :: h4 :: l3)
                     (parse_chars l3 hi' acc') /\ fuelled (parse_chars l3 hi' acc')).
        { intros hi' acc'. destruct (IH l3 hi' acc' Hl) as [H1 H2]. split; [|exact H2].
          destruct (parse_chars l3 hi' acc'); cbn in *; try tauto. lia. }
        destruct (_ && _); [apply Hstep|].
        destruct (_ && _); [destruct hi; apply Hstep | apply Hstep].
      * destruct (simple_escape e); [|cbn; tauto].
        assert (Hl : (List.length l'' <= n)%nat) by lia.
        destruct (IH l'' None (flush hi acc ++ [chr z]) Hl) as [H1 H2]. split; [|exact H2].
        destruct (parse_chars l'' None _); cbn in *; try tauto. lia.
    + assert (Hl : (List.length l' <= n)%nat) by lia.
      destruct (IH l' None (flush hi acc ++ [c]) Hl) as [H1 H2]. split; [|exact H2].
      destruct (parse_chars l' None _); cbn in *; try tauto. lia.
Qed.

Lemma digits_step c l acc n d :
  digit c = Some d -> digits (c :: l) acc n = digits l (10 * acc + d) (n + 1).
Proof. intros H. cbn [digits]. rewrite H. reflexivity. Qed.

Lemma exp_digits_length r eneg ev l4 :
  (let d := digits r 0 0 in
   if snd (fst d) =? 0 then None
   else Some ((if eneg : bool then - fst (fst d) else fst (fst d)), snd d))
  = Some (ev, l4) ->
  (List.length l4 <= List.length r)%nat.
Proof.
  cbv zeta. pose proof (digits_length r 0 0) as H.
  destruct (digits r 0 0) as [[v n] rest]. cbn [fst snd] in *.
  destruct (n =? 0); [discriminate|]. intros E. injection E as _ <-. exact H.
Qed.

Lemma parse_number_progress l :
  shorter l (parse_number l) /\ fuelled (parse_number l).
Proof.
  unfold parse_number.
  assert (Hs : (List.length (snd (sign_part l)) <= List.length l)%nat).
  { destruct l as [|c r]; cbn [sign_part]; [cbn; lia|].
    destruct (code c =? 45); cbn [snd List.length]; lia. }
  destruct (sign_part l) as [neg l1]. cbn [snd] in Hs.
  destruct (int_part l1) as [[ip l2]|] eqn:Ei; [|cbn; tauto].
  assert (Hi : (List.length l2 < List.length l1)%nat).
  { unfold int_part in Ei. destruct l1 as [|c r]; [discriminate|].
    destruct (digit c) as [d0|] eqn:Ed; [|discriminate].
    destruct (d0 =? 0).
    - inversion Ei; subst. cbn [List.length]. lia.
    - injection Ei as _ <-. cbn [digits]. rewrite Ed.
      match goal with
      | |- context [digits r ?a ?n] => pose proof (digits_length r a n)
      end.
      cbn [List.length]. lia. }
  destruct (frac_part l2) as [[[fp nf] l3]|] eqn:Ef; [|cbn; tauto].
  assert (Hf : (List.length l3 <= List.length l2)%nat).
  { unfold frac_part in Ef. destruct l2 as [|p r]; [inversion Ef; subst; lia|].
    destruct (code p =? 46).
    - destruct (snd (fst (digits r 0 0)) =? 0); [discriminate|].
      inversion Ef as [Hd]. pose proof (digits_length r 0 0) as Hl.
      rewrite Hd in Hl. cbn [snd List.length] in *. lia.
    - inversion Ef; subst. lia. }
  destruct (exp_part l3) as [[ev l4]|] eqn:Ee; [|cbn; tauto].
  assert (He : (List.length l4 <= List.length l3)%nat).
  { unfold exp_part in Ee. destruct l3 as [|x r]; [inversion Ee; subst; lia|].
    destruct (_ || _); [|inversion Ee; subst; lia].
    destruct r as [|s r'].
    - apply (exp_digits_length [] false) in Ee. cbn [List.length] in *. lia.
    - destruct (code s =? 45); [|destruct (code s =? 43)].
      + apply (exp_digits_length r' true) in Ee. cbn [List.length] in *. lia.
      + apply (exp_digits_length r' false) in Ee. cbn [List.length] in *. lia.
      + apply (exp_digits_length (s :: r') false) in Ee. cbn [List.length] in *. lia. }
  cbn. split; [lia | tauto].
Qed.

Lemma shorter_lift {A B : Type} (f : A -> B) l (p : parsed A) :
  shorter l p -> shorter l (lift f p).
Proof. destruct p; cbn; tauto. Qed.

Lemma shorter_weaken {A : Type} (l l' : list ascii) (p : parsed A) :
  (List.length l' <= List.length l)%nat -> shorter l' p -> shorter l p.
Proof. destruct p; cbn; try tauto. lia. Qed.

Lemma keyword_shorter w v l : shorter (chr 0 :: l) (keyword w v l).
Proof.
  unfold keyword. destruct (lit w l) eqn:E; cbn; [|tauto].
  apply lit_length in E. lia.
Qed.

(** Successful parses consume input. *)
Lemma parse_shorter : forall f l,
  shorter l (parse_value f l) /\
  shorter l (parse_elems f l) /\
  (forall acc, shorter l (parse_members f l acc)).
Proof.
  induction f as [|f IH]; intros l; [cbn; tauto|].
  pose proof (skip_ws_length l) as Hws.
  split; [|split].
  - cbn [parse_value]. destruct (skip_ws l) as [|c r] eqn:Es; [cbn; tauto|].
    cbn [List.length] in Hws.
    assert (Hk : forall w v, shorter l (keyword w v r)).
    { intros w v. eapply shorter_weaken; [|apply (keyword_shorter w v r)].
      cbn [List.length]. lia. }
    destruct (code c =? 110); [apply Hk|].
    destruct (code c =? 116); [apply Hk|].
    destruct (code c =? 102); [apply Hk|].
    destruct (code c =? 34).
    { apply shorter_lift. destruct (parse_chars_progress _ r None [] (le_n _)) as [H _].
      eapply shorter_weaken; [|exact H]. lia. }
    destruct (code c =? 91).
    { pose proof (skip_ws_length r) as Hr.
      destruct (skip_ws r) as [|c' r'] eqn:Er; [cbn; tauto|].
      cbn [List.length] in Hr.
      destruct (code c' =? 93); [cbn; lia|].
      apply shorter_lift. destruct (IH r) as [_ [H _]].
      eapply shorter_weaken; [|exact H]. lia. }
    destruct (code c =? 123).
    { pose proof (skip_ws_length r) as Hr.
      destruct (skip_ws r) as [|c' r'] eqn:Er; [cbn; tauto|].
      cbn [List.length] in Hr.
      destruct (code c' =? 125); [cbn; lia|].
      apply shorter_lift. destruct (IH r) as [_ [_ H]].
      eapply shorter_weaken; [|apply H]. lia. }
    apply shorter_lift. destruct (parse_number_progress (c :: r)) as [H _].
    eapply shorter_weaken; [|exact H]. cbn [List.length]. lia.
  - cbn [parse_elems]. destruct (IH l) as [Hv _].
    destruct (parse_value f l) as [v r| |]; try (cbn; tauto). cbn in Hv.
    pose proof (skip_ws_length r) as Hr.
    destruct (skip_ws r) as [|c r'] eqn:Er; [cbn; tauto|].
    cbn [List.length] in Hr.
    destruct (code c =? 93); [cbn; lia|].
    destruct (code c =? 44); [|cbn; tauto].
    destruct (IH r') as [_ [He _]].
    destruct (parse_elems f r'); cbn in *; try tauto. lia.
  - intros acc. cbn [parse_members].
    destruct (skip_ws l) as [|q r0] eqn:Es; [cbn; tauto|].
    cbn [List.length] in Hws.
    destruct (code q =? 34); [|cbn; tauto].
    destruct (parse_chars_progress _ r0 None [] (le_n _)) as [Hc _].
    destruct (parse_chars r0 None []) as [k r1| |]; try (cbn; tauto). cbn in Hc.
    pose proof (skip_ws_length r1) as Hr1.
    destruct (skip_ws r1) as [|c r2] eqn:Er1; [cbn; tauto|].
    cbn [List.length] in Hr1.
    destruct (code c =? 58); [|cbn; tauto].
    destruct (IH r2) as [Hv _].
    destruct (parse_value f r2) as [v r3| |]; try (cbn; tauto). cbn in Hv.
    pose proof (skip_ws_length r3) as Hr3.
    destruct (skip_ws r3) as [|d r4] eqn:Er3; [cbn; tauto|].
    cbn [List.length] in Hr3.
    destruct (code d =? 125); [cbn; lia|].
    destruct (code d =? 44); [|cbn; tauto].
    destruct (IH r4) as [_ [_ Hm]]. specialize (Hm (set_field k v acc)).
    destruct (parse_members f r4 _); cbn in *; try tauto. lia.
Qed.

Lemma fuelled_lift {A B : Type} (f : A -> B) (p : parsed A) :
  fuelled p -> fuelled (lift f p).
Proof. destruct p; cbn; tauto. Qed.

(** With fuel beyond twice the input length the parser never stops for
    lack of fuel. *)
Lemma parse_fuel : forall f l,
  ((2 * List.length l + 1 <= f)%nat -> fuelled (parse_value f l)) /\
  ((2 * List.length l + 2 <= f)%nat -> fuelled (parse_elems f l)) /\
  ((2 * List.length l + 2 <= f)%nat -> forall acc, fuelled (parse_members f l acc)).
Proof.
  induction f as [|f IH]; intros l; [repeat split; intros; lia|].
  pose proof (skip_ws_length l) as Hws.
  split; [|split].
  - intros Hf. cbn [parse_value]. destruct (skip_ws l) as [|c r] eqn:Es; [cbn; tauto|].
    cbn [List.length] in Hws.
    assert (Hk : forall w v, fuelled (keyword w v r)).
    { intros w v. unfold keyword. destruct (lit w r); cbn; tauto. }
    destruct (code c =? 110); [apply Hk|].
    destruct (code c =? 116); [apply Hk|].
    destruct (code c =? 102); [apply Hk|].
    destruct (code c =? 34).
    { apply fuelled_lift. apply (parse_chars_progress _ r None [] (le_n _)). }
    destruct (code c =? 91).
    { destruct (skip_ws r) as [|c' r']; [cbn; tauto|].
      destruct (code c' =? 93); [cbn; tauto|].
      apply fuelled_lift. apply (IH r). lia. }
    destruct (code c =? 123).
    { destruct (skip_ws r) as [|c' r']; [cbn; tauto|].
      destruct (code c' =? 125); [cbn; tauto|].
      apply fuelled_lift. apply (IH r). lia. }
    apply fuelled_lift. apply parse_number_progress.
  - intros Hf. cbn [parse_elems].
    destruct (IH l) as [Hv _]. specialize (Hv ltac:(lia)).
    destruct (parse_shorter f l) as [Hs _].
    destruct (parse_value f l) as [v r| |]; try (cbn in *; tauto). cbn in Hs.
    pose proof (skip_ws_length r) as Hr.
    destruct (skip_ws r) as [|c r'] eqn:Er; [cbn; tauto|].
    cbn [List.length] in Hr.
    destruct (code c =? 93); [cbn; tauto|].
    destruct (code c =? 44); [|cbn; tauto].
    destruct (IH r') as [_ [He _]]. specialize (He ltac:(lia)).
    destruct (parse_elems f r'); cbn in *; tauto.
  - intros Hf acc. cbn [parse_members].
    destruct (skip_ws l) as [|q r0] eqn:Es; [cbn; tauto|].
    cbn [List.length] in Hws.
    destruct (code q =? 34); [|cbn; tauto].
    destruct (parse_chars_progress _ r0 None [] (le_n _)) as [Hc Hcf].
    destruct (parse_chars r0 None []) as [k r1| |]; try (cbn in *; tauto). cbn in Hc.
    pose proof (skip_ws_length r1) as Hr1.
    destruct (skip_ws r1) as [|c r2] eqn:Er1; [cbn; tauto|].
    cbn [List.length] in Hr1.
    destruct (code c =? 58); [|cbn; tauto].
    destruct (IH r2) as [Hv _]. specialize (Hv ltac:(lia)).
    destruct (parse_shorter f r2) as [Hs _].
    destruct (parse_value f r2) as [v r3| |]; try (cbn in *; tauto). cbn in Hs.
    pose proof (skip_ws_length r3) as Hr3.
    destruct (skip_ws r3) as [|d r4] eqn:Er3; [cbn; tauto|].
    cbn [List.length] in Hr3.
    destruct (code d =? 125); [cbn; tauto|].
    destruct (code d =? 44); [|cbn; tauto].
    destruct (IH r4) as [_ [_ Hm]]. apply Hm. lia.
Qed.

(** [JSON_parse] answers [None] only for a syntax error or trailing input:
    its parse never runs out of fuel. *)
Lemma JSON_parse_fuelled text :
  let l := list_ascii_of_string text in
  parse_value (2 * List.length l + 2) l <> OutOfFuel.
Proof.
  intros l H. destruct (parse_fuel (2 * List.length l + 2) l) as [Hf _].
  specialize (Hf ltac:(lia)). rewrite H in Hf. exact Hf.
Qed.

(* ================================================================== *)
(** ** Columns, SET lists and UPDATE results *)
(* ================================================================== *)

Ltac string_cases :=
  repeat match goal with
         | |- context [String.eqb ?a ?b] =>
             destruct (String.eqb_spec a b); subst; try discriminate; try congruence
         | H : context [String.eqb ?a ?b] |- _ =>
             destruct (String.eqb_spec a b); subst; try discriminate; try congruence
         end.



Lemma set_keeps_id c v r r' :
  Creator.set c v r = Done r' -> c <> "id" -> Creator.id r' = Creator.id r.
Proof.
  intros H Hid. destruct r. unfold Creator.set in H.
  string_cases; inversion H; subst; reflexivity.
Qed.

Lemma get_id r : Creator.get "id" r = Some (of_Z (Creator.id r)).
Proof. reflexivity. Qed.

(** *** Frame and write lemmas for a SET list *)


Lemma apply_sets_keeps_id bs : forall r r',
  apply_sets bs r = Done r' -> ~ In "id" (map fst bs) ->
  Creator.id r' = Creator.id r.
Proof.
  induction bs as [|[c0 v0] bs IH]; intros r r' H Hn; cbn [apply_sets map fst In] in *.
  - inversion H; reflexivity.
  - destruct (find_column Creator.columns c0) as [col|]; [|discriminate].
    destruct (col_not_null col), (apply_affinity (col_affinity col) v0) eqn:Ev;
      try discriminate;
      destruct (Creator.set c0 _ r) as [r1|] eqn:Es; try discriminate;
      rewrite (IH _ _ H) by tauto;
      apply (set_keeps_id _ _ _ _ Es); intro; subst; tauto.
Qed.



(** *** Shape of an UPDATE's result *)

Lemma update_rows_shape bs idp : forall rows rows' n,
  update_rows bs idp rows = Done (rows', n) ->
  Forall2 (fun r r' => if id_matches idp r then apply_sets bs r = Done r' else r' = r)
          rows rows' /\
  n = Z.of_nat (List.length (filter (id_matches idp) rows)).
Proof.
  induction rows as [|r rows IH]; intros rows' n H; cbn [update_rows filter List.length] in *.
  - inversion H; subst. split; [constructor | reflexivity].
  - destruct (id_matches idp r) eqn:Em.
    + destruct (apply_sets bs r) as [r1|] eqn:Ea; [|discriminate].
      destruct (update_rows bs idp rows) as [[rs m]|] eqn:Eu; [|discriminate].
      inversion H; subst. destruct (IH _ _ eq_refl) as [F Hn]. split.
      * constructor; [rewrite Em; assumption | assumption].
      * subst m. simpl. lia.
    + destruct (update_rows bs idp rows) as [[rs m]|] eqn:Eu; [|discriminate].
      inversion H; subst. destruct (IH _ _ eq_refl) as [F Hn]. split.
      * constructor; [rewrite Em; reflexivity | assumption].
      * assumption.
Qed.


(** When every matching row takes the assignments, the statement succeeds
    and its result is the row-wise map. *)
Lemma update_rows_map bs idp (f : Creator.t -> Creator.t) : forall rows,
  (forall r, id_matches idp r = true -> apply_sets bs r = Done (f r)) ->
  update_rows bs idp rows =
    Done (map (fun r => if id_matches idp r then f r else r) rows,
          Z.of_nat (List.length (filter (id_matches idp) rows))).
Proof.
  intros rows Hf. induction rows as [|r rows IH]; simpl.
  - reflexivity.
  - destruct (id_matches idp r) eqn:Em.
    + rewrite (Hf r Em), IH. simpl. do 2 f_equal. lia.
    + rewrite IH. reflexivity.
Qed.

(* ------------------------------------------------------------------ *)
(** *** The statement of the PUT route *)

Lemma push_if_given b c v acc :
  push_if b (c, Param) v acc =
  (fst acc ++ map (fun cv => (fst cv, Param)) (given b c v),
   snd acc ++ map snd (given b c v)).
Proof.
  destruct acc as [s p]. destruct b; unfold push_if, given; cbn [fst snd map].
  - reflexivity.
  - rewrite !app_nil_r. reflexivity.
Qed.

Lemma update_statement_supplied req :
  update_statement req =
  (map (fun cv => (fst cv, Param)) (supplied req) ++ [("updated_at", CURRENT_TIMESTAMP)],
   map snd (supplied req) ++ [JStr (params_id req)]).
Proof.
  unfold update_statement, supplied.
  rewrite !push_if_given. cbn [fst snd].
  rewrite !map_app, !app_nil_l, <- !app_assoc. reflexivity.
Qed.

Lemma in_given x b c v : In x (map fst (given b c v)) -> x = c.
Proof. destruct b; cbn; intuition. Qed.

Lemma NoDup_given b c v l :
  NoDup l -> ~ In c l -> NoDup (map fst (given b c v) ++ l).
Proof. destruct b; cbn; [constructor|]; auto. Qed.

Ltac absent :=
  rewrite ?in_app_iff; cbn [In];
  repeat match goal with
         | |- ~ _ => intro
         | H : _ \/ _ |- _ => destruct H
         | H : In _ (map fst (given _ _ _)) |- _ => apply in_given in H
         | H : False |- _ => contradiction
         | H : _ = _ |- _ => discriminate H
         end.

Lemma supplied_columns req :
  NoDup (map fst (supplied req) ++ ["updated_at"]) /\
  ~ In "id" (map fst (supplied req) ++ ["updated_at"]).
Proof.
  unfold supplied. rewrite !map_app, <- !app_assoc. split.
  - repeat (apply NoDup_given; [|absent]).
    constructor; [cbn; tauto | constructor].
  - absent.
Qed.

(** Binding a SET list made of [?] entries followed by the time stamp. *)
Lemma bind_assignments_params e (l : list (string * jsval)) rest :
  bind_assignments e
    (map (fun cv => (fst cv, Param)) l ++ [("updated_at", CURRENT_TIMESTAMP)])
    (map bind (map snd l) ++ rest) =
  (map (fun cv => (fst cv, bind (snd cv))) l ++ [("updated_at", SText (now e))], rest).
Proof.
  induction l as [|[c v] l IH]; cbn [map app fst snd bind_assignments].
  - reflexivity.
  - rewrite IH. reflexivity.
Qed.

Lemma has_column_supplied req :
  forallb (fun a : assignment => has_column Creator.columns (fst a))
    (map (fun cv : string * jsval => (fst cv, Param)) (supplied req)
       ++ [("updated_at", CURRENT_TIMESTAMP)]) = true.
Proof.
  apply forallb_forall. intros [c v] Hin. cbn [fst].
  apply in_app_iff in Hin. destruct Hin as [Hin | Hin].
  - apply in_map_iff in Hin. destruct Hin as ([c' v'] & Heq & Hin).
    inversion Heq; subst. unfold supplied in Hin.
    repeat (apply in_app_iff in Hin; destruct Hin as [Hin | Hin]);
      (apply (in_map fst) in Hin; apply in_given in Hin; cbn [fst] in Hin;
       subst; reflexivity).
  - destruct Hin as [Heq | []]. inversion Heq; reflexivity.
Qed.

(** The UPDATE of the PUT route, reduced to the row-level update. *)
Lemma update_run e req rows :
  run_update e 0 (fst (update_statement req)) (snd (update_statement req)) rows =
  if io_ok e 0
  then update_rows
         (map (fun cv => (fst cv, bind (snd cv))) (supplied req)
            ++ [("updated_at", SText (now e))])
         (SText (params_id req)) rows
  else io_error.
Proof.
  rewrite update_statement_supplied. cbn [fst snd]. unfold run_update.
  rewrite has_column_supplied. cbn [negb].
  rewrite map_app. cbn [map bind].
  rewrite bind_assignments_params. reflexivity.
Qed.

(* ------------------------------------------------------------------ *)
(** *** The statements of the two status routes *)

Lemma status_run e req rows :
  io_ok e 0 = true ->
  run_update e 0 (fst (status_statement req)) (snd (status_statement req)) rows =
  Done (map (fun r => if id_matches (SText (params_id req)) r
                      then status_row e req r else r) rows,
        Z.of_nat (List.length (filter (id_matches (SText (params_id req))) rows))).
Proof.
  intros Hio. unfold status_statement, push_if, js_and, status_row.
  cbn [truthy].
  destruct (is_undefined (field "viewers" (body req))) eqn:Ev;
  destruct (str_is (field "status" (body req)) "live") eqn:El;
  destruct (truthy (field "live_start" (body req))) eqn:Et;
  destruct (str_is (field "status" (body req)) "offline") eqn:Eo;
  cbn [negb fst snd app andb];
  unfold run_update; cbn -[update_rows id_matches bind apply_affinity];
  rewrite Hio; apply update_rows_map; intros r _; destruct r; reflexivity.
Qed.

Lemma bulk_run e k status viewers id rows :
  io_ok e k = true ->
  run_update e k bulk_statement [status; js_or viewers (JNum 0); id] rows =
  Done (map (fun r => if id_matches (bind id) r then bulk_row e status viewers r else r) rows,
        Z.of_nat (List.length (filter (id_matches (bind id)) rows))).
Proof.
  intros Hio. unfold run_update, bulk_statement.
  cbn -[update_rows id_matches bind apply_affinity js_or].
  rewrite Hio. apply update_rows_map. intros r _. destruct r. reflexivity.
Qed.


(* ================================================================== *)
(** ** Dashboard and subscriptions *)
(* ================================================================== *)

(** C1. On a store with no creator, subscription or analytics row, and with
    no I/O failure, the dashboard answers 200, but only the two COUNT
    fields are zero: every field computed with SUM (live_creators,
    featured_creators, paid_members, total_viewers, active_subscriptions,
    monthly_revenue) is null, because SUM over no rows is NULL. The list of
    7-day event-type counts is empty. *)
Theorem dashboard_empty_store (now week_ago : string) (req : request) (seq : Z) :
  dashboard (calm now week_ago) req (Database [] [] [] seq) =
  Json 200 []
    (JObj
       [ ("creators",
           JObj [ ("total_creators", JNum 0); ("live_creators", JNull);
                  ("featured_creators", JNull); ("paid_members", JNull);
                  ("total_viewers", JNull) ]);
         ("subscriptions",
           JObj [ ("total_subscriptions", JNum 0);
                  ("active_subscriptions", JNull);
                  ("monthly_revenue", JNull) ]);
         ("recent_activity", JArr []) ]).
Proof. reflexivity. Qed.

(** C2. Whatever the store holds, the subscription list answers 500
    "Database error": its query selects [c.email], and [creators] has no
    column [email], so the statement is refused when it is prepared. *)
Theorem list_subscriptions_fails (e : env) (req : request) (db : database) :
  select_subscriptions e 0 db = Err "SQLITE_ERROR: no such column: c.email" /\
  list_subscriptions e req db = database_error.
Proof. split; reflexivity. Qed.

(* ================================================================== *)
(** ** Status transitions *)
(* ================================================================== *)

Lemma creator_status_result e req db :
  io_ok e 0 = true ->
  creator_status e req db =
  let db1 := with_creators db
               (map (fun r => if id_matches (SText (params_id req)) r
                              then status_row e req r else r) (creators db)) in
  (Json 200 [] (message_body "Status updated successfully"),
   match insert_status_change e 1
           [JSON_stringify (JObj [("status", field "status" (body req));
                                  ("viewers", field "viewers" (body req))]);
            JStr (params_id req)] db1 with
   | Done db' => db'
   | Err _ => db1
   end).
Proof.
  intros Hio. unfold creator_status.
  pose proof (status_run e req (creators db) Hio) as H.
  destruct (status_statement req) as [sets params]. cbn [fst snd] in H.
  rewrite H. reflexivity.
Qed.

Lemma insert_keeps_creators e k params db db' :
  insert_status_change e k params db = Done db' -> creators db' = creators db.
Proof.
  unfold insert_status_change. destruct (io_ok e k); cbn [negb].
  - intros H. inversion H. reflexivity.
  - discriminate.
Qed.

Lemma creator_status_rows e req db :
  io_ok e 0 = true ->
  creators (snd (creator_status e req db)) =
  map (fun r => if id_matches (SText (params_id req)) r
                then status_row e req r else r) (creators db).
Proof.
  intros Hio. rewrite (creator_status_result e req db Hio). cbn [snd].
  destruct (insert_status_change _ _ _ _) as [db'|] eqn:Ei.
  - rewrite (insert_keeps_creators _ _ _ _ _ Ei). reflexivity.
  - reflexivity.
Qed.





(** C7. Whenever the UPDATE of a status call does not error, for any id
    and any status, the reply is the success message whether or not the
    INSERT into analytics works; when the INSERT works, the analytics
    table gains exactly one row, of type 'status_change', whose data is
    the serialised [{status, viewers}] and whose creator id is the
    requested id; when it does not, the table is unchanged. Nothing here
    depends on how many rows the UPDATE matched. *)
Theorem status_change_event (e : env) (req : request) (db : database)
  (rows : list Creator.t) (changes : Z) :
  run_update e 0 (fst (status_statement req)) (snd (status_statement req))
    (creators db) = Done (rows, changes) ->
  let status := field "status" (body req) in
  let viewers := field "viewers" (body req) in
  let db' := snd (creator_status e req db) in
  fst (creator_status e req db) =
    Json 200 [] (message_body "Status updated successfully") /\
  (io_ok e 1 = true ->
     exists ev,
       analytics db' = analytics db ++ [ev] /\
       Analytics.event_type ev = SText "status_change" /\
       Analytics.event_data ev =
         bind (JSON_stringify (JObj [("status", status); ("viewers", viewers)])) /\
       Analytics.creator_id ev = apply_affinity INTEGER (SText (params_id req)) /\
       Analytics.timestamp ev = timestamp e) /\
  (io_ok e 1 = false -> analytics db' = analytics db).
Proof.
  intros Hrun status viewers db'. subst db'. unfold creator_status.
  destruct (status_statement req) as [sets params]. cbn [fst snd] in Hrun.
  rewrite Hrun. cbn [fst snd]. split; [reflexivity|].
  unfold insert_status_change. split; intros Hio; rewrite Hio; cbn [negb].
  - eexists. cbn [analytics snd]. split; [reflexivity|].
    cbn [Analytics.event_type Analytics.event_data Analytics.creator_id
         Analytics.timestamp nth].
    repeat split.
  - reflexivity.
Qed.

(** C7, a worked instance: an id that matches no creator. *)
Lemma status_change_event_witness :
  fst (creator_status sample_env (on_creator "999" (JObj [("status", JStr "live")]))
         sample_db) =
    Json 200 [] (message_body "Status updated successfully") /\
  analytics (snd (creator_status sample_env
                    (on_creator "999" (JObj [("status", JStr "live")])) sample_db)) =
    [Analytics.mk 1 (SText "status_change")
       (SText ("{" ++ quote "status" ++ ":" ++ quote "live" ++ "}")%string)
       (SNum 999) (SText "2026-01-02 03:04:05")].
Proof.
  pose proof (status_change_event sample_env
                (on_creator "999" (JObj [("status", JStr "live")])) sample_db
                (creators sample_db) 0 eq_refl) as H.
  cbv zeta in H. destruct H as [H1 [H2 _]]. split; [exact H1|].
  destruct (H2 eq_refl) as (ev & Ha & _). reflexivity.
Defined.

(* ================================================================== *)
(** ** Sparse update *)
(* ================================================================== *)



(* ------------------------------------------------------------------ *)
(** *** When the UPDATE of the PUT route fails *)












(* ================================================================== *)
(** ** Bulk status *)
(* ================================================================== *)







(* ------------------------------------------------------------------ *)
(** *** The batch, row by row *)

Lemma nullish_false u : nullish u = false -> u <> JNull /\ u <> JUndefined.
Proof. destruct u; cbn; intros H; try discriminate; split; discriminate. Qed.

Lemma runnable_clean items : Forall (fun u => u <> JNull /\ u <> JUndefined) (runnable items).
Proof.
  induction items as [|u items IH]; cbn [runnable]; [constructor|].
  destruct (nullish u) eqn:E; constructor; [apply nullish_false, E | exact IH].
Qed.












(* ================================================================== *)
(** ** Gates *)
(* ================================================================== *)

Lemma str_is_false role lit : role <> JStr lit -> str_is role lit = false.
Proof.
  intros H. destruct role; try reflexivity. cbn [str_is].
  destruct (String.eqb_spec s lit); [subst; contradiction | reflexivity].
Qed.

(** C6. On every gated route and whatever its handler: a request with no
    Authorization header, or whose header carries no token after the first
    space, is answered 401 with an [{error}] body; a request whose token
    [jwt.verify] rejects is answered 403 with an [{error}] body; and on a
    route that also has [requireAdmin], a request whose verified identity
    has a role other than 'admin' and 'super_admin' is answered 403 with an
    [{error}] body. In all three cases the handler is not run and the store
    is unchanged. *)
Theorem gates_reject (jwt_verify : string -> option jsval) (r : route)
  (handler : env -> request -> database -> reply * database)
  (e : env) (req : request) (db : database) :
  (authorization req = None ->
   serve jwt_verify r handler e req db =
     (Json 401 [] (error_body "Access token required"), db)) /\
  (truthy (request_token req) = false ->
   serve jwt_verify r handler e req db =
     (Json 401 [] (error_body "Access token required"), db)) /\
  (truthy (request_token req) = true ->
   jwt_verify (to_string (request_token req)) = None ->
   serve jwt_verify r handler e req db =
     (Json 403 [] (error_body "Invalid or expired token"), db)) /\
  (admin_gated r = true ->
   truthy (request_token req) = true ->
   forall user role,
     jwt_verify (to_string (request_token req)) = Some user ->
     get_prop "role" user = Some role ->
     role <> JStr "admin" -> role <> JStr "super_admin" ->
     serve jwt_verify r handler e req db =
       (Json 403 [] (error_body "Admin access required"), db)).
Proof.
  unfold serve, gates, authenticateToken. repeat split.
  - intros H. unfold request_token. rewrite H. reflexivity.
  - intros H. rewrite H. reflexivity.
  - intros H1 H2. rewrite H1, H2. reflexivity.
  - intros Ha Ht user role Hv Hr H1 H2. rewrite Ht, Hv, Ha. cbn [negb].
    unfold requireAdmin. rewrite Hr.
    rewrite (str_is_false _ _ H1), (str_is_false _ _ H2). reflexivity.
Qed.

(** C6, a worked instance on GET /api/export/creators: no header, a header
    without a token, a token that does not verify, and a verified token
    whose role is 'viewer'. *)
Lemma gates_reject_witness :
  serve sample_verify ExportCreators export_handler sample_env
    (with_header None) sample_db =
    (Json 401 [] (error_body "Access token required"), sample_db) /\
  serve sample_verify ExportCreators export_handler sample_env
    (with_header (Some "Bearer")) sample_db =
    (Json 401 [] (error_body "Access token required"), sample_db) /\
  serve sample_verify ExportCreators export_handler sample_env
    (with_header (Some "Bearer forged")) sample_db =
    (Json 403 [] (error_body "Invalid or expired token"), sample_db) /\
  serve sample_verify ExportCreators export_handler sample_env
    (with_header (Some "Bearer viewer-token")) sample_db =
    (Json 403 [] (error_body "Admin access required"), sample_db).
Proof.
  split; [|split; [|split]].
  - apply (proj1 (gates_reject sample_verify ExportCreators export_handler sample_env
                    (with_header None) sample_db)). reflexivity.
  - apply (proj1 (proj2 (gates_reject sample_verify ExportCreators export_handler
                           sample_env (with_header (Some "Bearer")) sample_db))).
    reflexivity.
  - apply (proj1 (proj2 (proj2 (gates_reject sample_verify ExportCreators
                                  export_handler sample_env
                                  (with_header (Some "Bearer forged")) sample_db))));
      reflexivity.
  - apply (proj2 (proj2 (proj2 (gates_reject sample_verify ExportCreators
                                  export_handler sample_env
                                  (with_header (Some "Bearer viewer-token"))
                                  sample_db))) eq_refl eq_refl
             (JObj [("id", JNum 7); ("username", JStr "eve"); ("role", JStr "viewer")])
             (JStr "viewer")); try reflexivity; discriminate.
Defined.

(* ================================================================== *)
(** ** Reading platforms *)
(* ================================================================== *)

Lemma in_firstn {A : Type} (x : A) n l : In x (firstn n l) -> In x l.
Proof. intros H. rewrite <- (firstn_skipn n l). apply in_or_app. left. exact H. Qed.

Lemma in_skipn {A : Type} (x : A) n l : In x (skipn n l) -> In x l.
Proof. intros H. rewrite <- (firstn_skipn n l). apply in_or_app. right. exact H. Qed.

Lemma in_insert_by {A : Type} (cmp : A -> A -> comparison) (x y : A) l :
  In x (insert_by cmp y l) <-> x = y \/ In x l.
Proof.
  induction l as [|z l IH]; cbn [insert_by In].
  - intuition.
  - destruct (cmp y z); cbn [In]; try rewrite IH; intuition.
Qed.

Lemma in_sort_by {A : Type} (cmp : A -> A -> comparison) (x : A) l :
  In x (sort_by cmp l) <-> In x l.
Proof.
  unfold sort_by. induction l as [|y l IH]; cbn [fold_right In].
  - tauto.
  - rewrite in_insert_by, IH. intuition.
Qed.

Lemma limit_offset_in {A : Type} lim off (rows rows' : list A) x :
  limit_offset lim off rows = Done rows' -> In x rows' -> In x rows.
Proof.
  unfold limit_offset.
  destruct (apply_affinity NUMERIC lim) as [|ql|]; try discriminate.
  destruct (apply_affinity NUMERIC off) as [|qo|]; try discriminate.
  destruct (integer_within _ _ ql) as [l|]; try discriminate.
  destruct (integer_within _ _ qo) as [o|]; try discriminate.
  intros H. inversion H; subst. clear H.
  destruct (_ <? 0); intros Hin.
  - eapply in_skipn; eassumption.
  - eapply in_skipn. eapply in_firstn. eassumption.
Qed.

Lemma select_creators_in e k cs params rows rows' x :
  select_creators e k cs params rows = Done rows' -> In x rows' -> In x rows.
Proof.
  unfold select_creators. destruct (io_ok e k); cbn [negb]; [|discriminate].
  intros H Hin. apply (limit_offset_in _ _ _ _ _ H) in Hin.
  apply in_sort_by in Hin. apply filter_In in Hin. tauto.
Qed.

(** Every record GET /api/creators returns is the list view of a stored
    row. *)
Lemma list_creators_returns e req db o :
  In o (returned (list_creators e req db)) ->
  exists r, In r (creators db) /\ o = list_view r.
Proof.
  unfold list_creators.
  destruct (truthy (query_param "status" req));
  destruct (is_undefined (query_param "featured" req));
  destruct (truthy (query_param "search" req));
  cbn [negb];
  match goal with
  | |- context [select_creators ?e ?k ?q ?p ?rows] =>
      destruct (select_creators e k q p rows) as [rows'|m] eqn:Hsel
  end;
  try (cbn; tauto);
  (cbn [returned Z.eqb Pos.eqb]; intros Hin; apply in_map_iff in Hin;
   destruct Hin as (r & <- & Hin); exists r; split; [|reflexivity];
   eapply select_creators_in; eassumption).
Qed.

Lemma single_view_not_array r : isArray (single_view r) = false.
Proof.
  unfold single_view, parse_platforms_if_present, try_parse_platforms.
  destruct (truthy _); [destruct (JSON_parse _)|]; reflexivity.
Qed.

Lemma get_creator_returns e req db o :
  In o (returned (get_creator e req db)) ->
  exists r, In r (creators db) /\ o = single_view r.
Proof.
  unfold get_creator, select_creator_by_id.
  destruct (io_ok e 0); cbn [negb]; [|cbn; tauto].
  destruct (find _ _) as [r|] eqn:Hf; [|cbn; tauto].
  cbn [returned Z.eqb Pos.eqb]. fold (single_view r).
  pose proof (single_view_not_array r) as Hna.
  destruct (single_view r) eqn:Hv; try discriminate;
    (intros [<-|[]]; exists r; split;
     [apply (find_some _ _ Hf) | symmetry; exact Hv]).
Qed.

Lemma export_creators_returns e req db o :
  In o (returned (export_creators e req db)) ->
  exists r, In r (creators db) /\ o = single_view r.
Proof.
  unfold export_creators. destruct (io_ok e 0); cbn [negb]; [|cbn; tauto].
  cbn [returned Z.eqb Pos.eqb]. intros Hin. apply in_map_iff in Hin.
  destruct Hin as (r & <- & Hin). exists r. split; [|reflexivity].
  apply in_sort_by in Hin. exact Hin.
Qed.

Lemma field_platforms_to_js r :
  field "platforms" (Creator.to_js r) = SQLite.to_js (Creator.platforms r).
Proof. reflexivity. Qed.

Lemma field_set_platforms r v :
  field "platforms" (set_platforms (Creator.to_js r) v) = v.
Proof. reflexivity. Qed.

Lemma views_unparsable r s :
  Creator.platforms r = SText s -> s <> "" -> JSON_parse s = None ->
  list_view r = set_platforms (Creator.to_js r) (JArr []) /\
  single_view r = set_platforms (Creator.to_js r) (JArr []).
Proof.
  intros Hp Hs Hj.
  unfold list_view, single_view, parse_platforms_or_empty,
    parse_platforms_if_present, try_parse_platforms.
  rewrite field_platforms_to_js, Hp. cbn [SQLite.to_js truthy to_string].
  destruct (String.eqb_spec s ""); [contradiction|]. cbn [negb].
  rewrite Hj. split; reflexivity.
Qed.

Lemma views_empty r :
  Creator.platforms r = SText "" ->
  list_view r = set_platforms (Creator.to_js r) (JArr []) /\
  single_view r = Creator.to_js r.
Proof.
  intros Hp.
  unfold list_view, single_view, parse_platforms_or_empty, parse_platforms_if_present.
  rewrite field_platforms_to_js, Hp. split; reflexivity.
Qed.

Lemma export_creators_holds e req db r :
  io_ok e 0 = true -> In r (creators db) ->
  In (single_view r) (returned (export_creators e req db)).
Proof.
  intros Hio Hin. unfold export_creators. rewrite Hio.
  cbn [negb returned Z.eqb Pos.eqb]. unfold single_view.
  apply (in_map (fun r => parse_platforms_if_present (Creator.to_js r))).
  apply in_sort_by. exact Hin.
Qed.

Lemma get_creator_found e req db r :
  io_ok e 0 = true ->
  find (id_matches (SText (params_id req))) (creators db) = Some r ->
  get_creator e req db = Json 200 [] (single_view r).
Proof.
  intros Hio Hf. unfold get_creator, select_creator_by_id. cbn [bind].
  rewrite Hio, Hf. reflexivity.
Qed.

(** C8, as the code has it. Every record the list returns is the list view
    of a stored row, and every record the single read or the export returns
    is the single view of a stored row; with no I/O failure the single read
    answers 200 with the single view of the row it finds, and the export
    holds the single view of every stored row. For a row whose platforms is
    a non-empty string that [JSON.parse] rejects, both views carry
    [platforms = []]. The empty string does not deserialize either, yet for
    a row whose platforms is the empty string only the list view carries
    [platforms = []]: the single view is the row as stored, with platforms
    equal to the empty string. *)
Theorem unparsable_platforms_read_empty (e : env) (req : request) (db : database) :
  (forall o, In o (returned (list_creators e req db)) ->
             exists r, In r (creators db) /\ o = list_view r) /\
  (forall o, In o (returned (get_creator e req db)) \/
             In o (returned (export_creators e req db)) ->
             exists r, In r (creators db) /\ o = single_view r) /\
  (io_ok e 0 = true ->
   (forall r, find (id_matches (SText (params_id req))) (creators db) = Some r ->
              get_creator e req db = Json 200 [] (single_view r)) /\
   (forall r, In r (creators db) ->
              In (single_view r) (returned (export_creators e req db)))) /\
  (forall r s,
     Creator.platforms r = SText s -> s <> "" -> JSON_parse s = None ->
     list_view r = set_platforms (Creator.to_js r) (JArr []) /\
     single_view r = set_platforms (Creator.to_js r) (JArr []) /\
     field "platforms" (list_view r) = JArr [] /\
     field "platforms" (single_view r) = JArr []) /\
  JSON_parse "" = None /\
  (forall r,
     Creator.platforms r = SText "" ->
     field "platforms" (list_view r) = JArr [] /\
     single_view r = Creator.to_js r /\
     field "platforms" (single_view r) = JStr "" /\
     field "platforms" (single_view r) <> JArr []).
Proof.
  split; [apply list_creators_returns|].
  split; [intros o [Ho | Ho];
          [apply (get_creator_returns _ _ _ _ Ho) | apply (export_creators_returns _ _ _ _ Ho)]|].
  split; [intros Hio; split;
          [intros r; apply get_creator_found, Hio
          | intros r; apply export_creators_holds, Hio]|].
  split; [|split; [reflexivity|]].
  - intros r s Hp Hs Hj. destruct (views_unparsable r s Hp Hs Hj) as [Hl Hg].
    rewrite Hl, Hg. repeat split; apply field_set_platforms.
  - intros r Hp. destruct (views_empty r Hp) as [Hl Hg].
    rewrite Hl, Hg, field_set_platforms, field_platforms_to_js, Hp.
    repeat split. discriminate.
Qed.

(** C8, a worked instance: creator 2 of the sample store holds a
    comma-separated platforms string, which is not JSON, and is read with
    an empty list; creator 1 holds the empty string, which the single read
    returns as it is and the list view turns into an empty list. *)
Lemma unparsable_platforms_read_empty_witness :
  JSON_parse "youtube,twitch" = None /\
  get_creator sample_env (on_creator "2" JNull) sample_db =
    Json 200 [] (set_platforms (Creator.to_js bob) (JArr [])) /\
  In (set_platforms (Creator.to_js bob) (JArr []))
     (returned (export_creators sample_env (on_creator "" JNull) sample_db)) /\
  get_creator sample_env (on_creator "1" JNull) sample_db =
    Json 200 [] (Creator.to_js ann) /\
  field "platforms" (Creator.to_js ann) = JStr "" /\
  field "platforms" (list_view ann) = JArr [].
Proof.
  split; [reflexivity|].
  pose proof (unparsable_platforms_read_empty sample_env (on_creator "2" JNull) sample_db)
    as (_ & _ & H2 & Hbob & _ & _).
  pose proof (unparsable_platforms_read_empty sample_env (on_creator "1" JNull) sample_db)
    as (_ & _ & H1 & _ & _ & Hann).
  pose proof (unparsable_platforms_read_empty sample_env (on_creator "" JNull) sample_db)
    as (_ & _ & H0 & _ & _ & _).
  destruct (Hbob bob "youtube,twitch" eq_refl ltac:(discriminate) eq_refl)
    as (_ & Hsv & _ & _).
  destruct (Hann ann eq_refl) as (Hl & Hsa & Hf & _).
  split; [rewrite <- Hsv; apply (proj1 (H2 eq_refl)); reflexivity|].
  split; [rewrite <- Hsv; apply (proj2 (H0 eq_refl)); right; left; reflexivity|].
  split; [rewrite <- Hsa; apply (proj1 (H1 eq_refl)); reflexivity|].
  split; [rewrite <- Hsa; exact Hf | exact Hl].
Defined.

(** C9, as the code has it. For a row whose platforms column is NULL or the
    empty string, the single read (when it finds the row and meets no I/O
    failure) returns the row object as it is, with platforms as stored:
    null for NULL and the empty string for the empty string. The export
    (with no I/O failure) returns the same object for the row. Every record
    the list returns is the list view of a stored row, every record the
    single read or the export returns is the single view of one, and the
    list view of such a row has [platforms = []]. *)
Theorem falsy_platforms_single_vs_list (e : env) (req : request) (db : database)
  (r : Creator.t) :
  Creator.platforms r = SNull \/ Creator.platforms r = SText "" ->
  (io_ok e 0 = true ->
   find (id_matches (SText (params_id req))) (creators db) = Some r ->
   get_creator e req db = Json 200 [] (Creator.to_js r)) /\
  (io_ok e 0 = true ->
   In r (creators db) ->
   In (Creator.to_js r) (returned (export_creators e req db))) /\
  single_view r = Creator.to_js r /\
  field "platforms" (Creator.to_js r) = SQLite.to_js (Creator.platforms r) /\
  (Creator.platforms r = SNull -> field "platforms" (single_view r) = JNull) /\
  (Creator.platforms r = SText "" -> field "platforms" (single_view r) = JStr "") /\
  field "platforms" (list_view r) = JArr [] /\
  (forall o, In o (returned (list_creators e req db)) ->
             exists r', In r' (creators db) /\ o = list_view r') /\
  (forall o, In o (returned (get_creator e req db)) \/
             In o (returned (export_creators e req db)) ->
             exists r', In r' (creators db) /\ o = single_view r').
Proof.
  intros Hp.
  assert (Hfalsy : truthy (field "platforms" (Creator.to_js r)) = false).
  { rewrite field_platforms_to_js. destruct Hp as [-> | ->]; reflexivity. }
  assert (Hsv : single_view r = Creator.to_js r).
  { unfold single_view, parse_platforms_if_present. rewrite Hfalsy. reflexivity. }
  split; [|split; [|split; [|split; [|split; [|split; [|split; [|split]]]]]]].
  - intros Hio Hf. rewrite <- Hsv. apply get_creator_found; assumption.
  - intros Hio Hin. rewrite <- Hsv. apply export_creators_holds; assumption.
  - exact Hsv.
  - reflexivity.
  - intros H. rewrite Hsv, field_platforms_to_js, H. reflexivity.
  - intros H. rewrite Hsv, field_platforms_to_js, H. reflexivity.
  - unfold list_view, parse_platforms_or_empty. rewrite Hfalsy.
    apply field_set_platforms.
  - apply list_creators_returns.
  - intros o [Ho | Ho];
      [apply (get_creator_returns _ _ _ _ Ho) | apply (export_creators_returns _ _ _ _ Ho)].
Qed.

(** C9, a worked instance: creator 3 of the sample store has a NULL
    platforms column. *)
Lemma falsy_platforms_single_vs_list_witness :
  get_creator sample_env (on_creator "3" JNull) sample_db = Json 200 [] (Creator.to_js cy) /\
  In (Creator.to_js cy) (returned (export_creators sample_env (on_creator "" JNull) sample_db)) /\
  field "platforms" (single_view cy) = JNull /\
  field "platforms" (list_view cy) = JArr [].
Proof.
  destruct (falsy_platforms_single_vs_list sample_env (on_creator "3" JNull) sample_db cy
              (or_introl eq_refl)) as (Hg & _ & _ & _ & Hn & _ & Hl & _).
  destruct (falsy_platforms_single_vs_list sample_env (on_creator "" JNull) sample_db cy
              (or_introl eq_refl)) as (_ & He & _).
  split; [apply Hg; reflexivity|].
  split; [apply He; [reflexivity | right; right; left; reflexivity]|].
  split; [apply Hn; reflexivity | exact Hl].
Defined.

(** C9 as stated fails for the empty column: the single read returns
    creator 1 of the sample store, whose platforms is the empty string,
    with platforms equal to that empty string, not to null. *)
Lemma empty_platforms_not_null :
  Creator.platforms ann = SText "" /\
  (exists o, get_creator sample_env (on_creator "1" JNull) sample_db = Json 200 [] o /\
             field "platforms" o = JStr "" /\ field "platforms" o <> JNull).
Proof.
  split; [reflexivity|]. eexists. repeat split. discriminate.
Qed.

(* ================================================================== *)
(** ** Further properties of the routes *)
(* ================================================================== *)

(** *** Comparisons that sort *)

Lemma ascii_compare_N a b :
  Ascii.compare a b = N.compare (N_of_ascii a) (N_of_ascii b).
Proof. reflexivity. Qed.

Lemma ascii_orders : orders Ascii.compare.
Proof.
  split.
  - intros x y. apply Ascii.compare_antisym.
  - intros x y z. rewrite !ascii_compare_N.
    intros H1 H2. apply N.compare_le_iff in H1. apply N.compare_le_iff in H2.
    split.
    + apply N.compare_le_iff. eapply N.le_trans; eassumption.
    + intros H. apply N.compare_eq_iff in H. rewrite H in *.
      assert (N_of_ascii y = N_of_ascii z) by (apply N.le_antisymm; assumption).
      split; apply N.compare_eq_iff; congruence.
Qed.

Lemma string_compare_cons a s b t :
  String.compare (String a s) (String b t) =
  match Ascii.compare a b with Eq => String.compare s t | c => c end.
Proof. reflexivity. Qed.

Lemma string_orders : orders String.compare.
Proof.
  split.
  - intros x y. apply String.compare_antisym.
  - induction x as [|a x IH]; intros y z H1 H2.
    + destruct z; cbn; split; try discriminate; try (intros; discriminate).
      intros _. destruct y; [split; reflexivity|]. cbn in H2. congruence.
    + destruct y as [|b y]; [cbn in H1; congruence|].
      destruct z as [|c z]; [cbn in H2; congruence|].
      rewrite !string_compare_cons. rewrite string_compare_cons in H1, H2.
      destruct ascii_orders as [_ At].
      destruct (Ascii.compare a b) eqn:Eab; try congruence;
      destruct (Ascii.compare b c) eqn:Ebc; try congruence;
        destruct (At a b c) as [A1 A2]; try (rewrite ?Eab, ?Ebc; discriminate);
        rewrite ?Eab, ?Ebc in A2.
      * apply Ascii.compare_eq_iff in Eab, Ebc. subst.
        assert (Ascii.compare c c = Eq) as ->.
        { rewrite ascii_compare_N. apply N.compare_refl. }
        apply IH; assumption.
      * destruct (Ascii.compare a c); try congruence.
        -- destruct (A2 eq_refl); discriminate.
        -- split; [discriminate | intros; discriminate].
      * destruct (Ascii.compare a c); try congruence.
        -- destruct (A2 eq_refl); discriminate.
        -- split; [discriminate | intros; discriminate].
      * destruct (Ascii.compare a c); try congruence.
        -- destruct (A2 eq_refl); discriminate.
        -- split; [discriminate | intros; discriminate].
Qed.

Lemma Q_orders : orders Qcompare.
Proof.
  split.
  - intros x y. symmetry. apply Qcompare_antisym.
  - intros x y z H1 H2. apply Qle_alt in H1. apply Qle_alt in H2. split.
    + apply Qle_alt. eapply Qle_trans; eassumption.
    + intros H. apply Qeq_alt in H. split; apply Qeq_alt; apply Qle_antisym; auto.
      * rewrite H. assumption.
      * rewrite <- H. assumption.
Qed.

Lemma order_orders : orders order.
Proof.
  destruct Q_orders as [Qa Qt]. destruct string_orders as [Sa St].
  split.
  - intros [|x|x] [|y|y]; cbn; auto.
  - intros [|x|x] [|y|y] [|z|z]; cbn; intros H1 H2;
      try congruence; try (split; [discriminate | intros; discriminate]);
      try (split; [discriminate | intros; split; reflexivity]); auto.
Qed.

(** Sorting on a key, reversed or not, and breaking ties by a second
    comparison, orders again. *)
Lemma orders_on {A B : Type} (cmp : B -> B -> comparison) (f : A -> B) :
  orders cmp -> orders (fun x y => cmp (f x) (f y)).
Proof. intros [H1 H2]. split; intros; [apply H1 | apply H2]; assumption. Qed.

Lemma orders_flip {A : Type} (cmp : A -> A -> comparison) :
  orders cmp -> orders (fun x y => cmp y x).
Proof.
  intros [H1 H2]. split.
  - intros x y. apply H1.
  - intros x y z Hxy Hyz. destruct (H2 z y x Hyz Hxy) as [H3 H4].
    split; [assumption|]. intros H. destruct (H4 H). split; assumption.
Qed.

Lemma orders_then {A : Type} (c1 c2 : A -> A -> comparison) :
  orders c1 -> orders c2 -> orders (fun x y => then_by (c1 x y) (c2 x y)).
Proof.
  intros [A1 T1] [A2 T2]. unfold then_by. split.
  - intros x y. rewrite (A1 x y), (A2 x y). destruct (c1 x y); reflexivity.
  - intros x y z Hxy Hyz.
    assert (L1 : c1 x y <> Gt) by (destruct (c1 x y); congruence).
    assert (L2 : c1 y z <> Gt) by (destruct (c1 y z); congruence).
    destruct (T1 x y z L1 L2) as [L3 L4].
    destruct (c1 x z) eqn:Exz; try congruence.
    + destruct (L4 eq_refl) as [E1 E2]. rewrite E1 in *. rewrite E2 in *.
      apply T2; assumption.
    + split; [discriminate | intros; discriminate].
Qed.

(** *** Insertion sort *)

Lemma insert_by_perm {A : Type} (cmp : A -> A -> comparison) x l :
  Permutation (insert_by cmp x l) (x :: l).
Proof.
  induction l as [|y l IH]; cbn [insert_by]; [reflexivity|].
  destruct (cmp x y); try reflexivity.
  rewrite IH. apply perm_swap.
Qed.

Lemma sort_by_perm {A : Type} (cmp : A -> A -> comparison) l :
  Permutation (sort_by cmp l) l.
Proof.
  unfold sort_by. induction l as [|x l IH]; cbn [fold_right]; [reflexivity|].
  rewrite insert_by_perm. constructor. exact IH.
Qed.

Lemma insert_by_sorted {A : Type} (cmp : A -> A -> comparison) x l :
  orders cmp ->
  StronglySorted (not_after cmp) l -> StronglySorted (not_after cmp) (insert_by cmp x l).
Proof.
  intros [Ha Ht] Hs. induction Hs as [|y l Hs IH Hy]; cbn [insert_by].
  - repeat constructor.
  - assert (Hall : cmp x y <> Gt ->
                   StronglySorted (not_after cmp) (x :: y :: l)).
    { intros Hxy. constructor; [constructor; assumption|].
      constructor; [exact Hxy|]. apply Forall_forall. intros z Hz.
      rewrite Forall_forall in Hy. apply (Ht x y z Hxy (Hy z Hz)). }
    destruct (cmp x y) eqn:E; try (apply Hall; congruence).
    constructor; [exact IH|].
    apply Forall_forall. intros z Hz.
    apply (Permutation_in _ (insert_by_perm cmp x l)) in Hz.
    destruct Hz as [<- | Hz].
    + unfold not_after. rewrite (Ha x y), E. discriminate.
    + rewrite Forall_forall in Hy. apply Hy. exact Hz.
Qed.

Lemma sort_by_sorted {A : Type} (cmp : A -> A -> comparison) l :
  orders cmp -> StronglySorted (not_after cmp) (sort_by cmp l).
Proof.
  intros Ho. unfold sort_by. induction l as [|x l IH]; cbn [fold_right].
  - constructor.
  - apply insert_by_sorted; assumption.
Qed.

Lemma list_order_orders : orders list_order.
Proof.
  unfold list_order, desc.
  apply (orders_then (fun a b => order (Creator.is_featured b) (Creator.is_featured a))).
  - apply (orders_flip (fun a b => order (Creator.is_featured a) (Creator.is_featured b))).
    apply (orders_on order Creator.is_featured order_orders).
  - apply (orders_then
             (fun a b => order (Creator.featured_priority b) (Creator.featured_priority a))
             (fun a b => order (Creator.last_seen b) (Creator.last_seen a))).
    + apply (orders_flip (fun a b => order (Creator.featured_priority a)
                                           (Creator.featured_priority b))).
      apply (orders_on order Creator.featured_priority order_orders).
    + apply (orders_flip (fun a b => order (Creator.last_seen a) (Creator.last_seen b))).
      apply (orders_on order Creator.last_seen order_orders).
Qed.

Lemma export_order_orders : orders export_order.
Proof.
  unfold export_order, desc.
  apply (orders_then (fun a b => order (Creator.is_featured b) (Creator.is_featured a))
                     (fun a b => order (Creator.display_name a) (Creator.display_name b))).
  - apply (orders_flip (fun a b => order (Creator.is_featured a) (Creator.is_featured b))).
    apply (orders_on order Creator.is_featured order_orders).
  - apply (orders_on order Creator.display_name order_orders).
Qed.


(* ------------------------------------------------------------------ *)
(** *** The page GET /api/creators returns *)

Lemma sorted_firstn {A : Type} (R : A -> A -> Prop) n l :
  StronglySorted R l -> StronglySorted R (firstn n l).
Proof.
  intros H. revert n. induction H as [|x l Hs IH Hx]; intros [|n]; cbn [firstn];
    try constructor.
  - apply IH.
  - apply Forall_forall. intros y Hy. rewrite Forall_forall in Hx.
    apply Hx. rewrite <- (firstn_skipn n l). apply in_or_app. left. exact Hy.
Qed.

Lemma sorted_skipn {A : Type} (R : A -> A -> Prop) n l :
  StronglySorted R l -> StronglySorted R (skipn n l).
Proof.
  intros H. revert n. induction H as [|x l Hs IH Hx]; intros [|n]; cbn [skipn];
    try constructor; try assumption.
  apply IH.
Qed.

Lemma Qred_inject_Z z : Qred (inject_Z z) = inject_Z z.
Proof. apply Qcanon.Qred_identity. cbn. apply Z.gcd_1_r. Qed.

Lemma integer_within_inject lo hi z :
  integer_within lo hi (inject_Z z) =
  if (lo <=? z) && (z <=? hi) then Some z else None.
Proof. unfold integer_within. rewrite Qred_inject_Z. reflexivity. Qed.

(** What [LIMIT ? OFFSET ?] leaves of a sorted list. *)
Lemma limit_offset_window {A : Type} (R : A -> A -> Prop) lim off (rows rows' : list A) :
  limit_offset lim off rows = Done rows' ->
  StronglySorted R rows ->
  StronglySorted R rows' /\
  (forall l, lim = SNum (inject_Z l) -> 0 <= l ->
             (List.length rows' <= Z.to_nat l)%nat).
Proof.
  unfold limit_offset. intros H Hs.
  destruct (apply_affinity NUMERIC lim) as [|ql|] eqn:El; try discriminate.
  destruct (apply_affinity NUMERIC off) as [|qo|]; try discriminate.
  destruct (integer_within _ _ ql) as [l'|] eqn:Ei; try discriminate.
  destruct (integer_within _ _ qo) as [o'|]; try discriminate.
  injection H as <-. split.
  - destruct (_ <? 0); [apply sorted_skipn | apply sorted_firstn, sorted_skipn];
      assumption.
  - intros l -> Hl. cbn in El. injection El as <-.
    rewrite integer_within_inject in Ei.
    destruct (_ && _); [|discriminate]. injection Ei as <-.
    destruct (Z.ltb_spec l 0); [lia|]. apply firstn_le_length.
Qed.

Lemma select_creators_window e k cs params rows rows' :
  select_creators e k cs params rows = Done rows' ->
  (forall r, In r rows' -> In r rows /\ where_holds cs (map bind params) r = true) /\
  StronglySorted (not_after list_order) rows' /\
  (forall l,
     nth 0 (skipn (fold_right (fun c n => (placeholders c + n)%nat) 0%nat cs)
              (map bind params)) SNull = SNum (inject_Z l) ->
     0 <= l -> (List.length rows' <= Z.to_nat l)%nat).
Proof.
  unfold select_creators. destruct (io_ok e k); cbn [negb]; [|discriminate].
  intros H. split; [|apply (limit_offset_window _ _ _ _ _ H);
                      apply sort_by_sorted, list_order_orders].
  intros r Hin. apply (limit_offset_in _ _ _ _ _ H) in Hin.
  apply in_sort_by in Hin. apply filter_In in Hin. exact Hin.
Qed.

Lemma eq_text_inv v s : holds (SQLite.eq v (SText s)) = true -> v = SText s.
Proof.
  destruct v as [|q|t]; cbn; try discriminate.
  destruct (String.compare t s) eqn:E; try discriminate.
  apply String.compare_eq_iff in E. intros _. congruence.
Qed.

Lemma eq_num_inv v q : holds (SQLite.eq v (SNum q)) = true ->
  exists p, v = SNum p /\ (p == q)%Q.
Proof.
  destruct v as [|p|t]; cbn; try discriminate.
  destruct (Qcompare p q) eqn:E; try discriminate.
  intros _. exists p. split; [reflexivity | apply Qeq_alt; exact E].
Qed.

Lemma list_creators_query e req db :
  list_creators e req db =
  match select_creators e 0 (fst (list_query req)) (snd (list_query req))
          (creators db) with
  | Err _ => database_error
  | Done rows => Json 200 [] (JArr (map list_view rows))
  end.
Proof.
  unfold list_creators, list_query, requested_limit, requested_offset.
  destruct (truthy (query_param "status" req));
  destruct (is_undefined (query_param "featured" req));
  destruct (truthy (query_param "search" req)); reflexivity.
Qed.

Lemma list_query_limit req :
  nth 0 (skipn (fold_right (fun c n => (placeholders c + n)%nat) 0%nat
                  (fst (list_query req)))
           (map bind (snd (list_query req)))) SNull =
  bind (js_parseInt (requested_limit req)).
Proof.
  unfold list_query.
  destruct (truthy (query_param "status" req));
  destruct (is_undefined (query_param "featured" req));
  destruct (truthy (query_param "search" req)); reflexivity.
Qed.


Lemma list_query_status req s r :
  query_param "status" req = JStr s -> s <> "" ->
  where_holds (fst (list_query req)) (map bind (snd (list_query req))) r = true ->
  Creator.status r = SText s.
Proof.
  intros Hs Hne. unfold list_query. rewrite Hs. cbn [truthy].
  destruct (String.eqb_spec s ""); [contradiction|]. cbn [negb fst snd app].
  cbn [where_holds map bind nth]. intros H.
  apply andb_true_iff in H. destruct H as [H _].
  apply eq_text_inv. exact H.
Qed.

Lemma list_query_featured req f r :
  query_param "featured" req = JStr f ->
  where_holds (fst (list_query req)) (map bind (snd (list_query req))) r = true ->
  exists q, Creator.is_featured r = SNum q /\
            (q == if String.eqb f "true" then 1 else 0)%Q.
Proof.
  intros Hf. unfold list_query. rewrite Hf. cbn [is_undefined negb str_is].
  destruct (truthy (query_param "status" req));
    cbn [fst snd app where_holds map bind nth skipn placeholders]; intros H;
    repeat (apply andb_true_iff in H; destruct H as [? H]);
    match goal with
    | Hq : holds (column_eq NUMERIC (Creator.is_featured r) _) = true |- _ =>
        unfold column_eq in Hq; cbn [apply_affinity] in Hq;
        destruct (eq_num_inv _ _ Hq) as (q & -> & Hq'); exists q;
        split; [reflexivity | exact Hq']
    end.
Qed.

(** X1. Whenever GET /api/creators answers 200, the records it returns are
    the list views of rows of the creators table, in the order of the query
    (is_featured, then featured_priority, then last_seen, each descending);
    every returned row has the requested status when a non-empty status is
    given, and the requested featured flag when featured is given; there
    are at most limit records when the limit parses to a non-negative
    integer, and at most 50 when no limit is given. *)
Theorem list_creators_window (e : env) (req : request) (db : database)
  (objs : list jsval) :
  list_creators e req db = Json 200 [] (JArr objs) ->
  exists rows,
    objs = map list_view rows /\
    (forall r, In r rows -> In r (creators db)) /\
    StronglySorted (not_after list_order) rows /\
    (forall s, query_param "status" req = JStr s -> s <> "" ->
               forall r, In r rows -> Creator.status r = SText s) /\
    (forall f, query_param "featured" req = JStr f ->
               forall r, In r rows ->
                 exists q, Creator.is_featured r = SNum q /\
                           (q == if String.eqb f "true" then 1 else 0)%Q) /\
    (forall l, js_parseInt (requested_limit req) = JNum (inject_Z l) -> 0 <= l ->
               (List.length objs <= Z.to_nat l)%nat) /\
    (query_param "limit" req = JUndefined -> (List.length objs <= 50)%nat).
Proof.
  rewrite list_creators_query.
  destruct (select_creators _ _ _ _ _) as [rows|m] eqn:Hsel; [|discriminate].
  intros H. injection H as <-.
  destruct (select_creators_window _ _ _ _ _ _ Hsel) as (Hin & Hsorted & Hlim).
  rewrite list_query_limit in Hlim.
  exists rows. split; [reflexivity|].
  split; [intros r Hr; apply (Hin r Hr)|].
  split; [exact Hsorted|].
  split; [intros s Hs Hne r Hr; apply (list_query_status req s r Hs Hne), (Hin r Hr)|].
  split; [intros f Hf r Hr; apply (list_query_featured req f r Hf), (Hin r Hr)|].
  split.
  - intros l Hl Hpos. rewrite length_map. apply (Hlim l); [|exact Hpos].
    rewrite Hl. reflexivity.
  - intros Hu. rewrite length_map. apply (Hlim 50); [|lia].
    unfold requested_limit. rewrite Hu. reflexivity.
Qed.


(** X1, a worked instance: the live creators of the sample store, one per page. *)
Lemma list_creators_window_witness :
  exists rows,
    [list_view bob] = map list_view rows /\
    (forall r, In r rows -> In r (creators sample_db)) /\
    (forall r, In r rows -> Creator.status r = SText "live") /\
    (List.length [list_view bob] <= 1)%nat.
Proof.
  destruct (list_creators_window sample_env live_page sample_db [list_view bob] eq_refl)
    as (rows & H1 & H2 & _ & H4 & _ & H6 & _).
  exists rows. split; [exact H1|]. split; [exact H2|]. split.
  - apply (H4 "live" eq_refl). discriminate.
  - apply (H6 1 eq_refl). lia.
Defined.

(* ------------------------------------------------------------------ *)
(** *** Search *)





Lemma list_ascii_app s t :
  list_ascii_of_string (s ++ t) = list_ascii_of_string s ++ list_ascii_of_string t.
Proof. induction s as [|c s IH]; cbn; [reflexivity | rewrite IH; reflexivity]. Qed.








(** X4. The export answers 500 when its query fails. Otherwise it returns,
    with the two attachment headers, the single views of all creators: each
    row exactly once, rows of larger is_featured first and rows of equal
    is_featured by display name ascending. *)
Theorem export_is_sorted_permutation (e : env) (req : request) (db : database) :
  (io_ok e 0 = false -> export_creators e req db = database_error) /\
  (io_ok e 0 = true ->
   exists rows,
     export_creators e req db =
       Json 200
         [("Content-Type", "application/json");
          ("Content-Disposition", "attachment; filename=psycheverse-creators.json")]
         (JArr (map single_view rows)) /\
     Permutation rows (creators db) /\
     StronglySorted
       (fun x y =>
          order (Creator.is_featured y) (Creator.is_featured x) = Lt \/
          (order (Creator.is_featured y) (Creator.is_featured x) = Eq /\
           order (Creator.display_name x) (Creator.display_name y) <> Gt))
       rows).
Proof.
  unfold export_creators. split; intros Hio; rewrite Hio; cbn [negb]; [reflexivity|].
  exists (sort_by export_order (creators db)). split; [reflexivity|].
  split; [apply sort_by_perm|].
  pose proof (sort_by_sorted export_order (creators db) export_order_orders) as H.
  induction H as [|x l Hs IH Hx]; constructor; [exact IH|].
  apply Forall_forall. intros y Hy. rewrite Forall_forall in Hx.
  specialize (Hx y Hy). unfold not_after, export_order, then_by, desc in Hx.
  destruct (order (Creator.is_featured y) (Creator.is_featured x));
    [right; split; [reflexivity | exact Hx] | left; reflexivity | congruence].
Qed.

(** X4, a worked instance on the sample store. *)
Lemma export_is_sorted_permutation_witness :
  exists rows,
    export_creators sample_env (with_header None) sample_db =
      Json 200
        [("Content-Type", "application/json");
         ("Content-Disposition", "attachment; filename=psycheverse-creators.json")]
        (JArr (map single_view rows)) /\
    Permutation rows [ann; bob; cy].
Proof.
  destruct (proj2 (export_is_sorted_permutation sample_env (with_header None) sample_db)
              eq_refl) as (rows & H1 & H2 & _).
  exists rows. split; [exact H1 | exact H2].
Defined.

(** *** Dashboard counts *)

Lemma fold_Qplus_compat (ps : list Q) : forall q q',
  (q == q')%Q -> (fold_left Qplus ps q == fold_left Qplus ps q')%Q.
Proof.
  induction ps as [|p ps IH]; intros q q' Hq; cbn [fold_left]; [exact Hq|].
  apply IH. rewrite Hq. reflexivity.
Qed.

Lemma fold_Qplus_inject zs : forall a,
  (fold_left Qplus (map inject_Z zs) (inject_Z a) == inject_Z (fold_left Z.add zs a))%Q.
Proof.
  induction zs as [|z zs IH]; intros a; cbn [map fold_left]; [reflexivity|].
  rewrite <- IH. apply fold_Qplus_compat. rewrite inject_Z_plus. reflexivity.
Qed.

(** A sum that does not overflow is the exact total. *)
Lemma sum_done vs v :
  sum vs = Done v ->
  v = match numbers vs with
      | [] => SNull
      | q :: qs => SNum (Qred (fold_left Qplus qs q))
      end.
Proof.
  unfold sum. destruct (sum_overflows vs 0); [discriminate|].
  destruct (numbers vs); intros H; injection H as <-; reflexivity.
Qed.

(** SUM over indicator values counts the rows on which the condition
    holds, provided there is a row at all. *)
Lemma sum_one_if {A : Type} (c : A -> option bool) (rows : list A) v :
  rows <> [] ->
  sum (map (fun r => one_if (c r)) rows) = Done v ->
  v = of_Z (Z.of_nat (List.length (filter (fun r => holds (c r)) rows))).
Proof.
  intros Hne Hs. apply sum_done in Hs. rewrite Hs. clear Hs v.
  assert (Hn : numbers (map (fun r => one_if (c r)) rows) =
               map inject_Z (map (fun r => if holds (c r) then 1 else 0) rows)).
  { clear Hne. induction rows as [|r rows IH]; cbn [map numbers]; [reflexivity|].
    unfold one_if at 1, case_when. destruct (holds (c r)); cbn [of_Z as_number];
      rewrite IH; reflexivity. }
  rewrite Hn. destruct rows as [|r rows]; [contradiction|].
  cbn [map]. unfold of_Z. f_equal.
  rewrite <- (Qred_inject_Z (Z.of_nat _)). apply Qred_complete.
  rewrite fold_Qplus_inject.
  assert (Hc : forall l a,
             fold_left Z.add (map (fun r => if holds (c r) then 1 else 0) l) a =
             a + Z.of_nat (List.length (filter (fun r => holds (c r)) l))).
  { induction l as [|x l IH]; intros a; cbn [map fold_left filter List.length].
    - lia.
    - rewrite IH. destruct (holds (c x)); cbn [List.length]; lia. }
  rewrite Hc. cbn [filter]. destruct (holds (c r)); cbn [List.length];
    apply inject_Z_injective; lia.
Qed.

(** Counting up to the 64-bit bound does not overflow. *)
Lemma sum_one_if_runs {A : Type} (c : A -> option bool) (rows : list A) :
  Z.of_nat (List.length rows) <= int64_max ->
  exists v, sum (map (fun r => one_if (c r)) rows) = Done v.
Proof.
  intros Hlen.
  assert (H : forall l acc, 0 <= acc -> acc + Z.of_nat (List.length l) <= int64_max ->
                sum_overflows (map (fun r => one_if (c r)) l) acc = false).
  { induction l as [|r l IH]; intros acc H0 H1; cbn [map sum_overflows]; [reflexivity|].
    cbn [List.length] in H1.
    assert (Hi : as_integer (one_if (c r)) = Some (if holds (c r) then 1 else 0)).
    { unfold one_if, case_when. destruct (holds (c r)); reflexivity. }
    assert (Hshape : exists q, one_if (c r) = SNum q).
    { unfold one_if, case_when. destruct (holds (c r)); eexists; reflexivity. }
    destruct Hshape as [q Hq]. rewrite Hq in *. rewrite Hi.
    unfold int64_min, int64_max in *.
    destruct (holds (c r));
      (rewrite (proj2 (andb_true_iff _ _)) by (split; apply Z.leb_le; lia);
       apply IH; lia). }
  unfold sum. rewrite (H rows 0) by lia.
  destruct (numbers _); eexists; reflexivity.
Qed.

(** A sum whose integer total stays in range does not overflow. *)
Lemma sum_within vs : forall acc,
  total_overflows vs acc = false -> sum_overflows vs acc = false.
Proof.
  induction vs as [|v vs IH]; intros acc H; [reflexivity|].
  destruct v as [|q|s]; cbn [total_overflows sum_overflows] in *.
  - apply IH, H.
  - destruct (as_integer (SNum q)) as [z|]; [|reflexivity].
    destruct ((int64_min <=? acc + z) && (acc + z <=? int64_max));
      [apply IH, H | discriminate].
  - destruct (as_integer (SText s)) as [z|]; [|reflexivity].
    destruct ((int64_min <=? acc + z) && (acc + z <=? int64_max));
      [apply IH, H | discriminate].
Qed.

Lemma sum_within_done vs :
  total_overflows vs 0 = false -> exists v, sum vs = Done v.
Proof.
  intros H. unfold sum. rewrite (sum_within vs 0 H).
  destruct (numbers vs); eexists; reflexivity.
Qed.

(** X5. Whenever the dashboard answers 200, it reports total_creators and
    total_subscriptions as the numbers of rows; on a non-empty creators
    table it reports live_creators, featured_creators and paid_members as
    the numbers of rows with status live, with is_featured = 1 and with
    is_paid_member = 1; and on a non-empty subscriptions table
    active_subscriptions as the number of rows with status active. When its
    three queries meet no I/O failure (and the tables have no more rows
    than a 64-bit count holds): it answers 500 when the sum of the viewers
    or the sum of the revenue ends in an integer overflow (the summed
    column holding no number of unknown class); and it answers 200 when
    neither integer total leaves the 64-bit range. *)
Theorem dashboard_counts (e : env) (req : request) (db : database) :
  (forall body,
     dashboard e req db = Json 200 [] body ->
     exists stats subs activity,
       body = JObj [("creators", stats); ("subscriptions", subs);
                    ("recent_activity", activity)] /\
       field "total_creators" stats = count (fun _ => true) (creators db) /\
       field "total_subscriptions" subs = count (fun _ => true) (subscriptions db) /\
       (creators db <> [] ->
        field "live_creators" stats = count is_live (creators db) /\
        field "featured_creators" stats = count is_featured_row (creators db) /\
        field "paid_members" stats = count is_paid_row (creators db)) /\
       (subscriptions db <> [] ->
        field "active_subscriptions" subs = count is_active (subscriptions db))) /\
  (io_ok e 0 = true -> io_ok e 1 = true -> io_ok e 2 = true ->
   Z.of_nat (List.length (creators db)) <= int64_max ->
   Z.of_nat (List.length (subscriptions db)) <= int64_max ->
   ((Forall class_known (map Creator.viewers (creators db)) /\
     exists m, sum (map Creator.viewers (creators db)) = Err m) \/
    (Forall class_known (map revenue (subscriptions db)) /\
     exists m, sum (map revenue (subscriptions db)) = Err m) ->
    dashboard e req db = database_error) /\
   (total_overflows (map Creator.viewers (creators db)) 0 = false ->
    total_overflows (map revenue (subscriptions db)) 0 = false ->
    exists body, dashboard e req db = Json 200 [] body)).
Proof.
  assert (Hall : forall A (l : list A), filter (fun _ => true) l = l).
  { induction l as [|x l IH]; cbn; congruence. }
  split.
  - intros body. unfold dashboard.
    destruct (io_ok e 0); cbn [negb]; [|discriminate].
    unfold creator_stats.
    destruct (sum (map (fun r => one_if (SQLite.eq (Creator.status r) (SText "live")))
                     (creators db))) as [live|] eqn:E1; [|discriminate].
    destruct (sum (map (fun r => one_if (SQLite.eq (Creator.is_featured r) (of_Z 1)))
                     (creators db))) as [feat|] eqn:E2; [|discriminate].
    destruct (sum (map (fun r => one_if (SQLite.eq (Creator.is_paid_member r) (of_Z 1)))
                     (creators db))) as [paid|] eqn:E3; [|discriminate].
    destruct (sum (map Creator.viewers (creators db))) as [viewers|]; [|discriminate].
    destruct (io_ok e 1); cbn [negb]; [|discriminate].
    unfold subscription_stats.
    destruct (sum (map (fun r => one_if (SQLite.eq (Subscription.status r) (SText "active")))
                     (subscriptions db))) as [act|] eqn:E4; [|discriminate].
    destruct (sum (map (fun r => case_when _ _ _) (subscriptions db))) as [rev|];
      [|discriminate].
    destruct (io_ok e 2); cbn [negb]; [|discriminate].
    intros H. injection H as <-. eexists _, _, _. split; [reflexivity|].
    unfold count. rewrite !Hall.
    split; [reflexivity|]. split; [reflexivity|]. split.
    + intros Hne.
      rewrite (sum_one_if _ _ _ Hne E1), (sum_one_if _ _ _ Hne E2),
        (sum_one_if _ _ _ Hne E3).
      split; [reflexivity|]. split; reflexivity.
    + intros Hne. rewrite (sum_one_if _ _ _ Hne E4). reflexivity.
  - intros H0 H1 H2 Hc Hs. unfold dashboard. rewrite H0, H1, H2. cbn [negb].
    unfold creator_stats, subscription_stats. fold revenue.
    destruct (sum_one_if_runs (fun r => SQLite.eq (Creator.status r) (SText "live"))
                (creators db) Hc) as [v1 ->].
    destruct (sum_one_if_runs (fun r => SQLite.eq (Creator.is_featured r) (of_Z 1))
                (creators db) Hc) as [v2 ->].
    destruct (sum_one_if_runs (fun r => SQLite.eq (Creator.is_paid_member r) (of_Z 1))
                (creators db) Hc) as [v3 ->].
    destruct (sum_one_if_runs (fun r => SQLite.eq (Subscription.status r) (SText "active"))
                (subscriptions db) Hs) as [v4 ->].
    change (fun r : Subscription.t =>
              case_when (SQLite.eq (Subscription.status r) (SText "active"))
                (Subscription.amount r) (of_Z 0)) with revenue.
    split.
    + intros [[_ [m Hm]] | [_ [m Hm]]]; rewrite Hm; [reflexivity|].
      destruct (sum (map Creator.viewers (creators db))); reflexivity.
    + intros Hv Hm.
      destruct (sum_within_done _ Hv) as [v ->].
      destruct (sum_within_done _ Hm) as [m ->]. eexists. reflexivity.
Qed.

(** X5, a worked instance: three creators, one live, one paid member; two
    creators whose viewers overflow the sum; and the sample store, whose
    totals stay in range. *)
Lemma dashboard_counts_witness :
  (exists stats subs activity,
     dashboard sample_env (with_header None) sample_db =
       Json 200 [] (JObj [("creators", stats); ("subscriptions", subs);
                          ("recent_activity", activity)]) /\
     field "total_creators" stats = JNum 3 /\
     field "live_creators" stats = JNum 1 /\
     field "paid_members" stats = JNum 1) /\
  dashboard sample_env (with_header None) crowded_db = database_error /\
  (exists body, dashboard sample_env (with_header None) sample_db = Json 200 [] body).
Proof.
  split; [|split].
  - destruct (proj1 (dashboard_counts sample_env (with_header None) sample_db) _ eq_refl)
      as (stats & subs & activity & H1 & H2 & _ & H4 & _).
    exists stats, subs, activity. rewrite <- H1. split; [reflexivity|].
    destruct (H4 ltac:(discriminate)) as (Hl & _ & Hp).
    rewrite H2, Hl, Hp. split; [reflexivity|]. split; reflexivity.
  - apply (proj2 (dashboard_counts sample_env (with_header None) crowded_db)
             eq_refl eq_refl eq_refl);
      [vm_compute; discriminate | vm_compute; discriminate |].
    left. split; [repeat constructor; vm_compute; discriminate | eexists; reflexivity].
  - apply (proj2 (dashboard_counts sample_env (with_header None) sample_db)
             eq_refl eq_refl eq_refl);
      [vm_compute; discriminate | vm_compute; discriminate | reflexivity | reflexivity].
Defined.

(* ------------------------------------------------------------------ *)
(** *** Ids under the mutating routes *)

Lemma update_rows_ids bs idp rows rows' n :
  ~ In "id" (map fst bs) ->
  update_rows bs idp rows = Done (rows', n) ->
  map Creator.id rows' = map Creator.id rows.
Proof.
  intros Hid H. apply update_rows_shape in H. destruct H as [F _].
  induction F as [|r r' rows rows' Hr F IH]; cbn [map]; [reflexivity|].
  f_equal; [|exact IH].
  destruct (id_matches idp r).
  - apply (apply_sets_keeps_id _ _ _ Hr Hid).
  - congruence.
Qed.

Lemma map_cases_ids (P : Creator.t -> bool) (f : Creator.t -> Creator.t) rows :
  (forall r, Creator.id (f r) = Creator.id r) ->
  map Creator.id (map (fun r => if P r then f r else r) rows) = map Creator.id rows.
Proof.
  intros Hf. rewrite map_map. apply map_ext. intros r. destruct (P r); auto.
Qed.

Lemma bulk_item_ids e k u rows rows' :
  bulk_item e k u rows = Some rows' -> map Creator.id rows' = map Creator.id rows.
Proof.
  unfold bulk_item.
  destruct (get_prop "status" u) as [s|]; [|discriminate].
  destruct (get_prop "viewers" u) as [v|]; [|discriminate].
  destruct (get_prop "id" u) as [i|]; [|discriminate].
  destruct (io_ok e k) eqn:Hio.
  - rewrite (bulk_run e k s v i rows Hio). intros H. injection H as <-.
    apply map_cases_ids. reflexivity.
  - unfold run_update, bulk_statement.
    cbn -[update_rows id_matches bind apply_affinity js_or].
    rewrite Hio. intros H. injection H as <-. reflexivity.
Qed.

Lemma bulk_each_ids e items : forall k rows,
  map Creator.id (snd (bulk_each e k items rows)) = map Creator.id rows.
Proof.
  induction items as [|u items IH]; intros k rows; cbn [bulk_each]; [reflexivity|].
  destruct (bulk_item e k u rows) as [rows'|] eqn:E; [|reflexivity].
  rewrite IH. apply (bulk_item_ids _ _ _ _ _ E).
Qed.

(** X7. Whatever the request, the clock and the I/O failures,
    PUT /api/creators/:id, POST /api/creators/:id/status and
    POST /api/creators/bulk-status leave the ids of the creators table, row
    by row, as they were (no row is added, dropped, moved or renumbered),
    and leave the subscriptions table untouched. *)
Theorem mutations_keep_ids (e : env) (req : request) (db : database) :
  let kept (db' : database) :=
    map Creator.id (creators db') = map Creator.id (creators db) /\
    subscriptions db' = subscriptions db in
  kept (snd (update_creator e req db)) /\
  kept (snd (creator_status e req db)) /\
  kept (snd (bulk_status e req db)).
Proof.
  cbv zeta. split; [|split].
  - unfold update_creator.
    pose proof (update_run e req (creators db)) as Hrun.
    destruct (update_statement req) as [sets params]. cbn [fst snd] in Hrun.
    rewrite Hrun. destruct (io_ok e 0); [|split; reflexivity].
    destruct (update_rows _ _ _) as [[rows n]|m] eqn:Hu; [|split; reflexivity].
    assert (Hids : map Creator.id rows = map Creator.id (creators db)).
    { apply (update_rows_ids _ _ _ _ _) with (2 := Hu).
      rewrite map_app, map_map. cbn [map fst].
      rewrite (map_ext _ fst) by reflexivity.
      apply (proj2 (supplied_columns req)). }
    destruct (n =? 0); split; assumption || reflexivity.
  - destruct (io_ok e 0) eqn:Hio.
    + rewrite (creator_status_rows e req db Hio). split.
      * apply map_cases_ids. reflexivity.
      * rewrite (creator_status_result e req db Hio). cbn [snd].
        unfold insert_status_change. destruct (io_ok e 1); reflexivity.
    + unfold creator_status. destruct (status_statement req) as [sets params] eqn:Es.
      assert (Hr : run_update e 0 sets params (creators db) = io_error \/
                   exists m, run_update e 0 sets params (creators db) = Err m).
      { unfold run_update. destruct (negb _); [right; eexists; reflexivity|].
        destruct (bind_assignments e sets (map bind params)) as [b [|p [|q ps]]];
          rewrite ?Hio; [left | left | right; eexists]; reflexivity. }
      destruct Hr as [Hr | [m Hr]]; rewrite Hr; split; reflexivity.
  - unfold bulk_status.
    destruct (field "updates" (body req)) as [| | | | | |items|]; try (split; reflexivity).
    pose proof (bulk_each_ids e items 0%nat (creators db)) as H.
    destruct (bulk_each e 0 items (creators db)) as [[|] rows]; cbn [snd] in *;
      split; assumption || reflexivity.
Qed.


(* ------------------------------------------------------------------ *)
(** *** Requests the gates let through *)

(** X8. The gates of a route let a request through as a given user exactly
    when the header carries a token, jwt.verify decodes it to that user and,
    on a route with requireAdmin, the role of the user is admin or
    super_admin. On the routes without requireAdmin (verify, list, get,
    bulk-status, dashboard) any verified user passes, whatever its role. A
    request that passes is answered by the handler. *)
Theorem gates_accept (jwt_verify : string -> option jsval) (r : route) (req : request)
  (user : jsval) :
  (gates jwt_verify r req = inr user <->
   truthy (request_token req) = true /\
   jwt_verify (to_string (request_token req)) = Some user /\
   (admin_gated r = true -> admin_role user)) /\
  (gates jwt_verify r req = inr user ->
   forall handler e db, serve jwt_verify r handler e req db = handler e req db).
Proof.
  split.
  - unfold gates, authenticateToken, admin_role.
    destruct (truthy (request_token req)); cbn [negb].
    2:{ split; [discriminate | intros (H & _); discriminate]. }
    destruct (jwt_verify (to_string (request_token req))) as [u|].
    2:{ split; [discriminate | intros (_ & H & _); discriminate]. }
    destruct (admin_gated r).
    + unfold requireAdmin. destruct (get_prop "role" u) as [role|] eqn:Er.
      * destruct (str_is role "admin") eqn:E1; cbn [negb andb].
        { split.
          - intros H. injection H as <-. repeat split. intros _. left.
            rewrite Er. destruct role; try discriminate. cbn in E1.
            apply String.eqb_eq in E1. congruence.
          - intros (_ & H & _). congruence. }
        destruct (str_is role "super_admin") eqn:E2; cbn [negb].
        { split.
          - intros H. injection H as <-. repeat split. intros _. right.
            rewrite Er. destruct role; try discriminate. cbn in E2.
            apply String.eqb_eq in E2. congruence.
          - intros (_ & H & _). congruence. }
        split; [discriminate|]. intros (_ & H & Hr). injection H as <-.
        destruct (Hr eq_refl) as [Hr'|Hr']; rewrite Er in Hr'; injection Hr' as ->;
          cbn in *; discriminate.
      * split; [discriminate|]. intros (_ & H & Hr). injection H as <-.
        destruct (Hr eq_refl) as [Hr'|Hr']; rewrite Er in Hr'; discriminate.
    + split.
      * intros H. injection H as <-. repeat split. discriminate.
      * intros (_ & H & _). congruence.
  - intros H handler e db. unfold serve. rewrite H. reflexivity.
Qed.

(** X8, a worked instance: an admin token on the export, and a viewer token
    on the bulk route. *)
Lemma gates_accept_witness :
  gates sample_verify ExportCreators (with_header (Some "Bearer admin-token")) =
    inr (JObj [("id", JNum 1); ("username", JStr "admin"); ("role", JStr "super_admin")]) /\
  gates sample_verify CreatorsBulkStatus (with_header (Some "Bearer viewer-token")) =
    inr (JObj [("id", JNum 7); ("username", JStr "eve"); ("role", JStr "viewer")]) /\
  serve sample_verify ExportCreators export_handler sample_env
    (with_header (Some "Bearer admin-token")) sample_db =
  export_handler sample_env (with_header (Some "Bearer admin-token")) sample_db.
Proof.
  split; [|split].
  - apply (proj1 (gates_accept sample_verify ExportCreators
                    (with_header (Some "Bearer admin-token")) _)).
    split; [reflexivity|]. split; [reflexivity|]. intros _. right. reflexivity.
  - apply (proj1 (gates_accept sample_verify CreatorsBulkStatus
                    (with_header (Some "Bearer viewer-token")) _)).
    split; [reflexivity|]. split; [reflexivity|]. discriminate.
  - apply (proj2 (gates_accept sample_verify ExportCreators
                    (with_header (Some "Bearer admin-token"))
                    (JObj [("id", JNum 1); ("username", JStr "admin");
                           ("role", JStr "super_admin")]))).
    reflexivity.
Defined.

(* ------------------------------------------------------------------ *)
(** *** Deleting a creator *)






(* ------------------------------------------------------------------ *)
(** *** Creating a creator *)

Lemma fold_max_ge (l : list Z) : forall a,
  a <= fold_left Z.max l a /\ (forall x, In x l -> x <= fold_left Z.max l a).
Proof.
  induction l as [|y l IH]; intros a; cbn [fold_left In].
  - split; [lia | tauto].
  - destruct (IH (Z.max a y)) as [H1 H2]. split; [lia|].
    intros x [<- | Hx]; [lia | auto].
Qed.

Lemma text_affinity_null v : apply_affinity TEXT v = SNull <-> v = SNull.
Proof. destruct v; cbn; split; congruence. Qed.

Lemma create_creator_run e req c :
  create_creator e req c =
  if negb (io_ok e 0) then (database_error, c)
  else match bind (field "display_name" (body req)) with
       | SNull => (database_error, c)
       | _ =>
           let id := fold_left Z.max (map Creator.id (creators (tables c)))
                       (creators_seq c) + 1 in
           (Json 200 []
              (JObj [("id", JNum (inject_Z id));
                     ("message", JStr "Creator created successfully")]),
            Catalog (with_creators (tables c)
                       (creators (tables c) ++ [created_row e req id])) id)
       end.
Proof.
  unfold create_creator, insert_creator.
  destruct (io_ok e 0); cbn [negb]; [|reflexivity].
  cbn [nth].
  destruct (bind (field "display_name" (body req))) eqn:En; cbn [apply_affinity];
    [reflexivity| |];
    (unfold created_row; rewrite En; cbn [apply_affinity];
     destruct (file req); reflexivity).
Qed.

(** X11. POST /api/creators answers 500 and stores nothing when the statement
    fails or when display_name is missing, null or NaN (the column is NOT
    NULL). Otherwise it appends one row to the table and returns its id,
    which is greater than the AUTOINCREMENT counter and than every id in
    the table; so ids that were distinct stay distinct. *)
Theorem create_creator_effect (e : env) (req : request) (c : catalog) :
  let name := bind (field "display_name" (body req)) in
  (io_ok e 0 = false \/ name = SNull -> create_creator e req c = (database_error, c)) /\
  (io_ok e 0 = true -> name <> SNull ->
   exists id,
     create_creator e req c =
       (Json 200 []
          (JObj [("id", JNum (inject_Z id));
                 ("message", JStr "Creator created successfully")]),
        Catalog (with_creators (tables c)
                   (creators (tables c) ++ [created_row e req id])) id) /\
     creators_seq c < id /\
     (forall r, In r (creators (tables c)) -> Creator.id r < id) /\
     (NoDup (map Creator.id (creators (tables c))) ->
      NoDup (map Creator.id (creators (tables c) ++ [created_row e req id])))).
Proof.
  cbv zeta. rewrite create_creator_run. split.
  - intros [Hio | Hn]; [rewrite Hio; reflexivity|].
    rewrite Hn. destruct (negb _); reflexivity.
  - intros Hio Hn. rewrite Hio. cbn [negb].
    set (id := fold_left Z.max (map Creator.id (creators (tables c))) (creators_seq c) + 1).
    exists id.
    destruct (fold_max_ge (map Creator.id (creators (tables c))) (creators_seq c))
      as [H1 H2].
    assert (Hlt : forall r, In r (creators (tables c)) -> Creator.id r < id).
    { intros r Hr. specialize (H2 _ (in_map Creator.id _ _ Hr)). subst id. lia. }
    split; [|split; [subst id; lia | split; [exact Hlt|]]].
    + destruct (bind (field "display_name" (body req))); [contradiction| |]; reflexivity.
    + intros Hnd. rewrite map_app. cbn [map created_row Creator.id].
      apply NoDup_app; try (constructor; [intros []|constructor]).
      * exact Hnd.
      * intros x Hx [<- | []]. apply in_map_iff in Hx. destruct Hx as (r & Hr & Hin).
        specialize (Hlt r Hin). lia.
Qed.

(** X11, a worked instance: the counter, at 7, is ahead of the ids. *)
Lemma create_creator_effect_witness :
  exists id,
    fst (create_creator sample_env dee sample_catalog) =
      Json 200 [] (JObj [("id", JNum (inject_Z id));
                         ("message", JStr "Creator created successfully")]) /\
    7 < id /\
    forall r, In r [ann; bob; cy] -> Creator.id r < id.
Proof.
  destruct (proj2 (create_creator_effect sample_env dee sample_catalog) eq_refl
              ltac:(discriminate))
    as (id & H1 & H2 & H3 & _).
  exists id. rewrite H1. split; [reflexivity|]. split; [exact H2 | exact H3].
Defined.

(* ------------------------------------------------------------------ *)
(** *** Reading a created creator back *)

Lemma id_matches_literal seg id r :
  numeric_literal seg = Some (inject_Z id) ->
  id_matches (SText seg) r = (Creator.id r =? id).
Proof.
  intros H. unfold id_matches, column_eq. cbn [apply_affinity]. rewrite H.
  unfold of_Z, SQLite.eq, order, holds.
  destruct (Z.eqb_spec (Creator.id r) id) as [->|Hne].
  - rewrite (proj1 (Qeq_alt _ _) (Qeq_refl _)). reflexivity.
  - destruct (Qcompare _ _) eqn:E; try reflexivity.
    apply Qeq_alt in E. apply (proj1 (inject_Z_injective _ _)) in E. contradiction.
Qed.

Lemma find_app_last {A : Type} (p : A -> bool) (l : list A) (x : A) :
  (forall y, In y l -> p y = false) -> p x = true -> find p (l ++ [x]) = Some x.
Proof.
  intros Hl Hx. induction l as [|y l IH]; cbn [app find].
  - rewrite Hx. reflexivity.
  - rewrite (Hl y) by (left; reflexivity). apply IH. intros; apply Hl; right; assumption.
Qed.

(** X12. A creator that POST /api/creators has just created is returned by
    GET /api/creators/:id under the id the reply gave: with the display name
    as stored, status offline, viewers 0, no last_live_start and no
    last_seen, and created_at the time of the insert, whatever status or
    viewers the body carried; with is_featured 0 when the body has none; and
    with platforms an empty list when the platforms of the body is falsy and
    not a string. *)
Theorem create_then_get (e e' : env) (req req' : request) (c c' : catalog)
  (id : Z) (message : jsval) :
  create_creator e req c =
    (Json 200 [] (JObj [("id", JNum (inject_Z id)); ("message", message)]), c') ->
  numeric_literal (params_id req') = Some (inject_Z id) ->
  io_ok e' 0 = true ->
  exists row,
    get_creator e' req' (tables c') = Json 200 [] (single_view row) /\
    Creator.id row = id /\
    Creator.display_name row = stored "display_name" (field "display_name" (body req)) /\
    Creator.status row = SText "offline" /\
    Creator.viewers row = SNum 0 /\
    Creator.last_live_start row = SNull /\
    Creator.last_seen row = SNull /\
    Creator.created_at row = timestamp e /\
    (is_undefined (field "is_featured" (body req)) = true ->
     Creator.is_featured row = SNum 0) /\
    (is_string (field "platforms" (body req)) = false ->
     truthy (field "platforms" (body req)) = false ->
     field "platforms" (single_view row) = JArr []).
Proof.
  rewrite create_creator_run. intros Hc Hseg Hio'.
  destruct (io_ok e 0); cbn [negb] in Hc; [|discriminate].
  destruct (bind (field "display_name" (body req))) eqn:En; [discriminate| |];
    cbv zeta in Hc; injection Hc as Hid _ <-; subst id;
    (eexists (created_row e req _));
    (split;
     [ unfold get_creator, select_creator_by_id; rewrite Hio';
       cbn [negb bind tables with_creators creators];
       rewrite find_app_last;
       [ reflexivity
       | intros y Hy; rewrite (id_matches_literal _ _ _ Hseg);
         apply Z.eqb_neq;
         pose proof (proj2 (fold_max_ge (map Creator.id (creators (tables c)))
                              (creators_seq c)) _ (in_map Creator.id _ _ Hy));
         lia
       | rewrite (id_matches_literal _ _ _ Hseg); apply Z.eqb_refl ]
     | ]);
    (split; [reflexivity|]); (split; [reflexivity|]); (split; [reflexivity|]);
    (split; [reflexivity|]); (split; [reflexivity|]); (split; [reflexivity|]);
    (split; [reflexivity|]);
    (split;
     [ intros Hu; unfold created_row; cbn [Creator.is_featured]; unfold field_or;
       destruct (field "is_featured" (body req)); try discriminate; reflexivity
     | intros Hs Ht; unfold single_view, created_row, js_or; rewrite Hs, Ht;
       reflexivity ]).
Qed.

(** X12, a worked instance: Dee, created with id 8, read back. *)
Lemma create_then_get_witness :
  exists row,
    get_creator sample_env (on_creator "8" (JObj [])) (tables dee_created) =
      Json 200 [] (single_view row) /\
    Creator.id row = 8 /\
    Creator.status row = SText "offline" /\
    field "platforms" (single_view row) = JArr [].
Proof.
  destruct (create_then_get sample_env sample_env dee (on_creator "8" (JObj []))
              sample_catalog dee_created 8 (JStr "Creator created successfully")
              eq_refl eq_refl eq_refl)
    as (row & H1 & H2 & _ & H4 & _ & _ & _ & _ & _ & H10).
  exists row. split; [exact H1|]. split; [exact H2|]. split; [exact H4|].
  apply H10; reflexivity.
Defined.

(** X13. Ids are not reused: once a creator was created with the id id1,
    whatever happened to the table since (that creator deleted, for
    instance), the next creator gets an id greater than id1, and no row of
    the table has an id greater than the new one. *)
Theorem create_ids_increase (e1 e3 : env) (req1 req3 : request) (c c1 c3 : catalog)
  (db2 : database) (id1 id3 : Z) (m1 m3 : jsval) :
  create_creator e1 req1 c =
    (Json 200 [] (JObj [("id", JNum (inject_Z id1)); ("message", m1)]), c1) ->
  create_creator e3 req3 (Catalog db2 (creators_seq c1)) =
    (Json 200 [] (JObj [("id", JNum (inject_Z id3)); ("message", m3)]), c3) ->
  id1 < id3 /\ forall r, In r (creators (tables c3)) -> Creator.id r <= id3.
Proof.
  rewrite !create_creator_run. intros H1 H3.
  destruct (io_ok e1 0); cbn [negb] in H1; [|discriminate].
  destruct (io_ok e3 0); cbn [negb] in H3; [|discriminate].
  assert (Hseq : creators_seq c1 = id1).
  { destruct (bind (field "display_name" (body req1))); [discriminate| |];
      cbv zeta in H1; injection H1 as Hid _ <-; exact Hid. }
  cbn [tables creators_seq] in H3.
  destruct (fold_max_ge (map Creator.id (creators db2)) (creators_seq c1)) as [G1 G2].
  assert (H : fold_left Z.max (map Creator.id (creators db2)) (creators_seq c1) + 1 = id3 /\
              creators (tables c3) =
              creators db2 ++ [created_row e3 req3 id3]).
  { destruct (bind (field "display_name" (body req3))); [discriminate| |];
      cbv zeta in H3; injection H3 as Hid _ <-; rewrite Hid; split; reflexivity. }
  destruct H as [Hid Hrows]. split; [lia|].
  intros r Hr. rewrite Hrows in Hr. apply in_app_iff in Hr. destruct Hr as [Hr | [<- | []]].
  - specialize (G2 _ (in_map Creator.id _ _ Hr)). lia.
  - cbn. lia.
Qed.


(** X13, a worked instance: Dee created, deleted and created again. *)
Lemma create_ids_increase_witness :
  8 < 9 /\ forall r, In r (creators (tables dee_again)) -> Creator.id r <= 9.
Proof.
  exact (create_ids_increase sample_env sample_env dee dee sample_catalog dee_created
           dee_again (tables dee_deleted) 8 9
           (JStr "Creator created successfully") (JStr "Creator created successfully")
           eq_refl eq_refl).
Defined.

(* ------------------------------------------------------------------ *)
(** *** Settings written and read back *)

Lemma assoc_set_field k k' v fs :
  assoc k (set_field k' v fs) = if String.eqb k' k then Some v else assoc k fs.
Proof.
  induction fs as [|[k0 v0] fs IH]; cbn [set_field assoc].
  - destruct (String.eqb k' k); reflexivity.
  - destruct (String.eqb_spec k0 k') as [->|Hne]; cbn [assoc].
    + destruct (String.eqb k' k); reflexivity.
    + destruct (String.eqb_spec k0 k) as [->|Hne'].
      * destruct (String.eqb_spec k' k); [congruence | reflexivity].
      * exact IH.
Qed.

Lemma fold_assign_lookup k : k <> "__proto__" -> forall rows acc,
  assoc k (fold_left
             (fun settingsObj setting =>
                assign_property (to_string (SQLite.to_js (Setting.key setting)))
                  (SQLite.to_js (Setting.value setting)) settingsObj)
             rows acc) =
  match last_named k rows with
  | Some r => Some (SQLite.to_js (Setting.value r))
  | None => assoc k acc
  end.
Proof.
  intros Hk. induction rows as [|r rows IH]; intros acc; cbn [fold_left last_named].
  - reflexivity.
  - rewrite IH. destruct (last_named k rows); [reflexivity|].
    unfold assign_property, named.
    destruct (String.eqb_spec (to_string (SQLite.to_js (Setting.key r))) "__proto__")
      as [E|E].
    + rewrite E. destruct (String.eqb_spec "__proto__" k); [congruence | reflexivity].
    + rewrite assoc_set_field.
      destruct (String.eqb (to_string (SQLite.to_js (Setting.key r))) k); reflexivity.
Qed.

Lemma get_settings_field e req rows k :
  io_ok e 0 = true -> k <> "__proto__" ->
  exists obj,
    get_settings e req rows = Json 200 [] obj /\
    field k obj = match last_named k rows with
                  | Some r => SQLite.to_js (Setting.value r)
                  | None => JUndefined
                  end.
Proof.
  intros Hio Hk. unfold get_settings. rewrite Hio. cbn [negb].
  eexists. split; [reflexivity|].
  unfold field, get_prop. rewrite (fold_assign_lookup k Hk). cbn [assoc].
  destruct (last_named k rows); reflexivity.
Qed.

Lemma last_named_app k l1 l2 :
  last_named k (l1 ++ l2) =
  match last_named k l2 with Some x => Some x | None => last_named k l1 end.
Proof.
  induction l1 as [|r l1 IH]; cbn [app last_named].
  - destruct (last_named k l2); reflexivity.
  - rewrite IH. destruct (last_named k l2); reflexivity.
Qed.

Lemma last_named_filter k (p : Setting.t -> bool) rows :
  (forall r, p r = false -> named k r = false) ->
  last_named k (filter p rows) = last_named k rows.
Proof.
  intros Hp. induction rows as [|r rows IH]; cbn [filter last_named]; [reflexivity|].
  destruct (p r) eqn:E; cbn [last_named]; rewrite IH; [reflexivity|].
  rewrite (Hp r E). destruct (last_named k rows); reflexivity.
Qed.

Lemma same_key_text key r : same_key (SText key) r = true -> Setting.key r = SText key.
Proof. apply eq_text_inv. Qed.

Lemma replace_setting_lookup e n key v rows k :
  io_ok e n = true ->
  option_map Setting.value (last_named k (replace_setting e n [JStr key; v] rows)) =
  if String.eqb key k then Some (apply_affinity TEXT (bind v))
  else option_map Setting.value (last_named k rows).
Proof.
  intros Hio. unfold replace_setting. rewrite Hio. cbn [negb nth bind apply_affinity].
  rewrite last_named_app. cbn [last_named]. unfold named at 1.
  cbn [Setting.key SQLite.to_js to_string].
  destruct (String.eqb_spec key k) as [->|Hne]; [reflexivity|].
  rewrite last_named_filter; [reflexivity|].
  intros r Hr. apply negb_false_iff in Hr. apply same_key_text in Hr.
  unfold named. rewrite Hr. cbn. apply String.eqb_neq. exact Hne.
Qed.

Lemma replace_each_lookup e k es : forall n rows,
  (forall i, (n <= i < n + List.length es)%nat -> io_ok e i = true) ->
  NoDup (map fst es) ->
  (forall v, In (k, v) es ->
     option_map Setting.value (last_named k (replace_each e n es rows)) =
     Some (apply_affinity TEXT (bind v))) /\
  (~ In k (map fst es) ->
     option_map Setting.value (last_named k (replace_each e n es rows)) =
     option_map Setting.value (last_named k rows)).
Proof.
  induction es as [|[k0 v0] es IH]; intros n rows Hio Hnd;
    cbn [replace_each map fst In List.length] in *.
  - split; [intros v [] | reflexivity].
  - inversion Hnd as [|? ? Hk0 Hnd']; subst.
    destruct (IH (S n) (replace_setting e n [JStr k0; v0] rows)) as [I1 I2];
      [intros i Hi; apply Hio; lia | exact Hnd' |].
    assert (H0 : io_ok e n = true) by (apply Hio; lia).
    split.
    + intros v [Heq | Hin].
      * injection Heq as -> ->. rewrite (I2 Hk0), (replace_setting_lookup _ _ _ _ _ _ H0).
        rewrite String.eqb_refl. reflexivity.
      * apply (I1 _ Hin).
    + intros Hn. rewrite I2 by tauto. rewrite (replace_setting_lookup _ _ _ _ _ _ H0).
      destruct (String.eqb_spec k0 k); [tauto | reflexivity].
Qed.

(** X14. PUT /api/settings with an object body answers 200. When all its
    statements run, and the numbers of the body have at most fifteen
    significant digits, a following GET returns, for each key of the body
    other than __proto__, the value as a TEXT column holds it: a string as
    it is, a 32-bit integer as its decimal digits, any other number as
    SQLite writes a REAL (3000000000.0, 1.0e+21), an array or an object as
    the text [[object Object]]; and for every other key what it returned
    before. *)
Theorem settings_put_then_get (e e' : env) (req req' : request)
  (rows : list Setting.t) (fs : list (string * jsval)) :
  body req = JObj fs ->
  NoDup (map fst fs) ->
  (forall k q, In (k, JNum q) fs -> short_decimal q) ->
  (forall i, (i < List.length fs)%nat -> io_ok e i = true) ->
  io_ok e' 0 = true ->
  fst (put_settings e req rows) =
    Json 200 [] (message_body "Settings updated successfully") /\
  forall k, k <> "__proto__" ->
    exists before after,
      get_settings e' req' rows = Json 200 [] before /\
      get_settings e' req' (snd (put_settings e req rows)) = Json 200 [] after /\
      (forall v, In (k, v) fs -> field k after = as_text_value v) /\
      (~ In k (map fst fs) -> field k after = field k before).
Proof.
  intros Hb Hnd _ Hio Hio'. unfold put_settings. rewrite Hb. cbn [entries fst snd].
  split; [reflexivity|]. intros k Hk.
  destruct (get_settings_field e' req' rows k Hio' Hk) as (before & Hg & Hf).
  destruct (get_settings_field e' req' (replace_each e 0 fs rows) k Hio' Hk)
    as (after & Hg' & Hf').
  exists before, after. split; [exact Hg|]. split; [exact Hg'|].
  destruct (replace_each_lookup e k fs 0%nat rows) as [L1 L2];
    [intros i Hi; apply Hio; lia | exact Hnd |].
  rewrite Hf, Hf'. split.
  - intros v Hin. specialize (L1 v Hin).
    destruct (last_named k (replace_each e 0 fs rows)); [|discriminate].
    cbn in L1. injection L1 as ->. reflexivity.
  - intros Hn. specialize (L2 Hn).
    destruct (last_named k (replace_each e 0 fs rows)), (last_named k rows);
      cbn in L2; try discriminate; [injection L2 as ->|]; reflexivity.
Qed.

Lemma six_is_short k q :
  In (k, JNum q) [("featured_slots", JNum 6); ("theme", JStr "dark")] -> short_decimal q.
Proof.
  intros [H | [H | []]]; [|discriminate]. injection H as _ <-.
  exists 6, 0. split; [reflexivity|]. split; [lia | reflexivity].
Qed.

(** X14, a worked instance: the number 6 comes back as text. *)
Lemma settings_put_then_get_witness :
  exists before after,
    get_settings sample_env (with_header None) sample_settings = Json 200 [] before /\
    get_settings sample_env (with_header None)
      (snd (put_settings sample_env sample_put sample_settings)) = Json 200 [] after /\
    field "featured_slots" before = JStr "4" /\
    field "featured_slots" after = JStr "6".
Proof.
  destruct (proj2 (settings_put_then_get sample_env sample_env sample_put
                     (with_header None) sample_settings
                     [("featured_slots", JNum 6); ("theme", JStr "dark")]
                     eq_refl
                     ltac:(repeat constructor; cbn; intuition discriminate)
                     six_is_short
                     (fun _ _ => eq_refl) eq_refl)
              "featured_slots" ltac:(discriminate))
    as (before & after & H1 & H2 & H3 & _).
  exists before, after. split; [exact H1|]. split; [exact H2|]. split.
  - injection H1 as <-. reflexivity.
  - rewrite (H3 (JNum 6)); [reflexivity | left; reflexivity].
Defined.

(* ------------------------------------------------------------------ *)
(** *** Keys of site_settings *)

Lemma string_compare_refl s : String.compare s s = Eq.
Proof.
  pose proof (String.compare_antisym s s) as H.
  destruct (String.compare s s); [reflexivity | discriminate | discriminate].
Qed.

Lemma same_key_iff key r : same_key (SText key) r = true <-> Setting.key r = SText key.
Proof.
  split; [apply same_key_text|]. unfold same_key. intros ->. cbn.
  rewrite string_compare_refl. reflexivity.
Qed.

Lemma NoDup_filter_keys (p : Setting.t -> bool) rows :
  NoDup (map Setting.key rows) -> NoDup (map Setting.key (filter p rows)).
Proof.
  induction rows as [|r rows IH]; cbn [filter map]; intros Hnd; [constructor|].
  inversion Hnd as [|? ? Hr Hnd']; subst.
  destruct (p r); cbn [map]; [|auto].
  constructor; [|auto]. intros Hin. apply Hr.
  apply in_map_iff in Hin. destruct Hin as (x & Hx & Hin).
  apply filter_In in Hin. rewrite <- Hx. apply in_map. tauto.
Qed.

Lemma NoDup_snoc {A : Type} (l : list A) (x : A) :
  NoDup l -> ~ In x l -> NoDup (l ++ [x]).
Proof.
  intros Hnd Hx. apply NoDup_app; [exact Hnd | constructor; [intros [] | constructor] |].
  intros y Hy [<- | []]. exact (Hx Hy).
Qed.

Lemma replace_setting_keys e n key v rows :
  NoDup (map Setting.key rows) ->
  NoDup (map Setting.key (replace_setting e n [JStr key; v] rows)).
Proof.
  intros Hnd. unfold replace_setting. destruct (io_ok e n); cbn [negb]; [|exact Hnd].
  cbn [nth bind apply_affinity]. rewrite map_app. cbn [map Setting.key].
  apply NoDup_snoc; [apply NoDup_filter_keys, Hnd|].
  intros Hin. apply in_map_iff in Hin. destruct Hin as (r & Hr & Hin).
  apply filter_In in Hin. destruct Hin as [_ Hs]. apply negb_true_iff in Hs.
  apply same_key_iff in Hr. congruence.
Qed.

Lemma replace_each_keys e es : forall n rows,
  NoDup (map Setting.key rows) ->
  NoDup (map Setting.key (replace_each e n es rows)).
Proof.
  induction es as [|[k v] es IH]; intros n rows Hnd; cbn [replace_each]; [exact Hnd|].
  apply IH, replace_setting_keys, Hnd.
Qed.

Lemma existsb_same_key key rows :
  existsb (same_key (SText key)) rows = true <-> In (SText key) (map Setting.key rows).
Proof.
  rewrite existsb_exists, in_map_iff. split; intros (r & H1 & H2); exists r.
  - split; [apply same_key_iff|]; assumption.
  - split; [|apply same_key_iff]; assumption.
Qed.

Lemma insert_setting_cases e n key value rows :
  insert_setting_or_ignore e n [JStr key; JStr value] rows =
  if io_ok e n && negb (existsb (same_key (SText key)) rows)
  then rows ++ [Setting.mk (SText key) (SText value) (timestamp e)]
  else rows.
Proof.
  unfold insert_setting_or_ignore. cbn [nth bind apply_affinity].
  destruct (io_ok e n); cbn [negb andb]; [|reflexivity].
  destruct (existsb _ rows); reflexivity.
Qed.

(** X16. Seeding the default settings only appends rows: the rows already
    there are kept as they are, and each added row is a default whose key
    was not in the table. It keeps the keys distinct. When all its
    statements run, every default key is in the table afterwards, and
    seeding again (a restart of the server) changes nothing. *)
Theorem seed_settings_only_adds (e : env) (k : nat) (defaults : list (string * string))
  (rows : list Setting.t) :
  (exists added,
     seed_settings e k defaults rows = rows ++ added /\
     forall r, In r added ->
       exists key value,
         In (key, value) defaults /\
         Setting.key r = SText key /\ Setting.value r = SText value /\
         ~ In (SText key) (map Setting.key rows)) /\
  (NoDup (map Setting.key rows) ->
   NoDup (map Setting.key (seed_settings e k defaults rows))) /\
  ((forall i, (k <= i < k + List.length defaults)%nat -> io_ok e i = true) ->
   (forall key value, In (key, value) defaults ->
      In (SText key) (map Setting.key (seed_settings e k defaults rows))) /\
   (forall e' k',
      seed_settings e' k' defaults (seed_settings e k defaults rows) =
      seed_settings e k defaults rows)).
Proof.
  assert (Hadd : forall (defaults : list (string * string)) (k : nat)
                        (rows : list Setting.t),
            exists added,
              seed_settings e k defaults rows = rows ++ added /\
              forall r, In r added ->
                exists key value,
                  In (key, value) defaults /\
                  Setting.key r = SText key /\ Setting.value r = SText value /\
                  ~ In (SText key) (map Setting.key rows)).
  { clear. induction defaults as [|[key value] defaults IH]; intros k rows;
      cbn [seed_settings].
    - exists []. rewrite app_nil_r. split; [reflexivity | intros r []].
    - destruct (IH (S k) (insert_setting_or_ignore e k [JStr key; JStr value] rows))
        as (added & Heq & Hin).
      rewrite Heq, insert_setting_cases. rewrite insert_setting_cases in Hin.
      destruct (io_ok e k && negb (existsb (same_key (SText key)) rows)) eqn:Ec.
      + apply andb_true_iff in Ec. destruct Ec as [_ Ec]. apply negb_true_iff in Ec.
        exists (Setting.mk (SText key) (SText value) (timestamp e) :: added).
        rewrite <- app_assoc. split; [reflexivity|].
        intros r [<- | Hr].
        * exists key, value. repeat split; [left; reflexivity|].
          intros Hk. apply existsb_same_key in Hk. congruence.
        * destruct (Hin r Hr) as (key' & value' & H1 & H2 & H3 & H4).
          exists key', value'. repeat split; [right; exact H1 | exact H2 | exact H3 |].
          intros Hk. apply H4. rewrite map_app. apply in_or_app. left. exact Hk.
      + exists added. split; [reflexivity|].
        intros r Hr. destruct (Hin r Hr) as (key' & value' & H1 & H2 & H3 & H4).
        exists key', value'.
        repeat split; [right; exact H1 | exact H2 | exact H3 | exact H4]. }
  assert (Hkeep : forall (defaults : list (string * string)) e' k' rows,
            (forall key value, In (key, value) defaults ->
               In (SText key) (map Setting.key rows)) ->
            seed_settings e' k' defaults rows = rows).
  { clear. induction defaults as [|[key value] defaults IH]; intros e' k' rows Hall;
      cbn [seed_settings]; [reflexivity|].
    rewrite insert_setting_cases.
    rewrite (proj2 (existsb_same_key key rows))
      by (apply (Hall key value); left; reflexivity).
    rewrite andb_false_r. apply IH. intros; eapply Hall; right; eassumption. }
  split; [apply Hadd|]. split.
  - revert k rows. induction defaults as [|[key value] defaults IH]; intros k rows Hnd;
      cbn [seed_settings]; [exact Hnd|].
    apply IH. rewrite insert_setting_cases.
    destruct (io_ok e k && negb (existsb (same_key (SText key)) rows)) eqn:Ec;
      [|exact Hnd].
    apply andb_true_iff in Ec. destruct Ec as [_ Ec]. apply negb_true_iff in Ec.
    rewrite map_app. cbn [map Setting.key]. apply NoDup_snoc; [exact Hnd|].
    intros Hk. apply existsb_same_key in Hk. congruence.
  - intros Hio.
    assert (Hall : forall key value, In (key, value) defaults ->
              In (SText key) (map Setting.key (seed_settings e k defaults rows))).
    { revert k rows Hio. induction defaults as [|[key0 value0] defaults IH];
        intros k rows Hio key value Hin; cbn [seed_settings List.length] in *;
        [destruct Hin|].
      destruct Hin as [Heq | Hin].
      - injection Heq as -> ->.
        destruct (Hadd defaults (S k)
                    (insert_setting_or_ignore e k [JStr key; JStr value] rows))
          as (added & -> & _).
        rewrite map_app. apply in_or_app. left. rewrite insert_setting_cases.
        rewrite (Hio k) by lia. cbn [andb].
        destruct (existsb (same_key (SText key)) rows) eqn:Ex; cbn [negb].
        + apply existsb_same_key. exact Ex.
        + rewrite map_app. apply in_or_app. right. left. reflexivity.
      - eapply IH; [intros i Hi; apply Hio; lia | exact Hin]. }
    split; [exact Hall | intros e' k'; apply Hkeep, Hall].
Qed.

(** X16, a worked instance: seeding twice. *)
Lemma seed_settings_only_adds_witness :
  seed_settings sample_env 5 defaultSettings
    (seed_settings sample_env 0 defaultSettings sample_settings) =
  seed_settings sample_env 0 defaultSettings sample_settings.
Proof.
  apply (proj2 (proj2 (proj2 (seed_settings_only_adds sample_env 0 defaultSettings
                                sample_settings))
                  (fun _ _ => eq_refl))).
Defined.

(** X15. PUT /api/settings keeps the keys of site_settings distinct, whatever
    the body and whichever of its statements fail. *)
Theorem put_settings_keys_unique (e : env) (req : request) (rows : list Setting.t) :
  NoDup (map Setting.key rows) ->
  NoDup (map Setting.key (snd (put_settings e req rows))).
Proof.
  intros Hnd. unfold put_settings. destruct (entries (body req)); cbn [snd];
    [apply replace_each_keys|]; exact Hnd.
Qed.


(** X15, a worked instance. *)
Lemma put_settings_keys_unique_witness :
  NoDup (map Setting.key (snd (put_settings sample_env sample_put sample_settings))).
Proof.
  apply put_settings_keys_unique.
  repeat constructor; cbn; intuition discriminate.
Defined.

(* ------------------------------------------------------------------ *)
(** *** The token of a header *)

Lemma split_on_word sep l : Forall (fun c => c <> sep) l -> forall cur,
  split_on sep l cur = [string_of_list_ascii (cur ++ l)].
Proof.
  induction 1 as [|c l Hc Hl IH]; intros cur; cbn [split_on].
  - rewrite app_nil_r. reflexivity.
  - destruct (Ascii.eqb_spec c sep); [contradiction|].
    rewrite IH, <- app_assoc. reflexivity.
Qed.

Lemma split_on_sep sep l : Forall (fun c => c <> sep) l -> forall cur rest,
  split_on sep (l ++ sep :: rest) cur =
  string_of_list_ascii (cur ++ l) :: split_on sep rest [].
Proof.
  induction 1 as [|c l Hc Hl IH]; intros cur rest; cbn [split_on app].
  - rewrite Ascii.eqb_refl, app_nil_r. reflexivity.
  - destruct (Ascii.eqb_spec c sep); [contradiction|].
    rewrite IH, <- app_assoc. reflexivity.
Qed.

(** X9. The token authenticateToken verifies is the second space-separated
    word of the Authorization header: the scheme word is not looked at, and
    whatever follows a further space is dropped. *)
Theorem request_token_second_word (req : request) (scheme t rest : string) :
  authorization req = Some (scheme ++ " " ++ t ++ rest)%string ->
  word scheme -> word t ->
  rest = "" \/ (exists rest', rest = (" " ++ rest')%string) ->
  request_token req = JStr t.
Proof.
  intros Hh Hs Ht Hrest. unfold request_token. rewrite Hh.
  assert (Hne : truthy (JStr (scheme ++ " " ++ t ++ rest)%string) = true).
  { cbn [truthy]. destruct scheme; reflexivity. }
  unfold js_and. rewrite Hne. unfold split, index.
  rewrite !list_ascii_app. cbn [list_ascii_of_string app].
  rewrite (split_on_sep _ _ Hs). cbn [nth_error].
  destruct Hrest as [-> | [rest' ->]].
  - cbn [list_ascii_of_string]. rewrite app_nil_r, (split_on_word _ _ Ht).
    cbn [app nth_error]. rewrite string_of_list_ascii_of_string. reflexivity.
  - rewrite list_ascii_app. cbn [list_ascii_of_string app].
    rewrite (split_on_sep _ _ Ht). cbn [app nth_error].
    rewrite string_of_list_ascii_of_string. reflexivity.
Qed.

(** X9, a worked instance: another scheme word and trailing words. *)
Lemma request_token_second_word_witness :
  request_token (with_header (Some "Basic admin-token trailing words")) =
  JStr "admin-token".
Proof.
  apply (request_token_second_word
           (with_header (Some "Basic admin-token trailing words"))
           "Basic" "admin-token" " trailing words" eq_refl).
  - repeat constructor; discriminate.
  - repeat constructor; discriminate.
  - right. exists "trailing words". reflexivity.
Defined.

(* ------------------------------------------------------------------ *)
(** *** Login *)

Lemma select_admin_in name admins u : select_admin name admins = Some u -> In u admins.
Proof.
  unfold select_admin.
  destruct (find _ admins) as [x|] eqn:E.
  - intros H. injection H as <-. apply (find_some _ _ E).
  - intros H. apply (find_some _ _ H).
Qed.

Lemma same_account_refl l : Forall2 same_account l l.
Proof. induction l; constructor; [repeat split | assumption]. Qed.

Lemma same_account_stamp e id l :
  Forall2 (fun u u' => same_account u u' /\
                       (Admin.last_login u' = Admin.last_login u \/
                        Admin.id u = id /\ Admin.last_login u' = timestamp e))
          l (map (stamp_login e id) l).
Proof.
  induction l as [|u l IH]; cbn [map]; constructor; [|exact IH].
  unfold stamp_login. destruct (Z.eqb_spec (Admin.id u) id).
  - split; [repeat split|]. right. split; [assumption | reflexivity].
  - split; [repeat split|]. left. reflexivity.
Qed.

(** X17. POST /api/auth/login answers with a token only if the account the
    query selects (the one whose username equals the submitted name or,
    when there is none, the first one whose email equals it) has a stored
    hash that bcrypt matches against the submitted password, both of them
    strings; the token is signed over the id, username and role of that
    account, and the user record of the reply carries no password hash.
    Such a login changes nothing but the last_login of that account; every
    other reply leaves the table as it was; and a 401 reply is always the
    same Invalid credentials record. *)
Theorem login_sound (bcrypt_compareSync : string -> string -> bool)
  (jwt_sign : jsval -> string) (e : env) (req : request)
  (admins admins' : list Admin.t) (rep : reply) :
  login bcrypt_compareSync jwt_sign e req admins = (rep, admins') ->
  (forall token user,
     rep = Json 200 [] (JObj [("token", token); ("user", user)]) ->
     exists u p h,
       account req admins = Some u /\ In u admins /\
       field "password" (body req) = JStr p /\
       Admin.password_hash u = SText h /\
       bcrypt_compareSync p h = true /\
       token = JStr (jwt_sign (token_payload u)) /\
       field "id" user = JNum (inject_Z (Admin.id u)) /\
       field "password_hash" user = JUndefined /\
       Forall2 (fun a a' =>
                  same_account a a' /\
                  (Admin.last_login a' = Admin.last_login a \/
                   Admin.id a = Admin.id u /\ Admin.last_login a' = timestamp e))
               admins admins') /\
  ((forall token user, rep <> Json 200 [] (JObj [("token", token); ("user", user)])) ->
   admins' = admins) /\
  (forall headers b, rep = Json 401 headers b ->
     headers = [] /\ b = error_body "Invalid credentials").
Proof.
  unfold login, account.
  destruct (io_ok e 0); cbn [negb].
  2:{ intros H. injection H as <- <-. split; [|split].
      - intros token user H. discriminate.
      - reflexivity.
      - intros headers b H. discriminate. }
  destruct (select_admin (bind (field "username" (body req))) admins) as [u|] eqn:Ea.
  2:{ intros H. injection H as <- <-. split; [|split].
      - intros token user H. discriminate.
      - reflexivity.
      - intros headers b H. injection H as <- <-. split; reflexivity. }
  assert (Hin : In u admins) by (apply (select_admin_in _ _ _ Ea)).
  destruct (field "password" (body req)) as [| |b0|q0| |p|l0|fs0] eqn:Ep;
    try (intros H; injection H as <- <-; split; [|split];
         [ intros token user H; discriminate
         | reflexivity
         | intros headers b H; discriminate ]).
  destruct (Admin.password_hash u) as [|q|h] eqn:Eh; cbn [SQLite.to_js];
    try (intros H; injection H as <- <-; split; [|split];
         [ intros token user H; discriminate
         | reflexivity
         | intros headers b H; discriminate ]).
  destruct (bcrypt_compareSync p h) eqn:Ec; cbn [negb].
  2:{ intros H. injection H as <- <-. split; [|split].
      - intros token user H. discriminate.
      - reflexivity.
      - intros headers b H. injection H as <- <-. split; reflexivity. }
  intros H. injection H as <- <-. split; [|split].
  - intros token user H. injection H as <- <-.
    exists u, p, h. repeat split; try assumption; try reflexivity.
    destruct (io_ok e 1).
    + apply same_account_stamp.
    + clear. induction admins; constructor; [|assumption].
      split; [repeat split | left; reflexivity].
  - intros H. exfalso. eapply H. reflexivity.
  - intros headers b H. discriminate.
Qed.

(** X17, a worked instance: the default administrator. *)
Lemma login_sound_witness :
  exists u p h,
    In u sample_admins /\
    field "password" (body sample_login) = JStr p /\
    Admin.password_hash u = SText h /\
    sample_compare p h = true.
Proof.
  destruct (proj1 (login_sound sample_compare sample_sign sample_env sample_login
                     sample_admins _ _ eq_refl) _ _ eq_refl)
    as (u & p & h & _ & H2 & H3 & H4 & H5 & _).
  exists u, p, h. split; [exact H2|]. split; [exact H3|]. split; [exact H4 | exact H5].
Defined.

(** X18. A login request whose password is not a string is answered 401
    when no account has the submitted name, but throws out of the handler
    when an account has it (compareSync rejects the argument). *)
Theorem login_without_password (bcrypt_compareSync : string -> string -> bool)
  (jwt_sign : jsval -> string) (e : env) (req : request) (admins : list Admin.t) :
  io_ok e 0 = true ->
  is_string (field "password" (body req)) = false ->
  (account req admins = None ->
   login bcrypt_compareSync jwt_sign e req admins =
     (Json 401 [] (error_body "Invalid credentials"), admins)) /\
  (account req admins <> None ->
   exists error,
     login bcrypt_compareSync jwt_sign e req admins = (Throws error, admins)).
Proof.
  intros Hio Hp. unfold login, account. rewrite Hio. cbn [negb].
  split.
  - intros ->. reflexivity.
  - destruct (select_admin (bind (field "username" (body req))) admins) as [u|];
      [intros _ | intros H; contradiction].
    destruct (field "password" (body req)); try discriminate;
      eexists; reflexivity.
Qed.


(** X18, a worked instance: the name of an account and no password. *)
Lemma login_without_password_witness :
  exists error,
    login sample_compare sample_sign sample_env login_without_a_password sample_admins =
      (Throws error, sample_admins).
Proof.
  apply (proj2 (login_without_password sample_compare sample_sign sample_env
                  login_without_a_password sample_admins eq_refl eq_refl)).
  discriminate.
Defined.


(* ------------------------------------------------------------------ *)
(** *** Paging at its edges *)

Lemma filter_all {A : Type} (p : A -> bool) (l : list A) :
  (forall x, In x l -> p x = true) -> filter p l = l.
Proof.
  induction l as [|x l IH]; intros H; cbn [filter]; [reflexivity|].
  rewrite (H x) by (left; reflexivity). f_equal. apply IH. intros; apply H; right; assumption.
Qed.




(* ------------------------------------------------------------------ *)
(** *** Recent activity, grouped *)

Lemma order_eq_compat a b c : order a b = Eq -> order a c = order b c.
Proof.
  destruct order_orders as [Hanti Htr]. intros Hab.
  assert (Hba : order b a = Eq) by (rewrite Hanti, Hab; reflexivity).
  destruct (order b c) eqn:Ebc.
  - destruct (Htr a b c) as [H1 _]; [congruence | congruence|].
    assert (Hcb : order c b = Eq) by (rewrite Hanti, Ebc; reflexivity).
    destruct (Htr c b a) as [H2 _]; [congruence | congruence|].
    rewrite Hanti in H2. destruct (order a c); cbn in *; congruence.
  - destruct (Htr a b c) as [H1 H1']; [congruence | congruence|].
    destruct (order a c); [|reflexivity|congruence].
    destruct (H1' eq_refl). congruence.
  - assert (Hcb : order c b = Lt) by (rewrite Hanti, Ebc; reflexivity).
    destruct (Htr c b a) as [H2 H2']; [congruence | congruence|].
    rewrite (Hanti c a). destruct (order c a); cbn; [|reflexivity|congruence].
    destruct (H2' eq_refl). congruence.
Qed.

Lemma order_lt_trans a b c : order a b = Lt -> order b c = Lt -> order a c = Lt.
Proof.
  destruct order_orders as [Hanti Htr]. intros Hab Hbc.
  destruct (Htr a b c) as [H1 H1']; [congruence | congruence|].
  destruct (order a c); [|reflexivity|congruence].
  destruct (H1' eq_refl). congruence.
Qed.

Lemma same_group_compat a b c : order a b = Eq -> same_group a c = same_group b c.
Proof. intros H. unfold same_group. rewrite (order_eq_compat a b c H). reflexivity. Qed.

Lemma tally_keys (P : sqlval * Z -> Prop) k g :
  (forall n, P (k, n)) -> (forall k' n m, P (k', n) -> P (k', m)) ->
  Forall P g -> Forall P (tally k g).
Proof.
  intros Hk Hn. induction g as [|[k' n] g IH]; intros Hg; cbn [tally].
  - constructor; [apply Hk | constructor].
  - inversion Hg as [|? ? Hp Hg']; subst.
    destruct (order k k').
    + constructor; [apply (Hn _ _ _ Hp) | exact Hg'].
    + constructor; [apply Hk | exact Hg].
    + constructor; [exact Hp | apply IH, Hg'].
Qed.

Lemma tally_sorted k g :
  StronglySorted key_lt g -> StronglySorted key_lt (tally k g).
Proof.
  destruct order_orders as [Hanti _].
  induction 1 as [|[k' n] g Hs IH Hall]; cbn [tally].
  - constructor; [constructor | constructor].
  - destruct (order k k') eqn:E.
    + constructor; [exact Hs|]. eapply Forall_impl; [|exact Hall].
      intros p Hp. exact Hp.
    + constructor; [constructor; assumption|]. constructor; [exact E|].
      eapply Forall_impl; [|exact Hall]. intros p Hp. unfold key_lt in *. cbn [fst] in *.
      apply (order_lt_trans _ _ _ E Hp).
    + constructor; [exact IH|]. apply tally_keys.
      * intros m. unfold key_lt. cbn [fst]. rewrite Hanti, E. reflexivity.
      * intros k0 a b Hp. exact Hp.
      * exact Hall.
Qed.

Lemma tally_positive k g :
  Forall (fun p => 0 < snd p) g -> Forall (fun p => 0 < snd p) (tally k g).
Proof.
  induction 1 as [|[k' n] g Hp Hg IH]; cbn [tally].
  - constructor; [cbn; lia | constructor].
  - destruct (order k k'); constructor; cbn [snd] in *; try assumption; try lia.
    constructor; assumption.
Qed.

Lemma tally_weight k k0 g :
  weight k0 (tally k g) = weight k0 g + (if same_group k k0 then 1 else 0).
Proof.
  induction g as [|[k' n] g IH]; cbn [tally weight fold_right fst snd].
  - lia.
  - destruct (order k k') eqn:E; cbn [weight fold_right fst snd].
    + rewrite (same_group_compat k k' k0 E). fold (weight k0 g).
      destruct (same_group k' k0); lia.
    + fold (weight k0 g). lia.
    + fold (weight k0 (tally k g)) (weight k0 g). rewrite IH. lia.
Qed.

Lemma group_fold keys : forall g,
  StronglySorted key_lt g -> Forall (fun p => 0 < snd p) g ->
  let g' := fold_left (fun g k => tally k g) keys g in
  StronglySorted key_lt g' /\ Forall (fun p => 0 < snd p) g' /\
  forall k, weight k g' = weight k g + occurrences k keys.
Proof.
  induction keys as [|k0 keys IH]; intros g Hs Hp; cbn [fold_left].
  - repeat split; try assumption. intros k. unfold occurrences. cbn. lia.
  - destruct (IH (tally k0 g) (tally_sorted _ _ Hs) (tally_positive _ _ Hp))
      as (H1 & H2 & H3).
    repeat split; try assumption. intros k. rewrite H3, tally_weight.
    unfold occurrences. cbn [filter]. destruct (same_group k0 k); cbn [List.length]; lia.
Qed.

Lemma weight_sorted_head k n g :
  Forall (key_lt (k, n)) g -> weight k g = 0.
Proof.
  destruct order_orders as [Hanti _].
  induction 1 as [|p g Hp Hg IH]; cbn [weight fold_right]; [reflexivity|].
  fold (weight k g). rewrite IH. unfold key_lt in Hp. cbn [fst] in Hp.
  unfold same_group. rewrite Hanti, Hp. reflexivity.
Qed.

Lemma weight_in k n g :
  StronglySorted key_lt g -> In (k, n) g -> weight k g = n.
Proof.
  destruct order_orders as [Hanti _].
  induction 1 as [|p g Hs IH Hall]; intros Hin; [destruct Hin|].
  cbn [weight fold_right]. fold (weight k g). destruct Hin as [-> | Hin].
  - cbn [fst snd]. rewrite (weight_sorted_head _ _ _ Hall).
    unfold same_group. 
    assert (E : order k k = Eq).
    { pose proof (Hanti k k) as H. destruct (order k k); cbn in H; congruence. }
    rewrite E. lia.
  - rewrite (IH Hin). rewrite Forall_forall in Hall. specialize (Hall _ Hin).
    unfold key_lt in Hall. cbn [fst] in Hall. unfold same_group. rewrite Hall. lia.
Qed.

(** X6. The recent activity of the dashboard has one entry per event type
    among the events whose timestamp is later than seven days ago, in
    ascending order of type and without repeats; each entry counts exactly
    the recent events of its type, and that is at least one; and every
    recent event is counted by some entry. *)
Theorem recent_activity_counts (e : env) (rows : list Analytics.t) :
  exists groups,
    recent_activity e rows =
      JArr (map (fun g => JObj [("event_type", SQLite.to_js (fst g));
                                ("count", JNum (inject_Z (snd g)))]) groups) /\
    StronglySorted (fun a b => order (fst a) (fst b) = Lt) groups /\
    (forall k n, In (k, n) groups ->
       0 < n /\
       n = Z.of_nat (List.length
                       (filter (fun r => recent e r &&
                                         same_group (Analytics.event_type r) k) rows))) /\
    (forall r, In r rows -> recent e r = true ->
       exists k n, In (k, n) groups /\ same_group (Analytics.event_type r) k = true).
Proof.
  unfold recent_activity. fold (recent e).
  set (keys := map Analytics.event_type (filter (recent e) rows)).
  pose proof (group_fold keys [] (SSorted_nil _) (Forall_nil _)) as Hg.
  cbv zeta in Hg. destruct Hg as (Hs & Hp & Hw).
  fold (group_count keys) in Hs, Hp, Hw.
  exists (group_count keys). split; [reflexivity|]. split; [exact Hs|].
  assert (Hocc : forall k, occurrences k keys =
            Z.of_nat (List.length
                        (filter (fun r => recent e r &&
                                          same_group (Analytics.event_type r) k) rows))).
  { intros k. unfold occurrences, keys. f_equal. clear.
    induction rows as [|r rows IH]; cbn [filter map]; [reflexivity|].
    destruct (recent e r); cbn [andb map filter]; [|exact IH].
    destruct (same_group (Analytics.event_type r) k); cbn [List.length]; rewrite IH;
      reflexivity. }
  split.
  - intros k n Hin. split.
    + rewrite Forall_forall in Hp. apply (Hp _ Hin).
    + rewrite <- Hocc, <- (weight_in k n _ Hs Hin), Hw. cbn. lia.
  - intros r Hr Hrec.
    set (k := Analytics.event_type r).
    assert (Hpos : 0 < weight k (group_count keys)).
    { rewrite Hw, Hocc. cbn [weight fold_right].
      assert (Hin : In r (filter (fun r0 => recent e r0 &&
                                  same_group (Analytics.event_type r0) k) rows)).
      { apply filter_In. split; [exact Hr|]. rewrite Hrec. cbn [andb].
        unfold same_group, k.
        destruct order_orders as [Hanti _].
        pose proof (Hanti (Analytics.event_type r) (Analytics.event_type r)) as H.
        destruct (order _ _); cbn in H; congruence. }
      destruct (filter (fun r0 => recent e r0 &&
                          same_group (Analytics.event_type r0) k) rows);
        [exfalso; exact Hin | cbn [List.length]; lia]. }
    clear -Hpos. induction (group_count keys) as [|[k' n] g IH];
      cbn [weight fold_right fst snd] in Hpos; [lia|].
    fold (weight k g) in Hpos.
    destruct (same_group k' k) eqn:E.
    + exists k', n. split; [left; reflexivity|].
      unfold same_group in *. destruct order_orders as [Hanti _].
      rewrite Hanti. destruct (order k' k); cbn; congruence.
    + destruct IH as (k0 & n0 & Hin & Hg); [lia|].
      exists k0, n0. split; [right; exact Hin | exact Hg].
Qed.


(** X6, a worked instance on three events. *)
Lemma recent_activity_counts_witness :
  exists groups,
    recent_activity sample_env sample_events =
      JArr (map (fun g => JObj [("event_type", SQLite.to_js (fst g));
                                ("count", JNum (inject_Z (snd g)))]) groups) /\
    forall k n, In (k, n) groups -> 0 < n.
Proof.
  destruct (recent_activity_counts sample_env sample_events) as (groups & H1 & _ & H3 & _).
  exists groups. split; [exact H1|]. intros k n Hin. apply (H3 k n Hin).
Defined.
